(** * Data modeling with Cassandra: the ETL notebook

    A shallow embedding of [project.ipynb]: the cell that lists the event
    files, the extract cell that merges the event CSV files into
    [event_datafile_new.csv], the transform cells that create the tables and
    load them row by row, the three query cells, and the cells that drop the
    tables and close the connection.

    Files are modelled at the level of CSV records (what [csv.reader] yields
    and what [csv.writer.writerow] is given).  The column-family store the
    notebook talks to through [session.execute] is modelled as a keyspace of
    tables, each a finite map from partition key to the rows of the partition
    kept in clustering-key order, with INSERT as an upsert on the primary key. *)

From Stdlib Require Import ZArith String Ascii Sorted.
From stdpp Require Import gmap strings list sorting.

Open Scope Z_scope.

(** ** Python values and exceptions *)

(** A CSV record: the list of fields of one line. *)
Abbreviation row := (list string).

(** The exceptions the notebook's cells can raise. *)
Inductive exn :=
| StopIteration      (* next() on an exhausted reader *)
| IndexError         (* row[i] out of range *)
| ValueError         (* int() / float() on a malformed literal *)
| FileNotFoundError  (* open() of a missing file *)
| NameError          (* a variable read before it is bound *)
| AttributeError     (* a field missing from a result row *)
| InvalidRequest.    (* the store refuses a statement *)

Inductive result (A : Type) :=
| Ok (a : A)
| Raise (e : exn).
Arguments Ok {A} a.
Arguments Raise {A} e.

(** ** Clustering order and partitions *)

(** The comparison that orders the rows of a partition. *)
Class Clustering (CK : Type) := ck_compare : CK → CK → comparison.

#[export] Instance Z_clustering : Clustering Z := Z.compare.

(** Several clustering columns compare lexicographically. *)
#[export] Instance pair_clustering {A B} `{Clustering A, Clustering B} :
  Clustering (A * B) :=
  λ x y, match ck_compare x.1 y.1 with
         | Eq => ck_compare x.2 y.2
         | c => c
         end.

(** INSERT inside one partition: the row goes to its place in clustering
    order; a row with the same clustering key is replaced. *)
Fixpoint upsert {CK V} `{Clustering CK} (k : CK) (v : V) (p : list (CK * V))
  : list (CK * V) :=
  match p with
  | [] => [(k, v)]
  | (k', v') :: p' =>
      match ck_compare k k' with
      | Lt => (k, v) :: p
      | Eq => (k, v) :: p'
      | Gt => (k', v') :: upsert k v p'
      end
  end.

(** Strictly ascending clustering keys. *)
Definition ascending {CK V} `{Clustering CK} (p : list (CK * V)) : Prop :=
  StronglySorted (λ x y, ck_compare x.1 y.1 = Lt) p.

(** What the proofs need of a clustering comparison. *)
Class ClusteringLaws (CK : Type) `{Clustering CK} : Prop := {
  ck_eq : ∀ a b : CK, ck_compare a b = Eq ↔ a = b;
  ck_antisym : ∀ a b : CK, ck_compare b a = CompOpp (ck_compare a b);
  ck_trans : ∀ a b c : CK,
    ck_compare a b = Lt → ck_compare b c = Lt → ck_compare a c = Lt
}.

Section Table.
Context {PK : Type} `{Countable PK} {CK V : Type} `{Clustering CK}.

(** The rows of one partition, in clustering order. *)
Definition table_partition (pk : PK) (t : gmap PK (list (CK * V)))
  : list (CK * V) := default [] (t !! pk).

Definition table_insert (pk : PK) (ck : CK) (v : V)
    (t : gmap PK (list (CK * V))) : gmap PK (list (CK * V)) :=
  <[pk := upsert ck v (table_partition pk t)]> t.

(** A row is stored under its primary key. *)
Definition stored (pk : PK) (ck : CK) (v : V)
    (t : gmap PK (list (CK * V))) : Prop :=
  (ck, v) ∈ table_partition pk t.

Definition table_wf (t : gmap PK (list (CK * V))) : Prop :=
  ∀ pk, ascending (table_partition pk t).
End Table.

(** ** CQL schemas, read from the DDL text *)

Inductive cql_type := CqlInt | CqlText | CqlDouble.

Record schema := Schema {
  sc_name : string;
  sc_columns : list (string * cql_type);
  sc_partition_key : list string;
  sc_clustering_key : list string
}.

Inductive token :=
| TWord (s : string)
| TLParen
| TRParen
| TComma.

Definition is_blank (c : ascii) : bool :=
  match c with
  | " "%char | "009"%char | "010"%char | "013"%char => true
  | _ => false
  end.

Definition flush (cur : string) (acc : list token) : list token :=
  match cur with
  | EmptyString => acc
  | _ => acc ++ [TWord cur]
  end.

(** Words are maximal runs of non-blank characters other than parentheses
    and commas. *)
Fixpoint tokenize (s : string) (cur : string) (acc : list token) : list token :=
  match s with
  | EmptyString => flush cur acc
  | String c s' =>
      if is_blank c then tokenize s' "" (flush cur acc)
      else if Ascii.eqb c "("%char then tokenize s' "" (flush cur acc ++ [TLParen])
      else if Ascii.eqb c ")"%char then tokenize s' "" (flush cur acc ++ [TRParen])
      else if Ascii.eqb c ","%char then tokenize s' "" (flush cur acc ++ [TComma])
      else tokenize s' (cur +:+ String c "") acc
  end.

Definition cql_type_of (s : string) : option cql_type :=
  if String.eqb s "int" then Some CqlInt
  else if String.eqb s "text" then Some CqlText
  else if String.eqb s "double" then Some CqlDouble
  else None.

(** [name type ,]* up to the PRIMARY KEY clause. *)
Fixpoint parse_columns (ts : list token) (acc : list (string * cql_type))
  : option (list (string * cql_type) * list token) :=
  match ts with
  | TWord "PRIMARY" :: TWord "KEY" :: TLParen :: rest => Some (acc, rest)
  | TWord c :: TWord ty :: TComma :: rest =>
      match cql_type_of ty with
      | Some t => parse_columns rest (acc ++ [(c, t)])
      | None => None
      end
  | _ => None
  end.

(** [, name]* up to the closing parenthesis, which is consumed. *)
Fixpoint parse_names (ts : list token) (acc : list string)
  : option (list string * list token) :=
  match ts with
  | TRParen :: rest => Some (acc, rest)
  | TComma :: TWord c :: rest => parse_names rest (acc ++ [c])
  | _ => None
  end.

(** The inside of PRIMARY KEY ( ... ): the first element is the partition
    key, a parenthesised group when it has several columns; the remaining
    columns are the clustering key. *)
Definition parse_primary_key (ts : list token)
  : option (list string * list string * list token) :=
  match ts with
  | TLParen :: TWord c :: rest =>
      match parse_names rest [c] with
      | Some (pk, rest') =>
          match parse_names rest' [] with
          | Some (ck, rest'') => Some (pk, ck, rest'')
          | None => None
          end
      | None => None
      end
  | TWord c :: rest =>
      match parse_names rest [] with
      | Some (ck, rest') => Some ([c], ck, rest')
      | None => None
      end
  | _ => None
  end.

Definition parse_table_body (name : string) (ts : list token) : option schema :=
  match parse_columns ts [] with
  | Some (cols, rest) =>
      match parse_primary_key rest with
      | Some (pk, ck, [TRParen]) =>
          if forallb (λ c, bool_decide (c ∈ cols.*1)) (pk ++ ck)
          then Some (Schema name cols pk ck) else None
      | _ => None
      end
  | None => None
  end.

(** CREATE TABLE [IF NOT EXISTS] name ( columns , PRIMARY KEY ( key ) ) *)
Definition parse_create_table (ddl : string) : option schema :=
  match tokenize ddl "" [] with
  | TWord "CREATE" :: TWord "TABLE" :: TWord "IF" :: TWord "NOT"
      :: TWord "EXISTS" :: TWord name :: TLParen :: rest =>
      parse_table_body name rest
  | TWord "CREATE" :: TWord "TABLE" :: TWord name :: TLParen :: rest =>
      parse_table_body name rest
  | _ => None
  end.


(** ** The keyspace *)

Definition new_datafile : string := "event_datafile_new.csv".

Definition int32 (z : Z) : bool := (-2147483648 <=? z) && (z <=? 2147483647).

Section Pipeline.
(** Python's builtin conversions [int()] and [float()] are taken as they
    are: partial functions of the text, [None] standing for ValueError.
    [double] is the type of Python floats. *)
Context {double : Type}.
Variable int : string → option Z.
Variable float : string → option double.

Inductive value :=
| VInt (z : Z)
| VText (s : string)
| VDouble (d : double).

(** A row of a result set: a named tuple. *)
Definition named_row : Type := list (string * value).

(** The four tables, each with the key structure of its PRIMARY KEY clause:
    partition key, clustering key, remaining columns. *)
Record tables := Tables {
  (* PRIMARY KEY (session_id, item_in_session); artist, song, length *)
  artist_song_session : gmap Z (list (Z * (string * string * double)));
  (* PRIMARY KEY ((user_id, session_id), item_in_session);
     artist, song, first_name, last_name *)
  song_playlist_session :
    gmap (Z * Z) (list (Z * (string * string * string * string)));
  (* PRIMARY KEY (song, user_id); first_name, last_name *)
  user_song : gmap string (list (Z * (string * string)));
  (* PRIMARY KEY (user_id, session_id, item_in_session);
     artist, song, first_name, last_name *)
  question_2 : gmap Z (list ((Z * Z) * (string * string * string * string)))
}.

(** The keyspace [sparkify]: the catalog of the tables that exist, by name,
    and their rows. *)
Record keyspace := Keyspace {
  ks_catalog : gmap string schema;
  ks_tables : tables
}.

Definition empty_keyspace : keyspace := Keyspace ∅ (Tables ∅ ∅ ∅ ∅).

(** ** The statements the notebook sends *)

Inductive statement :=
| CreateKeyspace
| CreateTable (ddl : string)
| InsertArtistSongSession (session_id item_in_session : Z)
    (artist song : string) (length : double)
| InsertSongPlaylistSession (user_id session_id item_in_session : Z)
    (artist song first_name last_name : string)
| InsertUserSong (song : string) (user_id : Z) (first_name last_name : string)
| InsertQuestion2 (artist song : string)
    (session_id item_in_session user_id : Z) (first_name last_name : string)
| SelectArtistSongSession
| SelectSongPlaylistSession
| SelectUserSong
| SelectUserSongWithId
| SelectQuestion2
| DropTable (name : string).

(** The first argument of [session.execute]. *)
Definition query_text (q : statement) : string :=
  match q with
  | CreateKeyspace =>
      "CREATE KEYSPACE IF NOT EXISTS sparkify         WITH REPLICATION = {'class': 'SimpleStrategy', 'replication_factor': 1}"
  | CreateTable ddl => ddl
  | InsertArtistSongSession _ _ _ _ _ =>
      "INSERT INTO artist_song_session (session_id, item_in_session, artist, song, length)"
      +:+ " VALUES (%s, %s, %s, %s, %s)"
  | InsertSongPlaylistSession _ _ _ _ _ _ _ =>
      "INSERT INTO song_playlist_session (user_id, session_id, item_in_session, artist, song,                 first_name, last_name)"
      +:+ " VALUES (%s, %s, %s, %s, %s, %s, %s)"
  | InsertUserSong _ _ _ _ =>
      "INSERT INTO user_song (song, user_id, first_name, last_name)"
      +:+ " VALUES (%s, %s, %s, %s)"
  | InsertQuestion2 _ _ _ _ _ _ _ =>
      "INSERT INTO question_2 (artist, song, session_id, item_in_session, user_id, first_name, last_name)"
      +:+ " VALUES (%s, %s, %s, %s, %s, %s, %s)"
  | SelectArtistSongSession =>
      "SELECT artist, song, length FROM artist_song_session WHERE session_id=338 and item_in_session=4"
  | SelectSongPlaylistSession =>
      "SELECT item_in_session, artist, song, first_name, last_name FROM song_playlist_session WHERE user_id=10 and session_id=182"
  | SelectUserSong =>
      "SELECT first_name, last_name FROM user_song WHERE song='All Hands Against His Own'"
  | SelectUserSongWithId =>
      "SELECT user_id, first_name, last_name FROM user_song WHERE song='All Hands Against His Own'"
  | SelectQuestion2 =>
      "SELECT * FROM question_2 WHERE user_id=10 and session_id=182"
  | DropTable name => "drop table " +:+ name
  end.

(** The second argument of [session.execute]: [None] when the call passes
    the query alone. *)
Definition query_params (q : statement) : option (list value) :=
  match q with
  | InsertArtistSongSession sid item artist song len =>
      Some [VInt sid; VInt item; VText artist; VText song; VDouble len]
  | InsertSongPlaylistSession uid sid item artist song first last =>
      Some [VInt uid; VInt sid; VInt item; VText artist; VText song;
            VText first; VText last]
  | InsertUserSong song uid first last =>
      Some [VText song; VInt uid; VText first; VText last]
  | InsertQuestion2 artist song sid item uid first last =>
      Some [VText artist; VText song; VInt sid; VInt item; VInt uid;
            VText first; VText last]
  | _ => None
  end.

Definition is_insert (q : statement) : bool :=
  match q with
  | InsertArtistSongSession _ _ _ _ _ | InsertSongPlaylistSession _ _ _ _ _ _ _
  | InsertUserSong _ _ _ _ | InsertQuestion2 _ _ _ _ _ _ _ => true
  | _ => false
  end.

Definition is_create_table (q : statement) : bool :=
  match q with CreateTable _ => true | _ => false end.

Definition is_select (q : statement) : bool :=
  match q with
  | SelectArtistSongSession | SelectSongPlaylistSession | SelectUserSong
  | SelectUserSongWithId | SelectQuestion2 => true
  | _ => false
  end.

(** ** What the store does with a statement *)

Definition table_exists (name : string) (ks : keyspace) : bool :=
  bool_decide (is_Some (ks_catalog ks !! name)).

(** The table an INSERT or a SELECT names. *)
Definition table_of (q : statement) : string :=
  match q with
  | InsertArtistSongSession _ _ _ _ _ | SelectArtistSongSession =>
      "artist_song_session"
  | InsertSongPlaylistSession _ _ _ _ _ _ _ | SelectSongPlaylistSession =>
      "song_playlist_session"
  | InsertUserSong _ _ _ _ | SelectUserSong | SelectUserSongWithId =>
      "user_song"
  | InsertQuestion2 _ _ _ _ _ _ _ | SelectQuestion2 => "question_2"
  | _ => ""
  end.

(** Dropping a table removes its rows with it. *)
Definition drop_rows (name : string) (t : tables) : tables :=
  Tables
    (if String.eqb name "artist_song_session" then ∅
     else artist_song_session t)
    (if String.eqb name "song_playlist_session" then ∅
     else song_playlist_session t)
    (if String.eqb name "user_song" then ∅ else user_song t)
    (if String.eqb name "question_2" then ∅ else question_2 t).

(** The effect of an accepted INSERT on the rows. *)
Definition insert_row (q : statement) (t : tables) : tables :=
  match q with
  | InsertArtistSongSession sid item artist song len =>
      Tables
        (table_insert sid item (artist, song, len) (artist_song_session t))
        (song_playlist_session t) (user_song t) (question_2 t)
  | InsertSongPlaylistSession uid sid item artist song first last =>
      Tables (artist_song_session t)
        (table_insert (uid, sid) item (artist, song, first, last)
           (song_playlist_session t))
        (user_song t) (question_2 t)
  | InsertUserSong song uid first last =>
      Tables (artist_song_session t) (song_playlist_session t)
        (table_insert song uid (first, last) (user_song t))
        (question_2 t)
  | InsertQuestion2 artist song sid item uid first last =>
      Tables (artist_song_session t) (song_playlist_session t) (user_song t)
        (table_insert uid (sid, item) (artist, song, first, last)
           (question_2 t))
  | _ => t
  end.

(** The values of an INSERT fit its columns: an int value fits the 32-bit
    int type, and a partition key made of a single text column is not the
    empty string. *)
Definition valid (q : statement) : bool :=
  match q with
  | InsertArtistSongSession sid item _ _ _ => int32 sid && int32 item
  | InsertSongPlaylistSession uid sid item _ _ _ _ =>
      int32 uid && int32 sid && int32 item
  | InsertUserSong song uid _ _ => negb (String.eqb song "") && int32 uid
  | InsertQuestion2 _ _ sid item uid _ _ =>
      int32 sid && int32 item && int32 uid
  | _ => false
  end.

(** An INSERT is accepted when its table exists and its values are valid. *)
Definition accepts (q : statement) (ks : keyspace) : bool :=
  table_exists (table_of q) ks && valid q.

(** The rows a SELECT returns, in the order the store yields them: the
    partition named by the WHERE clause is read in clustering order. *)
Definition select_rows (q : statement) (t : tables) : list named_row :=
  match q with
  | SelectArtistSongSession =>
      (* WHERE session_id=338 and item_in_session=4 *)
      (λ '(item, (artist, song, len)),
         [("artist", VText artist); ("song", VText song);
          ("length", VDouble len)])
      <$> filter (λ r, r.1 = 4) (table_partition 338 (artist_song_session t))
  | SelectSongPlaylistSession =>
      (* WHERE user_id=10 and session_id=182 *)
      (λ '(item, (artist, song, first, last)),
         [("item_in_session", VInt item); ("artist", VText artist);
          ("song", VText song); ("first_name", VText first);
          ("last_name", VText last)])
      <$> table_partition (10, 182) (song_playlist_session t)
  | SelectUserSong =>
      (* WHERE song='All Hands Against His Own' *)
      (λ '(uid, (first, last)),
         [("first_name", VText first); ("last_name", VText last)])
      <$> table_partition "All Hands Against His Own" (user_song t)
  | SelectUserSongWithId =>
      (λ '(uid, (first, last)),
         [("user_id", VInt uid); ("first_name", VText first);
          ("last_name", VText last)])
      <$> table_partition "All Hands Against His Own" (user_song t)
  | SelectQuestion2 =>
      (* WHERE user_id=10 and session_id=182: the partition of user 10,
         restricted to the clustering prefix session_id=182 *)
      (λ '((sid, item), (artist, song, first, last)),
         [("user_id", VInt 10); ("session_id", VInt sid);
          ("item_in_session", VInt item); ("artist", VText artist);
          ("first_name", VText first); ("last_name", VText last);
          ("song", VText song)])
      <$> filter (λ r, r.1.1 = 182) (table_partition 10 (question_2 t))
  | _ => []
  end.

(** CREATE TABLE IF NOT EXISTS: a table that exists is left as it is. *)
Definition create_table (sc : schema) (ks : keyspace) : keyspace :=
  if table_exists (sc_name sc) ks then ks
  else Keyspace (<[sc_name sc := sc]> (ks_catalog ks)) (ks_tables ks).

(** One round trip: the result set or the error, and the keyspace after. *)
Definition exec (q : statement) (ks : keyspace)
  : result (list named_row) * keyspace :=
  match q with
  | CreateKeyspace => (Ok [], ks)
  | CreateTable ddl =>
      match parse_create_table ddl with
      | Some sc => (Ok [], create_table sc ks)
      | None => (Raise InvalidRequest, ks)
      end
  | DropTable name =>
      if table_exists name ks
      then (Ok [],
            Keyspace (delete name (ks_catalog ks))
              (drop_rows name (ks_tables ks)))
      else (Raise InvalidRequest, ks)
  | SelectArtistSongSession | SelectSongPlaylistSession | SelectUserSong
  | SelectUserSongWithId | SelectQuestion2 =>
      if table_exists (table_of q) ks
      then (Ok (select_rows q (ks_tables ks)), ks)
      else (Raise InvalidRequest, ks)
  | _ =>
      if accepts q ks
      then (Ok [], Keyspace (ks_catalog ks) (insert_row q (ks_tables ks)))
      else (Raise InvalidRequest, ks)
  end.

(** The primary key an INSERT writes. *)
Inductive primary_key :=
| KeyArtistSongSession (session_id item_in_session : Z)
| KeySongPlaylistSession (user_id session_id item_in_session : Z)
| KeyUserSong (song : string) (user_id : Z)
| KeyQuestion2 (user_id session_id item_in_session : Z).

Definition primary_key_of (q : statement) : option primary_key :=
  match q with
  | InsertArtistSongSession sid item _ _ _ => Some (KeyArtistSongSession sid item)
  | InsertSongPlaylistSession uid sid item _ _ _ _ =>
      Some (KeySongPlaylistSession uid sid item)
  | InsertUserSong song uid _ _ => Some (KeyUserSong song uid)
  | InsertQuestion2 _ _ sid item uid _ _ => Some (KeyQuestion2 uid sid item)
  | _ => None
  end.

#[local] Instance primary_key_eq_dec : EqDecision primary_key.
Proof. solve_decision. Defined.

(** Every partition of every table is in clustering order. *)
Definition tables_wf (t : tables) : Prop :=
  table_wf (artist_song_session t) ∧ table_wf (song_playlist_session t)
  ∧ table_wf (user_song t) ∧ table_wf (question_2 t).

(** ** The notebook's state *)

Inductive event :=
| FileOpen (path : string)
| FileClose (path : string)
| ClusterConnect
| SetKeyspace (name : string)
| SessionShutdown
| ClusterShutdown
| Execute (q : statement).

(** The file system, the keyspace behind the session, the notebook globals
    [full_data_rows_list] and [rows], and the trace of what the run did to
    files and to the cluster, oldest event first. *)
Record world := World {
  w_fs : gmap string (list row);
  w_ks : keyspace;
  w_full_data_rows_list : list row;
  w_rows : option (list named_row);
  w_trace : list event
}.

Definition M (A : Type) : Type := world → result A * world.

#[local] Instance M_ret : MRet M := λ A a w, (Ok a, w).
#[local] Instance M_bind : MBind M := λ A B k m w,
  match m w with
  | (Ok a, w') => k a w'
  | (Raise e, w') => (Raise e, w')
  end.

#[local] Instance result_ret : MRet result := λ A a, Ok a.
#[local] Instance result_bind : MBind result := λ A B k m,
  match m with
  | Ok a => k a
  | Raise e => Raise e
  end.

Definition raise {A} (e : exn) : M A := λ w, (Raise e, w).

Definition lift {A} (r : result A) : M A := λ w, (r, w).

Definition emit (e : event) : M unit := λ w,
  (Ok tt, World (w_fs w) (w_ks w) (w_full_data_rows_list w) (w_rows w)
            (w_trace w ++ [e])).

(** [try: m  except Exception as e: print(e)] *)
Definition try_print (m : M unit) : M unit := λ w, (Ok tt, (m w).2).

(** [m] followed by [fin] whether [m] raised or not. *)
Definition finally {A} (m : M A) (fin : M unit) : M A := λ w,
  let '(r, w') := m w in (r, (fin w').2).

Fixpoint for_each {A} (xs : list A) (body : A → M unit) : M unit :=
  match xs with
  | [] => mret tt
  | x :: xs' => body x ;; for_each xs' body
  end.

(** [open(path, 'r')]: the records a csv.reader over the file yields. *)
Definition open_read (path : string) : M (list row) := λ w,
  match w_fs w !! path with
  | Some rs => (Ok rs, (emit (FileOpen path) w).2)
  | None => (Raise FileNotFoundError, w)
  end.

(** [open(path, 'w')]: the file is created or truncated. *)
Definition open_write (path : string) : M unit := λ w,
  emit (FileOpen path)
    (World (<[path := []]> (w_fs w)) (w_ks w) (w_full_data_rows_list w)
       (w_rows w) (w_trace w)).

Definition close (path : string) : M unit := emit (FileClose path).

(** [with open(path, 'r') as f: csvreader = csv.reader(f); body] *)
Definition with_open_read {A} (path : string) (body : list row → M A) : M A :=
  csvreader ← open_read path; finally (body csvreader) (close path).

(** [with open(path, 'w') as f: body] *)
Definition with_open_write {A} (path : string) (body : M A) : M A :=
  open_write path ;; finally body (close path).

(** [writer.writerow(r)] *)
Definition writerow (path : string) (r : row) : M unit := λ w,
  (Ok tt, World (alter (λ rs : list row, rs ++ [r]) path (w_fs w)) (w_ks w)
            (w_full_data_rows_list w) (w_rows w) (w_trace w)).

(** [next(csvreader)]: the first record and the reader past it. *)
Definition next (csvreader : list row) : result (row * list row) :=
  match csvreader with
  | [] => Raise StopIteration
  | r :: rest => Ok (r, rest)
  end.

(** [r[i]] *)
Definition index (r : row) (i : nat) : result string :=
  match r !! i with
  | Some x => Ok x
  | None => Raise IndexError
  end.

(** [int(s)] and [float(s)] *)
Definition to_int (s : string) : result Z :=
  match int s with
  | Some z => Ok z
  | None => Raise ValueError
  end.

Definition to_float (s : string) : result double :=
  match float s with
  | Some d => Ok d
  | None => Raise ValueError
  end.

(** [row.name] on a result row *)
Definition getattr (r : named_row) (name : string) : result value :=
  match list_find (λ c, c.1 = name) r with
  | Some (_, c) => Ok c.2
  | None => Raise AttributeError
  end.

(** [session.execute(query, params)] *)
Definition session_execute (q : statement) : M (list named_row) := λ w,
  let '(r, ks') := exec q (w_ks w) in
  (r, World (w_fs w) ks' (w_full_data_rows_list w) (w_rows w)
        (w_trace w ++ [Execute q])).

(** ** The cells *)

Definition header : row :=
  ["artist"; "firstName"; "gender"; "itemInSession"; "lastName"; "length";
   "level"; "location"; "sessionId"; "song"; "userId"].

(** The columns of an event record kept in the new file. *)
Definition kept_columns : list nat :=
  [0; 2; 3; 4; 5; 6; 7; 8; 12; 13; 16]%nat.

Definition set_full_data_rows_list (l : list row) : M unit := λ w,
  (Ok tt, World (w_fs w) (w_ks w) l (w_rows w) (w_trace w)).

Definition get_full_data_rows_list : M (list row) := λ w,
  (Ok (w_full_data_rows_list w), w).

(** [full_data_rows_list.append(line)] *)
Definition append_line (line : row) : M unit := λ w,
  (Ok tt, World (w_fs w) (w_ks w) (w_full_data_rows_list w ++ [line])
            (w_rows w) (w_trace w)).

(** The first half of the extract cell: every file of [file_path_list] is
    read past its header line into [full_data_rows_list]. *)
Definition read_event_files (file_path_list : list string) : M unit :=
  set_full_data_rows_list [] ;;
  for_each file_path_list (λ f,
    with_open_read f (λ csvreader,
      '(_, csvreader) ← lift (next csvreader);
      for_each csvreader append_line)).

(** The tuple [(row[0], row[2], ..., row[16])], built left to right. *)
Definition project (r : row) : result row := mapM (index r) kept_columns.

(** The body of the write loop: records without artist are skipped. *)
Definition write_event (r : row) : M unit :=
  artist ← lift (index r 0);
  if String.eqb artist "" then mret tt
  else fields ← lift (project r); writerow new_datafile fields.

(** The second half of the extract cell. *)
Definition write_new_datafile : M unit :=
  with_open_write new_datafile (
    writerow new_datafile header ;;
    rows ← get_full_data_rows_list;
    for_each rows write_event).

Definition extract_cell (file_path_list : list string) : M unit :=
  read_event_files file_path_list ;; write_new_datafile.

(** The cell that counts the lines of the new file. *)
Definition count_cell : M unit :=
  with_open_read new_datafile (λ _, mret tt).

(** [cluster = Cluster(); session = cluster.connect()] *)
Definition connect_cell : M unit := emit ClusterConnect.

Definition keyspace_cell : M unit :=
  try_print (session_execute CreateKeyspace ;; mret tt).

(** [session.set_keyspace('sparkify')], under try/except. *)
Definition set_keyspace_cell : M unit :=
  try_print (emit (SetKeyspace "sparkify")).

Definition create_table_cell (ddl : string) : M unit :=
  try_print (session_execute (CreateTable ddl) ;; mret tt).

Definition ddl_artist_song_session : string :=
  "CREATE TABLE IF NOT EXISTS artist_song_session "
  +:+ "(session_id int, item_in_session int, artist text, song text, length double, PRIMARY KEY (session_id, item_in_session))".

Definition ddl_song_playlist_session : string :=
  "CREATE TABLE IF NOT EXISTS song_playlist_session "
  +:+ "(user_id int, session_id int, item_in_session int, artist text, song text, first_name text, last_name text, PRIMARY KEY ((user_id, session_id), item_in_session))".

Definition ddl_user_song : string :=
  "CREATE TABLE IF NOT EXISTS user_song "
  +:+ "(song text, user_id int, first_name text, last_name text, PRIMARY KEY (song, user_id))".

Definition ddl_question_2 : string :=
  "CREATE TABLE IF NOT EXISTS question_2 "
  +:+ "(artist text, song text, session_id int, item_in_session int, user_id int, first_name text, last_name text, PRIMARY KEY (user_id, session_id, item_in_session))".

(** The parameter tuples of the four insert loops, evaluated left to
    right. *)
Definition insert_artist_song_session (line : row) : result statement :=
  session_id ← index line 8 ≫= to_int;
  item_in_session ← index line 3 ≫= to_int;
  artist ← index line 0;
  song ← index line 9;
  length ← index line 5 ≫= to_float;
  mret (InsertArtistSongSession session_id item_in_session artist song length).

Definition insert_song_playlist_session (line : row) : result statement :=
  user_id ← index line 10 ≫= to_int;
  session_id ← index line 8 ≫= to_int;
  item_in_session ← index line 3 ≫= to_int;
  artist ← index line 0;
  song ← index line 9;
  first_name ← index line 1;
  last_name ← index line 4;
  mret (InsertSongPlaylistSession user_id session_id item_in_session
          artist song first_name last_name).

Definition insert_user_song (line : row) : result statement :=
  song ← index line 9;
  user_id ← index line 10 ≫= to_int;
  first_name ← index line 1;
  last_name ← index line 4;
  mret (InsertUserSong song user_id first_name last_name).

Definition insert_question_2 (line : row) : result statement :=
  artist ← index line 0;
  song ← index line 9;
  session_id ← index line 8 ≫= to_int;
  item_in_session ← index line 3 ≫= to_int;
  user_id ← index line 10 ≫= to_int;
  first_name ← index line 1;
  last_name ← index line 4;
  mret (InsertQuestion2 artist song session_id item_in_session user_id
          first_name last_name).

(** An insert cell: the new file is read past its header and every record
    is sent as one INSERT. *)
Definition load_cell (insert : row → result statement) : M unit :=
  with_open_read new_datafile (λ csvreader,
    '(_, csvreader) ← lift (next csvreader);
    for_each csvreader (λ line,
      q ← lift (insert line); session_execute q ;; mret tt)).

Definition set_rows (rs : list named_row) : M unit := λ w,
  (Ok tt, World (w_fs w) (w_ks w) (w_full_data_rows_list w) (Some rs)
            (w_trace w)).

Definition get_rows : M (list named_row) := λ w,
  match w_rows w with
  | Some rs => (Ok rs, w)
  | None => (Raise NameError, w)
  end.

(** A query cell: the SELECT is run under try/except, then the fields
    [columns] of every row of [rows] make one line of the printed table. *)
Definition query_cell (q : statement) (columns : list string)
  : M (list (list value)) :=
  try_print (rs ← session_execute q; set_rows rs) ;;
  rows ← get_rows;
  lift (mapM (λ r, mapM (getattr r) columns) rows).

Definition query_1 : M (list (list value)) :=
  query_cell SelectArtistSongSession ["artist"; "song"; "length"].

Definition query_2 : M (list (list value)) :=
  query_cell SelectSongPlaylistSession
    ["artist"; "song"; "item_in_session"; "first_name"; "last_name"].

Definition query_3 : M (list (list value)) :=
  query_cell SelectUserSong ["first_name"; "last_name"].

(** The query cells as the README lists them. *)
Definition query_3_readme : M (list (list value)) :=
  query_cell SelectUserSongWithId ["user_id"; "first_name"; "last_name"].

(** Query 2 of the first version of the notebook, on [question_2]. *)
Definition query_question_2 : M (list (list value)) :=
  query_cell SelectQuestion2
    ["artist"; "song"; "item_in_session"; "first_name"; "last_name"].

Definition drop_cell : M unit :=
  for_each ["artist_song_session"; "song_playlist_session"; "user_song"]
    (λ table, try_print (session_execute (DropTable table) ;; mret tt)).

Definition shutdown_cell : M unit :=
  emit SessionShutdown ;; emit ClusterShutdown.

(** The transform phase: the three CREATE TABLE cells, each followed by its
    insert loop. *)
Definition transform : M unit :=
  create_table_cell ddl_artist_song_session ;;
  load_cell insert_artist_song_session ;;
  create_table_cell ddl_song_playlist_session ;;
  load_cell insert_song_playlist_session ;;
  create_table_cell ddl_user_song ;;
  load_cell insert_user_song.

(** The notebook run from top to bottom; the run stops at the first cell
    that raises. *)
Definition run_all (file_path_list : list string) : M unit :=
  extract_cell file_path_list ;;
  count_cell ;;
  connect_cell ;;
  keyspace_cell ;;
  set_keyspace_cell ;;
  transform ;;
  query_1 ;; query_2 ;; query_3 ;;
  drop_cell ;;
  shutdown_cell.

(** The first version of the notebook, for its second question. *)
Definition transform_question_2 : M unit :=
  create_table_cell ddl_question_2 ;;
  load_cell insert_question_2.

(** The same two cells of the final version. *)
Definition transform_song_playlist_session : M unit :=
  create_table_cell ddl_song_playlist_session ;;
  load_cell insert_song_playlist_session.

(** ** Resources held by a run *)

(** The files and cluster connections open at a point of a run, and how
    many times so far a connection was opened and shut down. *)
Record resources := Resources {
  open_files : nat;
  connections : nat;
  connects : nat;
  shutdowns : nat
}.

Definition observe (r : resources) (e : event) : resources :=
  match e with
  | FileOpen _ =>
      Resources (S (open_files r)) (connections r) (connects r) (shutdowns r)
  | FileClose _ =>
      Resources (pred (open_files r)) (connections r) (connects r)
        (shutdowns r)
  | ClusterConnect =>
      Resources (open_files r) (S (connections r)) (S (connects r))
        (shutdowns r)
  | ClusterShutdown =>
      Resources (open_files r) (pred (connections r)) (connects r)
        (S (shutdowns r))
  | SetKeyspace _ | SessionShutdown | Execute _ => r
  end.

Definition resources_after (tr : list event) : resources :=
  foldl observe (Resources 0 0 0 0) tr.

Definition within_bounds (r : resources) : Prop :=
  (open_files r ≤ 1)%nat ∧ (connections r ≤ 1)%nat.

(** The world a run starts from: the files on disk and the keyspace as
    earlier runs left it; nothing bound, nothing open. *)
Definition initial_world (fs : gmap string (list row)) (ks : keyspace)
  : world := World fs ks [] None [].

(** The statements sent, in order. *)
Definition executed (tr : list event) : list statement :=
  omap (λ e, match e with Execute q => Some q | _ => None end) tr.

(** ** The extract phase as the specification words it *)

(** The projection of an event record to the kept columns. *)
Definition keep (r : row) : row := (λ i, default "" (r !! i)) <$> kept_columns.

Definition has_artist (r : row) : bool :=
  negb (String.eqb (default "" (r !! 0%nat)) "").

(** Header, then the projection of the records that have an artist. *)
Definition filter_and_project (rows : list row) : list row :=
  header :: (keep <$> List.filter has_artist rows).

(** ** The insert loops as functions of the file *)

(** The for loop of an insert cell over the records [lines], on a keyspace
    where the table exists or not: how the loop ends, the statements the
    store accepted, and the statements sent. *)
Fixpoint plan (insert : row → result statement) (table : bool)
    (lines : list row) : result unit * list statement * list statement :=
  match lines with
  | [] => (Ok tt, [], [])
  | line :: rest =>
      match insert line with
      | Raise e => (Raise e, [], [])
      | Ok q =>
          if table && valid q
          then let '(r, accepted, sent) := plan insert table rest in
               (r, q :: accepted, q :: sent)
          else (Raise InvalidRequest, [], [q])
      end
  end.

(** What an insert cell does to the world. *)
Definition load_outcome (insert : row → result statement) (table : string)
    (w : world) : result unit * world :=
  match w_fs w !! new_datafile with
  | None => (Raise FileNotFoundError, w)
  | Some [] =>
      (Raise StopIteration,
       World (w_fs w) (w_ks w) (w_full_data_rows_list w) (w_rows w)
         (w_trace w ++ [FileOpen new_datafile; FileClose new_datafile]))
  | Some (_ :: lines) =>
      let p := plan insert (table_exists table (w_ks w)) lines in
      (p.1.1,
       World (w_fs w)
         (Keyspace (ks_catalog (w_ks w))
            (foldl (flip insert_row) (ks_tables (w_ks w)) p.1.2))
         (w_full_data_rows_list w) (w_rows w)
         (w_trace w ++ FileOpen new_datafile :: (Execute <$> p.2)
            ++ [FileClose new_datafile]))
  end.

(** [insert] builds INSERT statements into [table]. *)
Definition inserts_into (insert : row → result statement) (table : string)
  : Prop :=
  ∀ line q, insert line = Ok q → is_insert q = true ∧ table_of q = table.

(** A record the loop of [insert] gets through: the tuple is built and the
    store takes the values. *)
Definition row_ok (insert : row → result statement) (line : row) : bool :=
  match insert line with
  | Ok q => valid q
  | Raise _ => false
  end.

(** The three insert loops of the notebook, with their tables. *)
Definition loaders : list ((row → result statement) * string) :=
  [(insert_artist_song_session, "artist_song_session");
   (insert_song_playlist_session, "song_playlist_session");
   (insert_user_song, "user_song")].

(** The three insert loops, run one after the other. *)
Definition load_phase : M unit :=
  load_cell insert_artist_song_session ;;
  load_cell insert_song_playlist_session ;;
  load_cell insert_user_song.

(** ** Properties of runs *)

(** From a world where [P] holds, [m] ends in a world where [Q] holds if it
    returns and where [E] holds if it raises. *)
Definition triple {A} (P : world → Prop) (m : M A)
    (Q : A → world → Prop) (E : world → Prop) : Prop :=
  ∀ w, P w →
    match m w with
    | (Ok a, w') => Q a w'
    | (Raise _, w') => E w'
    end.

(** No prefix of the trace holds more than the bounds allow. *)
Definition safe (tr : list event) : Prop :=
  ∀ p, p `prefix_of` tr → within_bounds (resources_after p).

(** The trace is safe so far and has led to the resources [r]. *)
Definition holding (r : resources) (w : world) : Prop :=
  safe (w_trace w) ∧ resources_after (w_trace w) = r.

(** ** Query texts *)

(** [contains s sub]: [sub] occurs in [s]. *)
Fixpoint contains (s sub : string) : bool :=
  String.prefix sub s
  || match s with
     | EmptyString => false
     | String _ s' => contains s' sub
     end.

(** The number of [%s] placeholders of a query text. *)
Fixpoint placeholders (s : string) : nat :=
  match s with
  | EmptyString => 0%nat
  | String c s' =>
      if String.prefix "%s" s then S (placeholders s') else placeholders s'
  end.

(** ** Notions used in the statements *)

(** [m] keeps [P] true of the keyspace, however it ends. *)
Definition keeps (P : keyspace → Prop) {A} (m : M A) : Prop :=
  triple (λ w, P (w_ks w)) m (λ _ w, P (w_ks w)) (λ w, P (w_ks w)).

(** The lines the query cells print, as functions of the tables. *)
Definition answer_1 (t : tables) : list (list value) :=
  (λ '(item, (artist, song, len)), [VText artist; VText song; VDouble len])
  <$> filter (λ r, r.1 = 4) (table_partition 338 (artist_song_session t)).

Definition answer_2 (t : tables) : list (list value) :=
  (λ '(item, (artist, song, first, last)),
     [VText artist; VText song; VInt item; VText first; VText last])
  <$> table_partition (10, 182) (song_playlist_session t).

Definition answer_3 (t : tables) : list (list value) :=
  (λ '(uid, (first, last)), [VText first; VText last])
  <$> table_partition "All Hands Against His Own" (user_song t).

Definition answer_3_readme (t : tables) : list (list value) :=
  (λ '(uid, (first, last)), [VInt uid; VText first; VText last])
  <$> table_partition "All Hands Against His Own" (user_song t).

Definition answer_question_2 (t : tables) : list (list value) :=
  (λ '((sid, item), (artist, song, first, last)),
     [VText artist; VText song; VInt item; VText first; VText last])
  <$> filter (λ r, r.1.1 = 182) (table_partition 10 (question_2 t)).

(** The item_in_session column of the lines query 2 prints. *)
Definition item_in_session_column (data : list (list value))
  : list (option value) := (λ r, r !! 2%nat) <$> data.

(** The user_id column of the lines the README's query 3 prints. *)
Definition user_id_column (data : list (list value)) : list (option value) :=
  (λ r, r !! 0%nat) <$> data.

(** The table shapes the source lists. *)
Definition schema_artist_song_session : schema :=
  Schema "artist_song_session"
    [("session_id", CqlInt); ("item_in_session", CqlInt); ("artist", CqlText);
     ("song", CqlText); ("length", CqlDouble)]
    ["session_id"] ["item_in_session"].

Definition schema_song_playlist_session : schema :=
  Schema "song_playlist_session"
    [("user_id", CqlInt); ("session_id", CqlInt); ("item_in_session", CqlInt);
     ("artist", CqlText); ("song", CqlText); ("first_name", CqlText);
     ("last_name", CqlText)]
    ["user_id"; "session_id"] ["item_in_session"].

Definition schema_user_song : schema :=
  Schema "user_song"
    [("song", CqlText); ("user_id", CqlInt); ("first_name", CqlText);
     ("last_name", CqlText)]
    ["song"] ["user_id"].

Definition schema_question_2 : schema :=
  Schema "question_2"
    [("artist", CqlText); ("song", CqlText); ("session_id", CqlInt);
     ("item_in_session", CqlInt); ("user_id", CqlInt); ("first_name", CqlText);
     ("last_name", CqlText)]
    ["user_id"] ["session_id"; "item_in_session"].

(** The catalog after CREATE TABLE IF NOT EXISTS. *)
Definition create_catalog (sc : schema) (c : gmap string schema)
  : gmap string schema :=
  match c !! sc_name sc with
  | Some _ => c
  | None => <[sc_name sc := sc]> c
  end.

(** A row of [question_2] seen as a row of [song_playlist_session]: the
    session moves from the clustering key to the partition key. *)
Definition by_session {V} (r : (Z * Z) * V) : Z * V := (r.1.2, r.2).

(** The rows of session [s] in a partition of [question_2]. *)
Definition session_slice {V} (s : Z) (p : list ((Z * Z) * V)) : list (Z * V) :=
  by_session <$> filter (λ r, r.1.1 = s) p.

(** [question_2] and [song_playlist_session] hold the same rows: every
    partition of the second is a session slice of the first, in the same
    order. *)
Definition same_rows (t tq : tables) : Prop :=
  ∀ u s,
    session_slice s (table_partition u (question_2 tq))
    = table_partition (u, s) (song_playlist_session t).

(** The INSERT of the final version that writes the row of an INSERT into
    [question_2]. *)
Definition as_song_playlist_session (q : statement) : statement :=
  match q with
  | InsertQuestion2 artist song sid item uid first last =>
      InsertSongPlaylistSession uid sid item artist song first last
  | _ => q
  end.

Definition is_insert_question_2 (q : statement) : Prop :=
  match q with InsertQuestion2 _ _ _ _ _ _ _ => True | _ => False end.

(** The accepted INSERTs of an insert cell run right after its CREATE TABLE
    cell. *)
Definition accepted_from (insert : row → result statement)
    (fs : gmap string (list row)) : list statement :=
  match fs !! new_datafile with
  | Some (_ :: lines) => (plan insert true lines).1.2
  | _ => []
  end.

(** No file open; [c] connections open, after [n] connects and [m]
    shutdowns. *)
Definition idle (c n m : nat) : resources := Resources 0 c n m.

(** The same with one file open. *)
Definition reading (c n m : nat) : resources := Resources 1 c n m.

(** [m] opens and closes nothing: it holds whatever is held. *)
Definition calm {A} (m : M A) : Prop :=
  ∀ r, triple (holding r) m (λ _, holding r) (holding r).

(** A cell that leaves no file open. *)
Definition tidy {A} (m : M A) : Prop :=
  ∀ c n m', (c ≤ 1)%nat →
    triple (holding (idle c n m')) m
      (λ _, holding (idle c n m')) (holding (idle c n m')).

(** How a run of the whole notebook can end: before the connection is
    made, with the connection open, or after the shutdown. *)
Definition stopped (w : world) : Prop :=
  holding (idle 0 0 0) w ∨ holding (idle 1 1 0) w.


(** ** The cell that lists the event files *)

(** A directory tree, each folder with its entries in the order the
    operating system lists them.  There are no symbolic links. *)
#[warnings="-register-all"] Inductive entry :=
| File (name : string)
| Folder (name : string) (entries : list entry).

Definition entry_name (e : entry) : string :=
  match e with File name | Folder name _ => name end.

Definition is_file (e : entry) : bool :=
  match e with File _ => true | Folder _ _ => false end.

Definition ends_with (c : ascii) (s : string) : bool :=
  match String.rev s with
  | String c' _ => Ascii.eqb c c'
  | EmptyString => false
  end.

(** [os.path.join(a, b)] *)
Definition path_join (a b : string) : string :=
  if String.prefix "/" b then b
  else if String.eqb a "" || ends_with "/" a then a +:+ b
  else a +:+ "/" +:+ b.

(** [os.walk(top)], top down: a directory with its listing, then the walk
    of each of its sub-directories in listing order.  Nothing is yielded for
    a path that is not a directory. *)
Fixpoint walk (top : string) (e : entry) : list (string * list entry) :=
  match e with
  | File _ => []
  | Folder _ entries =>
      (top, entries)
      :: flat_map (λ c, walk (path_join top (entry_name c)) c) entries
  end.

(** [glob.has_magic]: one of the characters [*], [?] and [[] occurs. *)
Definition is_magic (c : ascii) : bool :=
  Ascii.eqb c "*" || Ascii.eqb c "?" || Ascii.eqb c "[".

Fixpoint has_magic (s : string) : bool :=
  match s with
  | EmptyString => false
  | String c s' => is_magic c || has_magic s'
  end.

(** [p[:i], p[i:]] for [i = p.rfind('/') + 1]. *)
Fixpoint split_after_last_sep (p : string) : string * string :=
  match p with
  | EmptyString => (EmptyString, EmptyString)
  | String c p' =>
      let '(head, tail) := split_after_last_sep p' in
      match head with
      | EmptyString =>
          if Ascii.eqb c "/" then (String c EmptyString, tail)
          else (EmptyString, String c tail)
      | _ => (String c head, tail)
      end
  end.

(** [head == sep * len(head)] *)
Fixpoint all_seps (s : string) : bool :=
  match s with
  | EmptyString => true
  | String c s' => Ascii.eqb c "/" && all_seps s'
  end.

(** [head.rstrip(sep)] *)
Fixpoint rstrip_sep (s : string) : string :=
  match s with
  | EmptyString => EmptyString
  | String c s' =>
      match rstrip_sep s' with
      | EmptyString => if Ascii.eqb c "/" then EmptyString
                       else String c EmptyString
      | r => String c r
      end
  end.

(** [os.path.split(p)] *)
Definition path_split (p : string) : string * string :=
  let '(head, tail) := split_after_last_sep p in
  (if negb (String.eqb head "") && negb (all_seps head) then rstrip_sep head
   else head,
   tail).

(** [glob.glob] on a pattern whose directory part is empty or holds a
    metacharacter: the part is itself matched against the file system.
    What it returns is taken as it is. *)
Variable glob_elsewhere : string → list string.

(** A name the pattern [*] does not match: it starts with a dot. *)
Definition hidden (name : string) : bool := String.prefix "." name.

(** [glob.glob(os.path.join(root, '*'))], [entries] being the listing of
    the directory [root].  The pattern is split into its directory part
    and [*]; a directory part without metacharacter names one directory,
    that of [root], and every entry of it that is not hidden is returned,
    joined to the directory part. *)
Definition glob_star (root : string) (entries : list entry) : list string :=
  let pathname := path_join root "*" in
  let dirname := (path_split pathname).1 in
  if String.eqb dirname "" || has_magic dirname then glob_elsewhere pathname
  else
    path_join dirname
    <$> (entry_name
         <$> List.filter (λ c, negb (hidden (entry_name c))) entries).

(** [filepath = os.getcwd() + '/event_data'] *)
Definition filepath (cwd : string) : string := cwd +:+ "/event_data".

(** The loop of the cell: [file_path_list] is bound anew at every directory
    of the walk; [None] is the name left unbound.  [event_data] is what is
    found at [filepath], if anything. *)
Definition file_path_list_cell (filepath : string) (event_data : option entry)
  : option (list string) :=
  foldl (λ _ d, Some (glob_star d.1 d.2)) None
    (match event_data with
     | Some e => walk filepath e
     | None => []
     end).

(** ** The first version's insert into [question_1] *)

(** The parameter tuple
    [(line[0], line[9], float(line[5]), int(line[8]), int(line[3]))]. *)
Definition params_question_1 (line : row)
  : result (string * string * double * Z * Z) :=
  artist ← index line 0;
  song ← index line 9;
  length ← index line 5 ≫= to_float;
  session_id ← index line 8 ≫= to_int;
  item_in_session ← index line 3 ≫= to_int;
  mret (artist, song, length, session_id, item_in_session).

(** ** How the write loop of the extract cell gets through a record *)

(** [row[0]] is there, and a record with an artist has the columns the
    tuple reads. *)
Definition writable (r : row) : bool :=
  match r with
  | [] => false
  | artist :: _ => String.eqb artist "" || bool_decide (17 ≤ length r)%nat
  end.

(** The write loop as a function of the records: how it ends and the
    records it has written by then. *)
Fixpoint written (rows : list row) : result unit * list row :=
  match rows with
  | [] => (Ok tt, [])
  | r :: rest =>
      if writable r
      then let '(res, out) := written rest in
           (res, (if has_artist r then [keep r] else []) ++ out)
      else (Raise IndexError, [])
  end.

(** The read loop as a function of the files: how it ends, the records
    gathered by then, and the files opened and closed. *)
Fixpoint gathered (fs : gmap string (list row)) (paths : list string)
  : result unit * list row * list event :=
  match paths with
  | [] => (Ok tt, [], [])
  | f :: rest =>
      match fs !! f with
      | None => (Raise FileNotFoundError, [], [])
      | Some [] => (Raise StopIteration, [], [FileOpen f; FileClose f])
      | Some (_ :: lines) =>
          let '(res, rows, events) := gathered fs rest in
          (res, lines ++ rows, FileOpen f :: FileClose f :: events)
      end
  end.

(** What the extract cell does to the world. *)
Definition extract_outcome (paths : list string) (w : world)
  : result unit * world :=
  let '(res, rows, events) := gathered (w_fs w) paths in
  match res with
  | Raise e =>
      (Raise e, World (w_fs w) (w_ks w) rows (w_rows w) (w_trace w ++ events))
  | Ok _ =>
      ((written rows).1,
       World (<[new_datafile := header :: (written rows).2]> (w_fs w)) (w_ks w)
         rows (w_rows w)
         (w_trace w ++ events
            ++ [FileOpen new_datafile; FileClose new_datafile]))
  end.

(** ** Notions used in the further statements *)

(** The rows of every table but [table] are the same in [t] and [t']. *)
Definition same_but (table : string) (t t' : tables) : Prop :=
  (table ≠ "artist_song_session"
   → artist_song_session t' = artist_song_session t)
  ∧ (table ≠ "song_playlist_session"
     → song_playlist_session t' = song_playlist_session t)
  ∧ (table ≠ "user_song" → user_song t' = user_song t)
  ∧ (table ≠ "question_2" → question_2 t' = question_2 t).

(** [m] leaves every file as it is, however it ends. *)
Definition reads_only {A} (m : M A) : Prop :=
  ∀ w, w_fs (m w).2 = w_fs w.

(** DROP TABLE as the drop cell runs it, the error of the store only
    printed: a table that does not exist is left alone. *)
Definition drop_table (name : string) (ks : keyspace) : keyspace :=
  if table_exists name ks
  then Keyspace (delete name (ks_catalog ks)) (drop_rows name (ks_tables ks))
  else ks.

(** The new file is there, with a first line and 11 fields in every record
    after it. *)
Definition has_new_file (fs : gmap string (list row)) : Prop :=
  ∃ hdr lines,
    fs !! new_datafile = Some (hdr :: lines)
    ∧ Forall (λ line : row, length line = 11%nat) lines.

(** The cells after the connection is made. *)
Definition database_phase : M unit :=
  keyspace_cell ;;
  set_keyspace_cell ;;
  transform ;;
  query_1 ;; query_2 ;; query_3 ;;
  drop_cell ;;
  shutdown_cell.

(** The INSERT an insert loop builds from a record, when the tuple can be
    built. *)
Definition built (insert : row → result statement) (line : row)
  : option statement :=
  match insert line with
  | Ok q => Some q
  | Raise _ => None
  end.

(** How [m] ends, and the files it leaves, depend on the files alone. *)
Definition fs_determined (m : M unit) : Prop :=
  ∀ w w', w_fs w = w_fs w' →
    (m w).1 = (m w').1 ∧ w_fs (m w).2 = w_fs (m w').2.

(** A path that ends with a character other than the separator. *)
Fixpoint ends_plain (s : string) : bool :=
  match s with
  | EmptyString => false
  | String c EmptyString => negb (Ascii.eqb c "/")
  | String _ s' => ends_plain s'
  end.

(** A directory name that [glob] takes literally when it is part of a
    path: it does not end with the separator, as no name of a directory
    entry does, and holds no metacharacter. *)
Definition plain_name (name : string) : bool :=
  ends_plain name && negb (has_magic name).

(** Every folder below [e] has a plain name. *)
Fixpoint plain_folders (e : entry) : bool :=
  match e with
  | File _ => true
  | Folder _ entries =>
      forallb (λ c, (is_file c || plain_name (entry_name c)) && plain_folders c)
        entries
  end.

(** The paths [glob] lists for a directory it takes literally. *)
Definition listed (root : string) (entries : list entry) : list string :=
  path_join root
  <$> (entry_name <$> List.filter (λ c, negb (hidden (entry_name c))) entries).

(** The notebook from its first cell: the listing cell, then the cells of
    [run_all].  When the listing cell has bound nothing, the extract cell
    resets [full_data_rows_list] and its loop over [file_path_list] raises
    NameError. *)
Definition notebook (cwd : string) (event_data : option entry) : M unit :=
  match file_path_list_cell (filepath cwd) event_data with
  | Some file_path_list => run_all file_path_list
  | None => set_full_data_rows_list [] ;; raise NameError
  end.
(** ** Partitions: facts about [upsert] *)

#[local] Instance Z_clustering_laws : ClusteringLaws Z.
Proof.
  split; unfold ck_compare, Z_clustering.
  - apply Z.compare_eq_iff.
  - intros a b. apply Z.compare_antisym.
  - intros a b c. rewrite !Z.compare_lt_iff. lia.
Qed.

Lemma pair_compare {A B} `{Clustering A, Clustering B} (x y : A * B) :
  ck_compare x y
  = match ck_compare x.1 y.1 with Eq => ck_compare x.2 y.2 | c => c end.
Proof. reflexivity. Qed.

#[local] Instance pair_clustering_laws {A B} `{ClusteringLaws A, ClusteringLaws B} :
  ClusteringLaws (A * B).
Proof.
  split.
  - intros [a1 b1] [a2 b2]. rewrite pair_compare. cbn.
    destruct (ck_compare a1 a2) eqn:E.
    + apply ck_eq in E as ->. rewrite ck_eq. naive_solver.
    + split; [done|]. intros [= -> ->].
      assert (ck_compare a2 a2 = Eq) by by apply ck_eq. congruence.
    + split; [done|]. intros [= -> ->].
      assert (ck_compare a2 a2 = Eq) by by apply ck_eq. congruence.
  - intros [a1 b1] [a2 b2]. rewrite !pair_compare. cbn.
    rewrite (ck_antisym a1 a2). destruct (ck_compare a1 a2); cbn; [|done..].
    apply ck_antisym.
  - intros [a1 b1] [a2 b2] [a3 b3]. rewrite !pair_compare. cbn.
    destruct (ck_compare a1 a2) eqn:E12; [|intros _|done].
    + apply ck_eq in E12 as ->.
      destruct (ck_compare a2 a3) eqn:E23; [|done..].
      apply ck_trans.
    + destruct (ck_compare a2 a3) eqn:E23; [|intros _|done].
      * apply ck_eq in E23 as ->. by rewrite E12.
      * by rewrite (ck_trans _ _ _ E12 E23).
Qed.

Section Partition.
Context {CK V : Type} `{ClusteringLaws CK}.
Implicit Types (k : CK) (v : V) (p : list (CK * V)).

Lemma ck_refl k : ck_compare k k = Eq.
Proof. by apply ck_eq. Qed.

Lemma ck_gt_lt k k' : ck_compare k k' = Gt → ck_compare k' k = Lt.
Proof. intros E. by rewrite ck_antisym, E. Qed.

Lemma ck_lt_gt k k' : ck_compare k k' = Lt → ck_compare k' k = Gt.
Proof. intros E. by rewrite ck_antisym, E. Qed.

Lemma ck_lt_ne k k' : ck_compare k k' = Lt → k ≠ k'.
Proof. intros E ->. rewrite ck_refl in E. done. Qed.

Lemma Forall_upsert (P : CK * V → Prop) k v p :
  P (k, v) → Forall P p → Forall P (upsert k v p).
Proof.
  intros Hkv Hp. induction Hp as [|[k' v'] p Hx Hp IH]; cbn.
  - by constructor.
  - destruct (ck_compare k k'); repeat constructor; done.
Qed.

(** INSERT keeps a partition in clustering order. *)
Lemma ascending_upsert k v p : ascending p → ascending (upsert k v p).
Proof.
  unfold ascending. induction 1 as [|[k' v'] p Hp IH Hall]; cbn.
  - repeat constructor.
  - destruct (ck_compare k k') eqn:E.
    + apply ck_eq in E as ->. by constructor.
    + constructor; [by constructor|]. constructor; [done|].
      eapply Forall_impl; [exact Hall|]. cbn. intros [k'' ?] ?.
      by eapply ck_trans.
    + constructor; [done|]. apply Forall_upsert; [|done].
      cbn. by apply ck_gt_lt.
Qed.

(** The rows of a partition after an INSERT: the new row, and the old
    rows with another clustering key. *)
Lemma elem_of_upsert k v p k' v' :
  ascending p →
  (k', v') ∈ upsert k v p ↔ (k' = k ∧ v' = v) ∨ (k' ≠ k ∧ (k', v') ∈ p).
Proof.
  unfold ascending. induction 1 as [|[k0 v0] p Hp IH Hall]; cbn.
  - rewrite list_elem_of_singleton, elem_of_nil. split.
    + intros [= -> ->]. by left.
    + intros [[-> ->]|[_ []]]. done.
  - destruct (ck_compare k k0) eqn:E.
    + apply ck_eq in E as ->. rewrite !elem_of_cons.
      split.
      * intros [[= -> ->]|Hin]; [by left|]. right. split; [|by right].
        rewrite Forall_forall in Hall. apply Hall in Hin.
        intros ->. cbn in Hin. by rewrite ck_refl in Hin.
      * intros [[-> ->]|[Hne [[= -> ->]|Hin]]]; [by left|done|by right].
    + rewrite !elem_of_cons. split.
      * intros [[= -> ->]|[[= -> ->]|Hin]]; [by left|..].
        -- right. split; [|by left]. intros ->. by rewrite ck_refl in E.
        -- right. split; [|by right].
           rewrite Forall_forall in Hall. apply Hall in Hin. cbn in Hin.
           intros ->. pose proof (ck_trans _ _ _ E Hin) as E'.
           by rewrite ck_refl in E'.
      * intros [[-> ->]|[Hne [[= -> ->]|Hin]]]; [by left|right; by left|].
        right. by right.
    + rewrite !elem_of_cons, IH. split.
      * intros [[= -> ->]|[[-> ->]|[Hne Hin]]].
        -- right. split; [|by left]. intros ->. by rewrite ck_refl in E.
        -- by left.
        -- right. split; [done|by right].
      * intros [[-> ->]|[Hne [[= -> ->]|Hin]]].
        -- right. by left.
        -- by left.
        -- right. right. done.
Qed.

(** Clustering keys are unique inside a partition. *)
Lemma ascending_NoDup p : ascending p → NoDup p.*1.
Proof.
  unfold ascending. induction 1 as [|[k v] p Hp IH Hall]; cbn.
  - constructor.
  - constructor; [|done]. rewrite list_elem_of_fmap.
    intros [[k' v'] [-> Hin]]. rewrite Forall_forall in Hall.
    apply Hall in Hin. cbn in Hin. by rewrite ck_refl in Hin.
Qed.

Lemma ascending_functional p k v v' :
  ascending p → (k, v) ∈ p → (k, v') ∈ p → v = v'.
Proof.
  unfold ascending. induction 1 as [|[k0 v0] p Hp IH Hall].
  - by rewrite elem_of_nil.
  - rewrite Forall_forall in Hall. rewrite !elem_of_cons.
    intros [E1|H1] [E2|H2]; [congruence|..|by apply IH].
    + injection E1 as -> ->. apply Hall in H2. cbn in H2.
      by rewrite ck_refl in H2.
    + injection E2 as -> ->. apply Hall in H1. cbn in H1.
      by rewrite ck_refl in H1.
Qed.

(** A second INSERT on the same clustering key hides the first. *)
Lemma upsert_absorb k v v' p : upsert k v (upsert k v' p) = upsert k v p.
Proof.
  induction p as [|[k0 v0] p IH]; cbn.
  - by rewrite ck_refl.
  - destruct (ck_compare k k0) eqn:E; cbn.
    + by rewrite ck_refl.
    + by rewrite ck_refl.
    + by rewrite E, IH.
Qed.

(** Comparisons in the context as strict inequalities and equalities,
    then used to decide the comparisons of the goal. *)
Ltac ck_norm :=
  repeat match goal with
  | E : ck_compare _ _ = Eq |- _ => apply ck_eq in E; subst
  | E : ck_compare _ _ = Gt |- _ => apply ck_gt_lt in E
  end.

Ltac ck_rewrite :=
  repeat match goal with
  | E : ck_compare ?a ?b = Lt |- _ =>
      progress (rewrite ?E, ?(ck_lt_gt _ _ E))
  | |- _ => progress (rewrite ck_refl)
  end.

Ltac ck_absurd :=
  match goal with
  | E : ?a ≠ ?a |- _ => done
  | E : ck_compare ?a ?a = Lt |- _ => by rewrite ck_refl in E
  | E1 : ck_compare ?a ?b = Lt, E2 : ck_compare ?b ?a = Lt |- _ =>
      let E := fresh in
      pose proof (ck_trans _ _ _ E1 E2) as E; by rewrite ck_refl in E
  | E1 : ck_compare ?a ?b = Lt, E2 : ck_compare ?b ?c = Lt,
      E3 : ck_compare ?c ?a = Lt |- _ =>
      let E := fresh in
      pose proof (ck_trans _ _ _ (ck_trans _ _ _ E1 E2) E3) as E;
      by rewrite ck_refl in E
  end.

(** INSERTs on different clustering keys commute. *)
Lemma upsert_comm k1 v1 k2 v2 p :
  k1 ≠ k2 →
  upsert k1 v1 (upsert k2 v2 p) = upsert k2 v2 (upsert k1 v1 p).
Proof.
  intros Hne.
  induction p as [|[k0 v0] p IH]; cbn.
  - destruct (ck_compare k1 k2) eqn:E12; ck_norm; ck_rewrite;
      done || ck_absurd.
  - destruct (ck_compare k1 k0) eqn:E1; destruct (ck_compare k2 k0) eqn:E2;
      destruct (ck_compare k1 k2) eqn:E12; cbn; ck_norm; ck_rewrite;
      first [done | ck_absurd | by rewrite IH].
Qed.
End Partition.

(** ** Tables: facts about [table_insert] *)

Section TableFacts.
Context {PK : Type} `{Countable PK} {CK V : Type} `{ClusteringLaws CK}.
Implicit Types (t : gmap PK (list (CK * V))).

Lemma table_partition_insert pk ck v t pk' :
  table_partition pk' (table_insert pk ck v t)
  = if decide (pk = pk') then upsert ck v (table_partition pk t)
    else table_partition pk' t.
Proof.
  unfold table_insert, table_partition at 1. rewrite lookup_insert.
  by destruct (decide (pk = pk')).
Qed.

Lemma table_wf_empty : table_wf (∅ : gmap PK (list (CK * V))).
Proof.
  intros pk. unfold table_partition. rewrite lookup_empty. constructor.
Qed.

Lemma table_wf_insert pk ck v t : table_wf t → table_wf (table_insert pk ck v t).
Proof.
  intros Ht pk'. rewrite table_partition_insert.
  destruct (decide _); [by apply ascending_upsert|done].
Qed.

Lemma table_insert_absorb pk ck v v' t :
  table_insert pk ck v (table_insert pk ck v' t) = table_insert pk ck v t.
Proof.
  unfold table_insert at 1. rewrite table_partition_insert, decide_True by done.
  unfold table_insert. by rewrite insert_insert_eq, upsert_absorb.
Qed.

Lemma table_insert_comm pk1 ck1 v1 pk2 ck2 v2 t :
  (pk1, ck1) ≠ (pk2, ck2) →
  table_insert pk1 ck1 v1 (table_insert pk2 ck2 v2 t)
  = table_insert pk2 ck2 v2 (table_insert pk1 ck1 v1 t).
Proof.
  intros Hne. unfold table_insert at 1 3. rewrite !table_partition_insert.
  destruct (decide (pk2 = pk1)) as [->|Hpk].
  - rewrite decide_True by done. unfold table_insert.
    rewrite !insert_insert_eq. f_equal. apply upsert_comm. congruence.
  - rewrite decide_False by done. unfold table_insert.
    by rewrite insert_insert_ne.
Qed.

(** What a table stores after an INSERT. *)
Lemma stored_insert pk ck v t pk' ck' v' :
  table_wf t →
  stored pk' ck' v' (table_insert pk ck v t)
  ↔ (pk' = pk ∧ ck' = ck ∧ v' = v)
    ∨ ((pk', ck') ≠ (pk, ck) ∧ stored pk' ck' v' t).
Proof.
  intros Ht. unfold stored. rewrite table_partition_insert.
  destruct (decide (pk = pk')) as [<-|Hpk].
  - rewrite elem_of_upsert by apply Ht. split.
    + intros [[-> ->]|[Hne Hin]]; [by left|]. right. split; [congruence|done].
    + intros [(_ & -> & ->)|[Hne Hin]]; [by left|]. right.
      split; [congruence|done].
  - split; [intros Hin; right; split; [congruence|done]|].
    intros [(-> & _)|[_ Hin]]; done.
Qed.
End TableFacts.

(** ** Replaying a list of writes *)

Lemma replay_absorb {S X K} (f : X → S → S) (key : X → K) `{EqDecision K} :
  (∀ x y s, key x = key y → f x (f y s) = f x s) →
  (∀ x y s, key x ≠ key y → f x (f y s) = f y (f x s)) →
  ∀ x ys s, f x (foldl (flip f) (f x s) ys) = f x (foldl (flip f) s ys).
Proof.
  intros Habs Hcomm x ys. induction ys as [|y ys IH]; intros s; cbn.
  - by apply Habs.
  - destruct (decide (key y = key x)) as [E|E].
    + by rewrite (Habs y x).
    + by rewrite (Hcomm y x), IH.
Qed.

(** Writes that replace by key can be replayed: a second pass over the
    same list changes nothing. *)
Lemma replay_idempotent {S X K} (f : X → S → S) (key : X → K) `{EqDecision K} :
  (∀ x y s, key x = key y → f x (f y s) = f x s) →
  (∀ x y s, key x ≠ key y → f x (f y s) = f y (f x s)) →
  ∀ xs s,
    foldl (flip f) (foldl (flip f) s xs) xs = foldl (flip f) s xs.
Proof.
  intros Habs Hcomm xs. induction xs as [|x xs IH] using rev_ind; intros s.
  - done.
  - rewrite !foldl_app. cbn.
    rewrite (replay_absorb f key) by done. by rewrite IH.
Qed.
(** ** Monad laws used below *)

Lemma bind_unfold {A B} (m : M A) (k : A → M B) w :
  (m ≫= k) w
  = match m w with
    | (Ok a, w') => k a w'
    | (Raise e, w') => (Raise e, w')
    end.
Proof. reflexivity. Qed.

Lemma bind_ok {A B} (m : M A) (k : A → M B) w a w' :
  m w = (Ok a, w') → (m ≫= k) w = k a w'.
Proof. intros E. unfold mbind, M_bind. by rewrite E. Qed.

Lemma bind_raise {A B} (m : M A) (k : A → M B) w e w' :
  m w = (Raise e, w') → (m ≫= k) w = (Raise e, w').
Proof. intros E. unfold mbind, M_bind. by rewrite E. Qed.

Lemma lift_ok {A B} (a : A) (k : A → M B) w :
  (lift (Ok a) ≫= k) w = k a w.
Proof. reflexivity. Qed.

Lemma lift_raise {A B} e (k : A → M B) w :
  (lift (Raise e) ≫= k) w = (Raise e, w).
Proof. reflexivity. Qed.

(** ** Extract *)

Lemma index_ok (r : row) (i : nat) :
  (i < length r)%nat → index r i = Ok (default "" (r !! i)).
Proof.
  intros Hi. unfold index.
  destruct (r !! i) eqn:E; [done|].
  apply lookup_ge_None in E. lia.
Qed.

Lemma project_ok (r : row) :
  (17 ≤ length r)%nat → project r = Ok (keep r).
Proof.
  intros Hr. unfold project, keep, kept_columns. cbn [mapM fmap list_fmap].
  repeat (rewrite index_ok by lia; cbn [mbind result_bind]).
  reflexivity.
Qed.

Lemma write_event_spec (r : row) fs ks full rs tr out :
  (17 ≤ length r)%nat →
  fs !! new_datafile = Some out →
  write_event r (World fs ks full rs tr)
  = (Ok tt,
     World (<[new_datafile := out ++ (if has_artist r then [keep r] else [])]> fs)
       ks full rs tr).
Proof.
  intros Hr Hout. unfold write_event, has_artist.
  rewrite index_ok by lia. rewrite lift_ok.
  destruct (String.eqb _ "") eqn:E; cbn [negb].
  - rewrite app_nil_r, insert_id by done. reflexivity.
  - rewrite project_ok by done. rewrite lift_ok.
    unfold writerow. cbn [w_fs w_ks w_full_data_rows_list w_rows w_trace].
    do 2 f_equal. f_equal.
    apply map_eq. intros p. rewrite lookup_alter.
    destruct (decide (new_datafile = p)) as [<-|Hne].
    + by rewrite lookup_insert_eq, Hout.
    + by rewrite lookup_insert_ne.
Qed.

Lemma write_loop_spec (rows : list row) fs ks full rs tr out :
  Forall (λ r, (17 ≤ length r)%nat) rows →
  fs !! new_datafile = Some out →
  for_each rows write_event (World fs ks full rs tr)
  = (Ok tt,
     World (<[new_datafile := out ++ (keep <$> List.filter has_artist rows)]> fs)
       ks full rs tr).
Proof.
  intros Hrows. revert fs out.
  induction Hrows as [|r rows Hr _ IH]; intros fs out Hout.
  - cbn. by rewrite app_nil_r, insert_id.
  - cbn [for_each]. erewrite bind_ok by (by apply write_event_spec).
    rewrite (IH _ (out ++ (if has_artist r then [keep r] else [])))
      by apply lookup_insert_eq.
    rewrite insert_insert_eq. cbn [List.filter].
    destruct (has_artist r); cbn [fmap list_fmap];
      by rewrite <- ?app_assoc, ?app_nil_r.
Qed.

(** C1. For every list of event records with at least 17 fields each, the
    write loop of the extract cell succeeds and leaves in
    [event_datafile_new.csv] the 11-column header row followed, in input
    order, by the projection to columns 0, 2, 3, 4, 5, 6, 7, 8, 12, 13, 16
    of exactly the records whose artist field is not empty; no other file
    and nothing else of the state changes but the trace. *)
Theorem extract_filter_and_project (rows : list row) fs ks rs tr :
  Forall (λ r, (17 ≤ length r)%nat) rows →
  write_new_datafile (World fs ks rows rs tr)
  = (Ok tt,
     World (<[new_datafile := filter_and_project rows]> fs) ks rows rs
       (tr ++ [FileOpen new_datafile; FileClose new_datafile])).
Proof.
  intros Hrows. unfold write_new_datafile, with_open_write.
  unfold open_write, emit, mbind at 1, M_bind at 1.
  cbn [w_fs w_ks w_full_data_rows_list w_rows w_trace].
  unfold finally.
  unfold writerow at 1, mbind at 1, M_bind at 1, get_full_data_rows_list,
    mbind at 1, M_bind at 1.
  cbn [w_fs w_ks w_full_data_rows_list w_rows w_trace].
  rewrite (write_loop_spec rows _ _ _ _ _ [header]) by
    (done || (rewrite lookup_alter, decide_True, lookup_insert_eq; done)).
  unfold close, emit. cbn. do 2 f_equal.
  - apply map_eq. intros p. unfold filter_and_project.
    destruct (decide (new_datafile = p)) as [<-|Hne].
    + by rewrite !lookup_insert_eq.
    + rewrite !lookup_insert_ne, lookup_alter, decide_False by done.
      by rewrite lookup_insert_ne.
  - by rewrite <- app_assoc.
Qed.


(** The read loop of the extract cell: every file is opened, read past its
    first line and closed, in the order of [file_path_list]. *)
Lemma append_lines (lines : list row) fs ks full rs tr :
  for_each lines append_line (World fs ks full rs tr)
  = (Ok tt, World fs ks (full ++ lines) rs tr).
Proof.
  revert full. induction lines as [|line lines IH]; intros full.
  - cbn. by rewrite app_nil_r.
  - cbn [for_each]. rewrite bind_unfold. unfold append_line at 1.
    cbn [w_fs w_ks w_full_data_rows_list w_rows w_trace].
    by rewrite IH, <- app_assoc.
Qed.

Lemma read_event_files_spec paths (contents : list (list row)) fs ks full rs tr :
  Forall2 (λ f c, fs !! f = Some c ∧ c ≠ []) paths contents →
  read_event_files paths (World fs ks full rs tr)
  = (Ok tt,
     World fs ks (concat (tail <$> contents)) rs
       (tr ++ concat ((λ f, [FileOpen f; FileClose f]) <$> paths))).
Proof.
  intros Hfiles. unfold read_event_files. rewrite bind_unfold.
  unfold set_full_data_rows_list at 1.
  cbn [w_fs w_ks w_full_data_rows_list w_rows w_trace].
  change (concat (tail <$> contents)) with ([] ++ concat (tail <$> contents)).
  generalize (@nil row) as acc. revert tr.
  induction Hfiles as [|f c paths contents [Hf Hc] _ IH]; intros tr acc.
  - cbn. by rewrite !app_nil_r.
  - cbn [for_each]. rewrite bind_unfold. unfold with_open_read at 1.
    rewrite bind_unfold. unfold open_read at 1.
    cbn [w_fs w_ks w_full_data_rows_list w_rows w_trace]. rewrite Hf.
    destruct c as [|hdr lines]; [done|].
    unfold finally, emit.
    cbn [snd next w_fs w_ks w_full_data_rows_list w_rows w_trace].
    rewrite bind_unfold. unfold lift at 1. rewrite append_lines.
    unfold close, emit.
    cbn [fst snd w_fs w_ks w_full_data_rows_list w_rows w_trace].
    rewrite IH. cbn [fmap list_fmap concat tail].
    by rewrite <- !app_assoc.
Qed.

(** ** Reasoning about runs *)

Lemma triple_ret {A} (P : world → Prop) (a : A) (Q : A → world → Prop) E :
  (∀ w, P w → Q a w) → triple P (mret a) Q E.
Proof. intros HQ w Hw. by apply HQ. Qed.

Lemma triple_bind {A B} P (m : M A) (k : A → M B) R Q E :
  triple P m R E → (∀ a, triple (R a) (k a) Q E) → triple P (m ≫= k) Q E.
Proof.
  intros Hm Hk w Hw. specialize (Hm w Hw).
  unfold mbind, M_bind. destruct (m w) as [[a|e] w']; [|done].
  by apply Hk.
Qed.

Lemma triple_lift {A} (P : world → Prop) (r : result A) Q (E : world → Prop) :
  (∀ w, P w → match r with Ok a => Q a w | Raise _ => E w end) →
  triple P (lift r) Q E.
Proof. intros H w Hw. specialize (H w Hw). unfold lift. by destruct r. Qed.

Lemma triple_weaken {A} (P P' : world → Prop) (m : M A)
    (Q Q' : A → world → Prop) (E E' : world → Prop) :
  triple P' m Q' E' →
  (∀ w, P w → P' w) → (∀ a w, Q' a w → Q a w) → (∀ w, E' w → E w) →
  triple P m Q E.
Proof.
  intros Hm HP HQ HE w Hw. specialize (Hm w (HP w Hw)).
  destruct (m w) as [[a|e] w']; auto.
Qed.

Lemma triple_for_each {A} (I : world → Prop) (xs : list A) body E :
  (∀ x, triple I (body x) (λ _, I) E) →
  triple I (for_each xs body) (λ _, I) E.
Proof.
  intros Hbody. induction xs as [|x xs IH]; cbn [for_each].
  - by apply triple_ret.
  - eapply triple_bind; [apply Hbody|]. intros ?. apply IH.
Qed.

Lemma triple_try_print (P : world → Prop) m (Q : world → Prop) :
  triple P m (λ _, Q) Q → triple P (try_print m) (λ _, Q) Q.
Proof.
  intros Hm w Hw. specialize (Hm w Hw). unfold try_print.
  by destruct (m w) as [[a|e] w'].
Qed.

Lemma triple_finally {A} P (m : M A) fin (R : A → world → Prop) RE Q E :
  triple P m R RE →
  (∀ a, triple (R a) fin (λ _, Q a) (Q a)) →
  triple RE fin (λ _, E) E →
  triple P (finally m fin) Q E.
Proof.
  intros Hm Hfin HfinE w Hw. specialize (Hm w Hw). unfold finally.
  destruct (m w) as [[a|e] w'].
  - specialize (Hfin a w' Hm). cbn. by destruct (fin w') as [[u|?] w''].
  - specialize (HfinE w' Hm). cbn. by destruct (fin w') as [[u|?] w''].
Qed.

(** ** The insert loops *)

Lemma exec_insert q ks :
  is_insert q = true →
  exec q ks
  = if accepts q ks
    then (Ok [], Keyspace (ks_catalog ks) (insert_row q (ks_tables ks)))
    else (Raise InvalidRequest, ks).
Proof. by destruct q. Qed.

(** One turn of the loop of an insert cell. *)
Lemma load_step insert table line fs ks full rs tr :
  inserts_into insert table →
  (q ← lift (insert line); session_execute q ;; mret tt)
    (World fs ks full rs tr)
  = match insert line with
    | Ok q =>
        if table_exists table ks && valid q
        then (Ok tt,
              World fs (Keyspace (ks_catalog ks) (insert_row q (ks_tables ks)))
                full rs (tr ++ [Execute q]))
        else (Raise InvalidRequest, World fs ks full rs (tr ++ [Execute q]))
    | Raise e => (Raise e, World fs ks full rs tr)
    end.
Proof.
  intros Hins. destruct (insert line) as [q|e] eqn:Eq; [|done].
  destruct (Hins _ _ Eq) as [Hq Ht].
  unfold mbind, M_bind, lift, session_execute.
  cbn [w_fs w_ks w_full_data_rows_list w_rows w_trace].
  rewrite exec_insert by done. unfold accepts. rewrite Ht.
  by destruct (table_exists table ks && valid q).
Qed.

Lemma for_each_plan insert table lines fs ks full rs tr :
  inserts_into insert table →
  for_each lines (λ line, q ← lift (insert line); session_execute q ;; mret tt)
    (World fs ks full rs tr)
  = let p := plan insert (table_exists table ks) lines in
    (p.1.1,
     World fs
       (Keyspace (ks_catalog ks) (foldl (flip insert_row) (ks_tables ks) p.1.2))
       full rs (tr ++ (Execute <$> p.2))).
Proof.
  intros Hins. revert ks tr. induction lines as [|line lines IH]; intros ks tr.
  - cbn. destruct ks. by rewrite app_nil_r.
  - cbn [for_each plan]. rewrite bind_unfold, (load_step insert table) by done.
    destruct (insert line) as [q|e] eqn:Eq.
    + destruct (table_exists table ks && valid q) eqn:Eacc.
      * rewrite IH. unfold table_exists at 1 2 3. cbn [ks_catalog ks_tables].
        fold (table_exists table ks).
        destruct (plan insert (table_exists table ks) lines) as [[r acc] sent].
        cbn. by rewrite <- app_assoc.
      * cbn. by destruct ks.
    + cbn. destruct ks. by rewrite app_nil_r.
Qed.

(** An insert cell does what [load_outcome] says. *)
Lemma load_cell_outcome insert table w :
  inserts_into insert table →
  load_cell insert w = load_outcome insert table w.
Proof.
  intros Hins. destruct w as [fs ks full rs tr].
  unfold load_cell, load_outcome, with_open_read, open_read.
  rewrite bind_unfold. cbn [w_fs w_ks w_full_data_rows_list w_rows w_trace].
  destruct (fs !! new_datafile) as [[|hdr lines]|] eqn:Efile; [| |done].
  - unfold finally. rewrite bind_unfold. unfold lift, close, emit. cbn.
    by rewrite <- app_assoc.
  - unfold finally, emit.
    cbn [snd next w_fs w_ks w_full_data_rows_list w_rows w_trace].
    rewrite bind_unfold. unfold lift at 1.
    rewrite (for_each_plan insert table) by done.
    destruct (plan insert (table_exists table ks) lines) as [[r acc] sent].
    unfold close, emit. cbn. by rewrite <- !app_assoc.
Qed.

Lemma inserts_into_artist_song_session :
  inserts_into insert_artist_song_session "artist_song_session".
Proof.
  intros line q. unfold insert_artist_song_session, mbind, result_bind.
  repeat case_match; try done. by intros [= <-].
Qed.

Lemma inserts_into_song_playlist_session :
  inserts_into insert_song_playlist_session "song_playlist_session".
Proof.
  intros line q. unfold insert_song_playlist_session, mbind, result_bind.
  repeat case_match; try done. by intros [= <-].
Qed.

Lemma inserts_into_user_song : inserts_into insert_user_song "user_song".
Proof.
  intros line q. unfold insert_user_song, mbind, result_bind.
  repeat case_match; try done. by intros [= <-].
Qed.

Lemma inserts_into_question_2 : inserts_into insert_question_2 "question_2".
Proof.
  intros line q. unfold insert_question_2, mbind, result_bind.
  repeat case_match; try done. by intros [= <-].
Qed.

Lemma inserts_into_loaders insert table :
  (insert, table) ∈ loaders → inserts_into insert table.
Proof.
  unfold loaders. rewrite !elem_of_cons, elem_of_nil.
  intros [[= -> ->]|[[= -> ->]|[[= -> ->]|[]]]].
  - apply inserts_into_artist_song_session.
  - apply inserts_into_song_playlist_session.
  - apply inserts_into_user_song.
Qed.

(** ** Properties of the keyspace kept by every cell *)

Section KeyspaceInvariant.
Variable P : keyspace → Prop.
Hypothesis P_exec : ∀ q ks, P ks → P (exec q ks).2.

Lemma keeps_quiet {A} (m : M A) :
  (∀ w, w_ks (m w).2 = w_ks w) → keeps P m.
Proof.
  intros Hm w Hw. specialize (Hm w).
  destruct (m w) as [[a|e] w']; cbn in Hm; by rewrite Hm.
Qed.

Lemma keeps_bind {A B} (m : M A) (k : A → M B) :
  keeps P m → (∀ a, keeps P (k a)) → keeps P (m ≫= k).
Proof. intros Hm Hk. eapply triple_bind; [exact Hm|exact Hk]. Qed.

Lemma keeps_for_each {A} (xs : list A) body :
  (∀ x, keeps P (body x)) → keeps P (for_each xs body).
Proof. apply triple_for_each. Qed.

Lemma keeps_try_print m : keeps P m → keeps P (try_print m).
Proof. apply triple_try_print. Qed.

Lemma keeps_finally {A} (m : M A) fin : keeps P m → keeps P fin → keeps P (finally m fin).
Proof. intros Hm Hfin. eapply triple_finally; [exact Hm|by intros|done]. Qed.

Lemma keeps_ret {A} (a : A) : keeps P (mret a).
Proof. by apply keeps_quiet. Qed.

Lemma keeps_lift {A} (r : result A) : keeps P (lift r).
Proof. by apply keeps_quiet. Qed.

Lemma keeps_emit e : keeps P (emit e).
Proof. by apply keeps_quiet. Qed.

Lemma keeps_session_execute q : keeps P (session_execute q).
Proof.
  intros w Hw. unfold session_execute. specialize (P_exec q _ Hw).
  by destruct (exec q (w_ks w)) as [[a|e] ks'].
Qed.

Lemma keeps_with_open_read {A} path (body : list row → M A) :
  (∀ rs, keeps P (body rs)) → keeps P (with_open_read path body).
Proof.
  intros Hbody. apply keeps_bind.
  - apply keeps_quiet. intros w. unfold open_read. by case_match.
  - intros rs. apply keeps_finally; [done|apply keeps_emit].
Qed.

Lemma keeps_with_open_write {A} path (body : M A) :
  keeps P body → keeps P (with_open_write path body).
Proof.
  intros Hbody. apply keeps_bind; [by apply keeps_quiet|].
  intros _. apply keeps_finally; [done|apply keeps_emit].
Qed.

Lemma keeps_load_cell insert : keeps P (load_cell insert).
Proof.
  apply keeps_with_open_read. intros rs. apply keeps_bind; [apply keeps_lift|].
  intros [_ lines]. apply keeps_for_each. intros line.
  apply keeps_bind; [apply keeps_lift|]. intros q.
  apply keeps_bind; [apply keeps_session_execute|]. intros _. apply keeps_ret.
Qed.

Lemma keeps_create_table_cell ddl : keeps P (create_table_cell ddl).
Proof.
  apply keeps_try_print, keeps_bind; [apply keeps_session_execute|].
  intros _. apply keeps_ret.
Qed.

Lemma keeps_transform : keeps P transform.
Proof.
  unfold transform.
  repeat (apply keeps_bind;
          [apply keeps_create_table_cell || apply keeps_load_cell|intros _]).
  apply keeps_load_cell.
Qed.

Lemma keeps_query_cell q columns : keeps P (query_cell q columns).
Proof.
  apply keeps_bind.
  - apply keeps_try_print, keeps_bind; [apply keeps_session_execute|].
    intros rs. by apply keeps_quiet.
  - intros _. apply keeps_bind.
    + apply keeps_quiet. intros w. unfold get_rows. by case_match.
    + intros rs. apply keeps_lift.
Qed.
End KeyspaceInvariant.

(** ** Well-formed tables *)

Lemma tables_wf_empty : tables_wf (Tables ∅ ∅ ∅ ∅).
Proof. repeat split; apply table_wf_empty. Qed.

Lemma tables_wf_insert_row q t : tables_wf t → tables_wf (insert_row q t).
Proof.
  intros (H1 & H2 & H3 & H4).
  destruct q; cbn; try done; repeat split; try done; by apply table_wf_insert.
Qed.

Lemma tables_wf_drop_rows name t : tables_wf t → tables_wf (drop_rows name t).
Proof.
  intros (H1 & H2 & H3 & H4). unfold drop_rows.
  repeat split; cbn; case_match; done || apply table_wf_empty.
Qed.

Lemma exec_wf q ks :
  tables_wf (ks_tables ks) → tables_wf (ks_tables (exec q ks).2).
Proof.
  intros Hwf. destruct (is_insert q) eqn:Hq.
  - rewrite exec_insert by done. case_match; [|done].
    by apply tables_wf_insert_row.
  - destruct q; try done; cbn -[drop_rows]; unfold create_table;
      repeat case_match; try done.
    by apply tables_wf_drop_rows.
Qed.

(** Inserts never touch the catalog. *)
Lemma exec_catalog q ks :
  is_insert q = true → ks_catalog (exec q ks).2 = ks_catalog ks.
Proof. intros Hq. rewrite exec_insert by done. by case_match. Qed.

(** ** The query cells *)

Lemma exec_select q ks :
  is_select q = true →
  table_exists (table_of q) ks = true →
  exec q ks = (Ok (select_rows q (ks_tables ks)), ks).
Proof. destruct q; try done; cbn; by intros _ ->. Qed.

(** A query cell on a keyspace where the table exists: the SELECT is sent,
    [rows] is bound to its result, and the printed lines are read off the
    rows by field name. *)
Lemma query_cell_select q columns fs ks full rs tr :
  is_select q = true →
  table_exists (table_of q) ks = true →
  query_cell q columns (World fs ks full rs tr)
  = (mapM (λ r, mapM (getattr r) columns) (select_rows q (ks_tables ks)),
     World fs ks full (Some (select_rows q (ks_tables ks)))
       (tr ++ [Execute q])).
Proof.
  intros Hq Ht. unfold query_cell, try_print. rewrite !bind_unfold.
  unfold session_execute at 1.
  cbn [w_fs w_ks w_full_data_rows_list w_rows w_trace].
  rewrite exec_select by done. reflexivity.
Qed.

Lemma mapM_fmap_ok {A B C} (h : B → result C) (f : A → B) (g : A → C) l :
  (∀ x, h (f x) = Ok (g x)) → mapM h (f <$> l) = Ok (g <$> l).
Proof.
  intros Hh. induction l as [|x l IH]; [done|].
  cbn. rewrite Hh. cbn. by rewrite IH.
Qed.






Lemma query_1_answer fs ks full rs tr :
  table_exists "artist_song_session" ks = true →
  query_1 (World fs ks full rs tr)
  = (Ok (answer_1 (ks_tables ks)),
     World fs ks full (Some (select_rows SelectArtistSongSession (ks_tables ks)))
       (tr ++ [Execute SelectArtistSongSession])).
Proof.
  intros Ht. unfold query_1. rewrite query_cell_select by done.
  f_equal. apply mapM_fmap_ok. by intros [item [[artist song] len]].
Qed.

Lemma query_2_answer fs ks full rs tr :
  table_exists "song_playlist_session" ks = true →
  query_2 (World fs ks full rs tr)
  = (Ok (answer_2 (ks_tables ks)),
     World fs ks full
       (Some (select_rows SelectSongPlaylistSession (ks_tables ks)))
       (tr ++ [Execute SelectSongPlaylistSession])).
Proof.
  intros Ht. unfold query_2. rewrite query_cell_select by done.
  f_equal. apply mapM_fmap_ok. by intros [item [[[artist song] first] last]].
Qed.

Lemma query_3_answer fs ks full rs tr :
  table_exists "user_song" ks = true →
  query_3 (World fs ks full rs tr)
  = (Ok (answer_3 (ks_tables ks)),
     World fs ks full (Some (select_rows SelectUserSong (ks_tables ks)))
       (tr ++ [Execute SelectUserSong])).
Proof.
  intros Ht. unfold query_3. rewrite query_cell_select by done.
  f_equal. apply mapM_fmap_ok. by intros [uid [first last]].
Qed.

Lemma query_3_readme_answer fs ks full rs tr :
  table_exists "user_song" ks = true →
  query_3_readme (World fs ks full rs tr)
  = (Ok (answer_3_readme (ks_tables ks)),
     World fs ks full (Some (select_rows SelectUserSongWithId (ks_tables ks)))
       (tr ++ [Execute SelectUserSongWithId])).
Proof.
  intros Ht. unfold query_3_readme. rewrite query_cell_select by done.
  f_equal. apply mapM_fmap_ok. by intros [uid [first last]].
Qed.

Lemma query_question_2_answer fs ks full rs tr :
  table_exists "question_2" ks = true →
  query_question_2 (World fs ks full rs tr)
  = (Ok (answer_question_2 (ks_tables ks)),
     World fs ks full (Some (select_rows SelectQuestion2 (ks_tables ks)))
       (tr ++ [Execute SelectQuestion2])).
Proof.
  intros Ht. unfold query_question_2. rewrite query_cell_select by done.
  f_equal. apply mapM_fmap_ok.
  by intros [[sid item] [[[artist song] first] last]].
Qed.

(** ** The transform phase *)





Lemma parse_ddl_artist_song_session :
  parse_create_table ddl_artist_song_session = Some schema_artist_song_session.
Proof. vm_compute. reflexivity. Qed.

Lemma parse_ddl_song_playlist_session :
  parse_create_table ddl_song_playlist_session
  = Some schema_song_playlist_session.
Proof. vm_compute. reflexivity. Qed.

Lemma parse_ddl_user_song :
  parse_create_table ddl_user_song = Some schema_user_song.
Proof. vm_compute. reflexivity. Qed.

Lemma parse_ddl_question_2 :
  parse_create_table ddl_question_2 = Some schema_question_2.
Proof. vm_compute. reflexivity. Qed.

Lemma table_exists_create_table sc ks :
  table_exists (sc_name sc) (create_table sc ks) = true.
Proof.
  unfold create_table. destruct (table_exists (sc_name sc) ks) eqn:E; [done|].
  unfold table_exists. cbn. rewrite lookup_insert_eq.
  by apply bool_decide_eq_true.
Qed.

Lemma table_exists_create_table_mono name sc ks :
  table_exists name ks = true → table_exists name (create_table sc ks) = true.
Proof.
  unfold create_table. destruct (table_exists (sc_name sc) ks) eqn:E; [done|].
  unfold table_exists. cbn. rewrite !bool_decide_eq_true.
  intros Hname. destruct (decide (sc_name sc = name)) as [->|Hne].
  - by rewrite lookup_insert_eq.
  - by rewrite lookup_insert_ne.
Qed.

Lemma ks_tables_create_table sc ks :
  ks_tables (create_table sc ks) = ks_tables ks.
Proof. unfold create_table. by case_match. Qed.

(** A CREATE TABLE cell never raises. *)
Lemma create_table_cell_eq ddl sc fs ks full rs tr :
  parse_create_table ddl = Some sc →
  create_table_cell ddl (World fs ks full rs tr)
  = (Ok tt,
     World fs (create_table sc ks) full rs (tr ++ [Execute (CreateTable ddl)])).
Proof.
  intros Hddl. unfold create_table_cell, try_print. rewrite bind_unfold.
  unfold session_execute. cbn. by rewrite Hddl.
Qed.

Lemma load_cell_catalog insert table w :
  inserts_into insert table →
  ks_catalog (w_ks (load_cell insert w).2) = ks_catalog (w_ks w).
Proof.
  intros Hins. rewrite (load_cell_outcome insert table) by done.
  unfold load_outcome. by repeat case_match.
Qed.

Lemma load_cell_table_exists insert table name w :
  inserts_into insert table →
  table_exists name (w_ks (load_cell insert w).2) = table_exists name (w_ks w).
Proof.
  intros Hins. unfold table_exists. by rewrite (load_cell_catalog insert table).
Qed.

Lemma bind_ok_inv {A B} (m : M A) (k : A → M B) w b w' :
  (m ≫= k) w = (Ok b, w') →
  ∃ a w1, m w = (Ok a, w1) ∧ k a w1 = (Ok b, w').
Proof.
  rewrite bind_unfold. destruct (m w) as [[a|e] w1]; [|done]. eauto.
Qed.

(** When the transform phase completes, its three tables exist. *)
Lemma transform_ok_tables w0 w :
  transform w0 = (Ok tt, w) →
  table_exists "artist_song_session" (w_ks w) = true
  ∧ table_exists "song_playlist_session" (w_ks w) = true
  ∧ table_exists "user_song" (w_ks w) = true.
Proof.
  unfold transform. intros H.
  apply bind_ok_inv in H as ([] & w1 & H1 & H).
  apply bind_ok_inv in H as ([] & w2 & H2 & H).
  apply bind_ok_inv in H as ([] & w3 & H3 & H).
  apply bind_ok_inv in H as ([] & w4 & H4 & H).
  apply bind_ok_inv in H as ([] & w5 & H5 & H6).
  destruct w0 as [fs0 ks0 full0 rs0 tr0]. destruct w2 as [fs2 ks2 full2 rs2 tr2].
  destruct w4 as [fs4 ks4 full4 rs4 tr4].
  rewrite (create_table_cell_eq _ _ _ _ _ _ _ parse_ddl_artist_song_session) in H1.
  rewrite (create_table_cell_eq _ _ _ _ _ _ _ parse_ddl_song_playlist_session) in H3.
  rewrite (create_table_cell_eq _ _ _ _ _ _ _ parse_ddl_user_song) in H5.
  injection H1 as <-. injection H3 as <-. injection H5 as <-.
  pose proof (f_equal (λ x, w_ks x.2) H2) as E2.
  pose proof (f_equal (λ x, w_ks x.2) H4) as E4.
  pose proof (f_equal (λ x, w_ks x.2) H6) as E6.
  cbn in E2, E4, E6.
  assert (table_exists "artist_song_session" ks2 = true) as X1.
  { rewrite <- E2, (load_cell_table_exists _ "artist_song_session")
      by apply inserts_into_artist_song_session.
    apply (table_exists_create_table schema_artist_song_session). }
  assert (table_exists "artist_song_session" ks4 = true
          ∧ table_exists "song_playlist_session" ks4 = true) as [Y1 Y2].
  { rewrite <- E4, !(load_cell_table_exists _ "song_playlist_session")
      by apply inserts_into_song_playlist_session.
    split; [by apply table_exists_create_table_mono|].
    apply (table_exists_create_table schema_song_playlist_session). }
  rewrite <- E6, !(load_cell_table_exists _ "user_song")
    by apply inserts_into_user_song.
  split_and!; [by apply table_exists_create_table_mono..|].
  apply (table_exists_create_table schema_user_song).
Qed.

(** The transform phase keeps every partition in clustering order. *)
Lemma transform_wf w :
  tables_wf (ks_tables (w_ks w)) →
  tables_wf (ks_tables (w_ks (transform w).2)).
Proof.
  intros Hw.
  pose proof (keeps_transform (λ ks, tables_wf (ks_tables ks)) exec_wf w Hw) as H.
  by destruct (transform w) as [[[]|e] w'].
Qed.

(** C2. On every keyspace the load phase produces, each of the three query
    cells succeeds, leaves the keyspace as it is, and prints exactly the
    stored rows whose key columns equal the constants of its WHERE clause
    (session_id=338 and item_in_session=4; user_id=10 and session_id=182;
    song='All Hands Against His Own'), each projected to the selected
    columns: every printed value is a value stored in that row. *)
Theorem queries_are_equality_lookups w0 w fs full rs tr :
  transform w0 = (Ok tt, w) →
  let t := ks_tables (w_ks w) in
  let w' := World fs (w_ks w) full rs tr in
  (∃ data w1, query_1 w' = (Ok data, w1) ∧ w_ks w1 = w_ks w
     ∧ ∀ r, r ∈ data ↔
         ∃ artist song len,
           r = [VText artist; VText song; VDouble len]
           ∧ stored 338 4 (artist, song, len) (artist_song_session t))
  ∧ (∃ data w2, query_2 w' = (Ok data, w2) ∧ w_ks w2 = w_ks w
     ∧ ∀ r, r ∈ data ↔
         ∃ item artist song first last,
           r = [VText artist; VText song; VInt item; VText first; VText last]
           ∧ stored (10, 182) item (artist, song, first, last)
               (song_playlist_session t))
  ∧ (∃ data w3, query_3 w' = (Ok data, w3) ∧ w_ks w3 = w_ks w
     ∧ ∀ r, r ∈ data ↔
         ∃ uid first last,
           r = [VText first; VText last]
           ∧ stored "All Hands Against His Own" uid (first, last)
               (user_song t)).
Proof.
  intros Hload t w'. apply transform_ok_tables in Hload as (T1 & T2 & T3).
  subst w'. split_and!.
  - eexists _, _. split; [by apply query_1_answer|]. split; [done|].
    intros r. unfold answer_1, stored. rewrite list_elem_of_fmap. split.
    + intros ([item [[artist song] len]] & -> & Hin).
      apply list_elem_of_filter in Hin as [Hitem Hin]. cbn in Hitem. subst item.
      by exists artist, song, len.
    + intros (artist & song & len & -> & Hin).
      exists (4, (artist, song, len)). split; [done|].
      by apply list_elem_of_filter.
  - eexists _, _. split; [by apply query_2_answer|]. split; [done|].
    intros r. unfold answer_2, stored. rewrite list_elem_of_fmap. split.
    + intros ([item [[[artist song] first] last]] & -> & Hin).
      by exists item, artist, song, first, last.
    + intros (item & artist & song & first & last & -> & Hin).
      by exists (item, (artist, song, first, last)).
  - eexists _, _. split; [by apply query_3_answer|]. split; [done|].
    intros r. unfold answer_3, stored. rewrite list_elem_of_fmap. split.
    + intros ([uid [first last]] & -> & Hin). by exists uid, first, last.
    + intros (uid & first & last & -> & Hin). by exists (uid, (first, last)).
Qed.

Lemma ascending_keys_lt {V} (p : list (Z * V)) :
  ascending p → StronglySorted Z.lt p.*1.
Proof.
  unfold ascending. induction 1 as [|[k v] p Hp IH Hall]; cbn.
  - constructor.
  - constructor; [done|]. rewrite Forall_fmap.
    eapply Forall_impl; [exact Hall|]. intros [k' v'] Hlt. cbn in *.
    by apply Z.compare_lt_iff.
Qed.


(** C5. On every keyspace the load phase produces from a well-formed one,
    query 2 (user_id=10 and session_id=182 on song_playlist_session)
    succeeds and the rows it prints come in strictly ascending order of
    item_in_session, the clustering key of the (user_id, session_id)
    partition. *)
Theorem query_2_sorted_by_item_in_session w0 w :
  tables_wf (ks_tables (w_ks w0)) →
  transform w0 = (Ok tt, w) →
  ∃ data w' items,
    query_2 w = (Ok data, w')
    ∧ item_in_session_column data = (λ i, Some (VInt i)) <$> items
    ∧ StronglySorted Z.lt items.
Proof.
  intros Hwf Hload.
  pose proof (transform_wf w0 Hwf) as Hwf'. rewrite Hload in Hwf'. cbn in Hwf'.
  apply transform_ok_tables in Hload as (T1 & T2 & T3).
  destruct w as [fs ks full rs tr]. cbn in *.
  eexists _, _,
    (table_partition (10, 182) (song_playlist_session (ks_tables ks))).*1.
  split; [by apply query_2_answer|]. split.
  - unfold item_in_session_column, answer_2. rewrite <- !list_fmap_compose.
    apply list_fmap_ext. by intros _ [item [[[artist song] first] last]] _.
  - apply ascending_keys_lt. apply Hwf'.
Qed.

(** ** One row per (song, user_id) *)

Lemma tables_wf_replay t qs :
  tables_wf t → tables_wf (foldl (flip insert_row) t qs).
Proof.
  revert t. induction qs as [|q qs IH]; intros t Ht; [done|].
  cbn. apply IH. by apply tables_wf_insert_row.
Qed.

(** An INSERT on another primary key leaves the row of a user and song as
    it is. *)
Lemma stored_user_song_other q t song uid v :
  tables_wf t →
  primary_key_of q ≠ Some (KeyUserSong song uid) →
  stored song uid v (user_song (insert_row q t)) ↔ stored song uid v (user_song t).
Proof.
  intros (_ & _ & Hwf & _) Hkey. destruct q; cbn in *; try done.
  rewrite stored_insert by done. split.
  - intros [(-> & -> & _)|[_ ?]]; done.
  - intros Hin. right. split; [congruence|done].
Qed.

Lemma stored_user_song_replay qs t song uid v :
  tables_wf t →
  Forall (λ q, primary_key_of q ≠ Some (KeyUserSong song uid)) qs →
  stored song uid v (user_song (foldl (flip insert_row) t qs))
  ↔ stored song uid v (user_song t).
Proof.
  intros Ht Hqs. revert t Ht. induction Hqs as [|q qs Hq _ IH]; intros t Ht.
  - done.
  - cbn. rewrite IH by by apply tables_wf_insert_row.
    by apply stored_user_song_other.
Qed.

Lemma stored_user_song_insert t song uid first last v :
  tables_wf t →
  stored song uid v (user_song (insert_row (InsertUserSong song uid first last) t))
  ↔ v = (first, last).
Proof.
  intros (_ & _ & Hwf & _). cbn. rewrite stored_insert by done. split.
  - intros [(_ & _ & ->)|[? _]]; done.
  - intros ->. by left.
Qed.


(** C10. After any sequence of inserts into well-formed tables, user_song
    holds at most one row per (song, user_id): the clustering keys of every
    partition are pairwise distinct; the row of a user and song carries the
    names of the last record inserted for them; and query 3 prints one line
    per user_id of the song's partition, so that with the user_id column
    selected, as in the README, no user_id is listed twice. *)
Theorem user_song_one_row_per_user (t : tables) (qs : list statement) :
  tables_wf t →
  let t' := foldl (flip insert_row) t qs in
  (∀ song, NoDup (table_partition song (user_song t')).*1)
  ∧ (∀ song uid v v',
       stored song uid v (user_song t') → stored song uid v' (user_song t') →
       v = v')
  ∧ (∀ qs1 qs2 song uid first last,
       qs = qs1 ++ InsertUserSong song uid first last :: qs2 →
       Forall (λ q, primary_key_of q ≠ Some (KeyUserSong song uid)) qs2 →
       ∀ v, stored song uid v (user_song t') ↔ v = (first, last))
  ∧ (∀ fs catalog full rs tr,
       table_exists "user_song" (Keyspace catalog t') = true →
       ∃ data w' data_id w'',
         query_3 (World fs (Keyspace catalog t') full rs tr) = (Ok data, w')
         ∧ query_3_readme (World fs (Keyspace catalog t') full rs tr)
           = (Ok data_id, w'')
         ∧ data = drop 1 <$> data_id
         ∧ NoDup (user_id_column data_id)).
Proof.
  intros Ht t'. assert (tables_wf t') as Ht' by by apply tables_wf_replay.
  destruct Ht' as (_ & _ & Hus & _). split_and!.
  - intros song. by apply ascending_NoDup.
  - intros song uid v v'. by apply ascending_functional.
  - intros qs1 qs2 song uid first last -> Hqs2 v. subst t'.
    rewrite foldl_app. cbn [foldl]. unfold flip at 2.
    rewrite stored_user_song_replay;
      [|by apply tables_wf_insert_row, tables_wf_replay|done].
    apply stored_user_song_insert. by apply tables_wf_replay.
  - intros fs catalog full rs tr Hex. eexists _, _, _, _.
    split; [by apply query_3_answer|]. split; [by apply query_3_readme_answer|].
    cbn [ks_tables]. split.
    + unfold answer_3, answer_3_readme. rewrite <- list_fmap_compose.
      apply list_fmap_ext. by intros _ [uid [first last]] _.
    + unfold user_id_column, answer_3_readme. rewrite <- list_fmap_compose.
      pose proof (ascending_NoDup _ (Hus "All Hands Against His Own")) as Hnd.
      assert (Inj (=) (=) (λ i, Some (VInt i))) as Hinj
        by (intros i j [=]; done).
      apply (NoDup_fmap_2 (λ i, Some (VInt i))) in Hnd.
      rewrite <- list_fmap_compose in Hnd.
      erewrite list_fmap_ext; [exact Hnd|]. by intros _ [uid [first last]] _.
Qed.

(** ** What the loops send *)

Lemma executed_app tr1 tr2 : executed (tr1 ++ tr2) = executed tr1 ++ executed tr2.
Proof. apply omap_app. Qed.

Lemma executed_Execute qs : executed (Execute <$> qs) = qs.
Proof. induction qs as [|q qs IH]; [done|]. cbn. f_equal. exact IH. Qed.

Lemma plan_sent_inserts insert table b lines :
  inserts_into insert table →
  Forall (λ q, is_insert q = true) (plan insert b lines).2.
Proof.
  intros Hins. induction lines as [|line lines IH]; cbn; [constructor|].
  destruct (insert line) as [q|e] eqn:Eq; [|constructor].
  destruct (Hins _ _ Eq) as [Hq _].
  destruct (b && valid q).
  - destruct (plan insert b lines) as [[r acc] sent]. by constructor.
  - by repeat constructor.
Qed.

(** The loop over records that are all fine sends one INSERT per record, in
    order, and every one is accepted. *)
Lemma plan_all_ok insert lines :
  forallb (row_ok insert) lines = true →
  ∃ qs, plan insert true lines = (Ok tt, qs, qs)
        ∧ Forall2 (λ line q, insert line = Ok q) lines qs.
Proof.
  induction lines as [|line lines IH]; cbn.
  - exists []. by split.
  - unfold row_ok at 1. destruct (insert line) as [q|e] eqn:Eq; [|done].
    intros [Hv Hrest]%andb_prop. destruct (IH Hrest) as (qs & Hplan & Hall).
    exists (q :: qs). rewrite Hv, Hplan. split; [done|]. by constructor.
Qed.

(** The loop stops at the first record it does not get through: it has
    then sent one INSERT per record before it, and at most one more. *)
Lemma plan_sent_length insert b lines :
  (length (plan insert b lines).2 ≤ length lines)%nat.
Proof.
  induction lines as [|line lines IH]; cbn; [done|].
  destruct (insert line) as [q|e]; cbn; [|lia].
  destruct (b && valid q); cbn; [|lia].
  destruct (plan insert b lines) as [[r acc] sent]. cbn in *. lia.
Qed.

Lemma plan_app insert (good : list row) :
  forallb (row_ok insert) good = true →
  ∃ qs,
    Forall2 (λ line q, insert line = Ok q) good qs
    ∧ ∀ rest,
        plan insert true (good ++ rest)
        = ((plan insert true rest).1.1,
           qs ++ (plan insert true rest).1.2,
           qs ++ (plan insert true rest).2).
Proof.
  induction good as [|line good IH]; cbn [forallb app].
  - intros _. exists []. split; [constructor|]. intros rest.
    by destruct (plan insert true rest) as [[? ?] ?].
  - unfold row_ok at 1. destruct (insert line) as [q|e] eqn:Eq; [|done].
    intros [Hv Hgood]%andb_prop. destruct (IH Hgood) as (qs & Hall & Hplan).
    exists (q :: qs). split; [by constructor|]. intros rest.
    cbn [plan]. rewrite Eq, Hv, Hplan. done.
Qed.

(** A list of records is got through to its end, or has a first record
    that is not got through. *)
Lemma first_not_ok {A} (ok : A → bool) (l : list A) :
  forallb ok l = true
  ∨ ∃ good bad rest,
      l = good ++ bad :: rest ∧ forallb ok good = true ∧ ok bad = false.
Proof.
  induction l as [|x l [IH|(good & bad & rest & -> & Hgood & Hbad)]].
  - by left.
  - destruct (ok x) eqn:Hx.
    + left. cbn. by rewrite Hx.
    + right. by exists [], x, l.
  - destruct (ok x) eqn:Hx.
    + right. exists (x :: good), bad, rest. cbn. by rewrite Hx.
    + right. by exists [], x, (good ++ bad :: rest).
Qed.

(** C3, as the code has it. For each of the three tables, when the table
    exists and [event_datafile_new.csv] is one header line followed by n
    records.  If the loop gets through every record (the fields it reads
    are there, int() and float() take them, the store takes the values),
    the insert cell completes having opened the file once and sent exactly
    n INSERT statements, one per record in file order, the header skipped.
    Otherwise there is a first record the loop does not get through: the
    cell raises there, the exception of the tuple if the tuple could not be
    built, the error of the store if it was built, sent and refused; the
    with-block closes the file, and by then the loop has sent one INSERT
    per record before that one, the refused INSERT too in the second case,
    and none for the records after.  One of the two is the case for every
    file. *)
Theorem load_one_insert_per_record insert table hdr lines w :
  (insert, table) ∈ loaders →
  w_fs w !! new_datafile = Some (hdr :: lines) →
  table_exists table (w_ks w) = true →
  (forallb (row_ok insert) lines = true →
   ∃ qs w',
     load_cell insert w = (Ok tt, w')
     ∧ w_trace w'
       = w_trace w ++ FileOpen new_datafile :: (Execute <$> qs)
           ++ [FileClose new_datafile]
     ∧ Forall2 (λ line q, insert line = Ok q ∧ is_insert q = true) lines qs
     ∧ length qs = length lines)
  ∧ (∀ good bad rest,
       lines = good ++ bad :: rest →
       forallb (row_ok insert) good = true →
       row_ok insert bad = false →
       ∃ qs w',
         load_cell insert w
         = (Raise (match insert bad with
                   | Raise e => e
                   | Ok _ => InvalidRequest
                   end), w')
         ∧ w_trace w'
           = w_trace w
             ++ FileOpen new_datafile
                :: (Execute <$> qs ++ match insert bad with
                                      | Ok q => [q]
                                      | Raise _ => []
                                      end)
             ++ [FileClose new_datafile]
         ∧ Forall2 (λ line q, insert line = Ok q ∧ is_insert q = true) good qs
         ∧ length qs = length good)
  ∧ (forallb (row_ok insert) lines = true
     ∨ ∃ good bad rest,
         lines = good ++ bad :: rest
         ∧ forallb (row_ok insert) good = true
         ∧ row_ok insert bad = false).
Proof.
  intros Hin Hfile Htable.
  apply inserts_into_loaders in Hin as Hins.
  split_and!; [| |apply first_not_ok].
  - intros Hrows.
    destruct (plan_all_ok insert lines Hrows) as (qs & Hplan & Hall).
    exists qs. eexists. rewrite (load_cell_outcome insert table) by done.
    unfold load_outcome. rewrite Hfile, Htable, Hplan. cbn [fst snd].
    split; [reflexivity|]. cbn [w_trace]. split; [done|]. split.
    + eapply Forall2_impl; [exact Hall|]. intros line q Hq. split; [done|].
      by destruct (Hins _ _ Hq).
    + symmetry. by eapply Forall2_length.
  - intros good bad rest -> Hgood Hbad.
    destruct (plan_app insert good Hgood) as (qs & Hall & Hplan).
    assert (Forall2 (λ line q, insert line = Ok q ∧ is_insert q = true)
              good qs) as Hall'.
    { eapply Forall2_impl; [exact Hall|]. intros line q Hq. split; [done|].
      by destruct (Hins _ _ Hq). }
    assert (length qs = length good) as Hlen
      by (symmetry; by eapply Forall2_length).
    unfold row_ok in Hbad. exists qs.
    rewrite (load_cell_outcome insert table) by done.
    unfold load_outcome. rewrite Hfile, Htable, Hplan. cbn [plan].
    destruct (insert bad) as [q|e].
    + rewrite Hbad. cbn [andb fst snd]. eexists. split; [reflexivity|].
      cbn [w_trace]. by rewrite ?app_nil_r.
    + cbn [fst snd]. eexists. split; [reflexivity|].
      cbn [w_trace]. by rewrite ?app_nil_r.
Qed.

(** ** The statements of the query phase *)

Lemma query_cell_trace q columns w :
  w_trace (query_cell q columns w).2 = w_trace w ++ [Execute q].
Proof.
  destruct w as [fs ks full rs tr].
  unfold query_cell, try_print. rewrite !bind_unfold.
  unfold session_execute at 1. cbn [w_fs w_ks w_full_data_rows_list w_rows w_trace].
  destruct (exec q ks) as [[rows|e] ks']; cbn.
  - reflexivity.
  - unfold get_rows. cbn. by destruct rs.
Qed.

(** C6, as the code has it. Each of the three query cells sends one
    statement, with no parameters: the comparison values of the WHERE
    clause are literals of the query text.  Only the INSERT statements of
    the load phase are parameterized, with one [%s] placeholder per value
    of the tuple passed beside the text. *)
Theorem selects_are_literal_queries :
  (∀ w, w_trace (query_1 w).2 = w_trace w ++ [Execute SelectArtistSongSession])
  ∧ (∀ w, w_trace (query_2 w).2 = w_trace w ++ [Execute SelectSongPlaylistSession])
  ∧ (∀ w, w_trace (query_3 w).2 = w_trace w ++ [Execute SelectUserSong])
  ∧ (∀ q, is_select q = true → query_params q = None)
  ∧ contains (query_text SelectArtistSongSession)
      "WHERE session_id=338 and item_in_session=4" = true
  ∧ contains (query_text SelectSongPlaylistSession)
      "WHERE user_id=10 and session_id=182" = true
  ∧ contains (query_text SelectUserSong)
      "WHERE song='All Hands Against His Own'" = true
  ∧ (∀ q, is_select q = true → placeholders (query_text q) = 0%nat)
  ∧ (∀ q, is_insert q = true →
       ∃ params, query_params q = Some params
                 ∧ placeholders (query_text q) = length params).
Proof.
  split_and!; try (intros w; apply query_cell_trace).
  - by intros [].
  - vm_compute. reflexivity.
  - vm_compute. reflexivity.
  - vm_compute. reflexivity.
  - intros []; try done; intros _; vm_compute; reflexivity.
  - intros []; try done; intros _; eexists; (split; [reflexivity|]);
      vm_compute; reflexivity.
Qed.

(** ** The CREATE TABLE statements *)


Lemma ks_catalog_create_table sc ks :
  ks_catalog (create_table sc ks) = create_catalog sc (ks_catalog ks).
Proof.
  unfold create_table, create_catalog, table_exists.
  destruct (ks_catalog ks !! sc_name sc) eqn:E.
  - by rewrite bool_decide_eq_true_2.
  - rewrite bool_decide_eq_false_2; [done|]. by intros [? ?].
Qed.

Lemma lookup_create_catalog sc c name :
  create_catalog sc c !! name
  = if decide (name = sc_name sc) then Some (default sc (c !! name))
    else c !! name.
Proof.
  unfold create_catalog. destruct (decide (name = sc_name sc)) as [->|Hne].
  - destruct (c !! sc_name sc) eqn:E; cbn; [done|]. by rewrite lookup_insert_eq.
  - destruct (c !! sc_name sc) eqn:E; [done|]. by rewrite lookup_insert_ne.
Qed.

(** Whatever an insert cell does, it only adds to the trace, and the
    statements it sends are INSERTs. *)
Lemma load_cell_sends_inserts insert table w :
  inserts_into insert table →
  ∃ seg, w_trace (load_cell insert w).2 = w_trace w ++ seg
         ∧ Forall (λ q, is_insert q = true) (executed seg).
Proof.
  intros Hins. rewrite (load_cell_outcome insert table) by done.
  unfold load_outcome. destruct (w_fs w !! new_datafile) as [[|hdr lines]|].
  - eexists. split; [reflexivity|]. constructor.
  - eexists. split; [reflexivity|]. cbn.
    rewrite executed_app, executed_Execute. cbn. rewrite app_nil_r.
    by eapply plan_sent_inserts.
  - exists []. rewrite app_nil_r. split; [done|]. constructor.
Qed.

Lemma filter_create_inserts qs :
  Forall (λ q, is_insert q = true) qs → filter is_create_table qs = [].
Proof.
  induction 1 as [|q qs Hq _ IH]; [done|].
  rewrite filter_cons, IH. by destruct q.
Qed.

Lemma filter_create_singleton ddl :
  filter is_create_table (executed [Execute (CreateTable ddl)])
  = [CreateTable ddl].
Proof. reflexivity. Qed.

(** C4. The transform phase sends exactly three CREATE TABLE statements:
    in every run the CREATE TABLE statements sent are, in order, those of
    artist_song_session, song_playlist_session and user_song, up to the cell
    at which the run stopped, and a run that completes has sent exactly the
    three.  Their texts declare the columns, partition keys and clustering
    keys listed in [schema_artist_song_session],
    [schema_song_playlist_session] and [schema_user_song]; after a completed
    run each of the three tables is in the catalog with that schema, unless
    it existed before, IF NOT EXISTS leaving an existing table as it is. *)
Theorem transform_creates_three_tables fs ks full rs tr :
  let run := transform (World fs ks full rs tr) in
  let three :=
    [CreateTable ddl_artist_song_session;
     CreateTable ddl_song_playlist_session; CreateTable ddl_user_song] in
  (∃ seg, w_trace run.2 = tr ++ seg
          ∧ filter is_create_table (executed seg) `prefix_of` three
          ∧ (run.1 = Ok tt → filter is_create_table (executed seg) = three))
  ∧ parse_create_table ddl_artist_song_session
    = Some (Schema "artist_song_session"
              [("session_id", CqlInt); ("item_in_session", CqlInt);
               ("artist", CqlText); ("song", CqlText); ("length", CqlDouble)]
              ["session_id"] ["item_in_session"])
  ∧ parse_create_table ddl_song_playlist_session
    = Some (Schema "song_playlist_session"
              [("user_id", CqlInt); ("session_id", CqlInt);
               ("item_in_session", CqlInt); ("artist", CqlText);
               ("song", CqlText); ("first_name", CqlText);
               ("last_name", CqlText)]
              ["user_id"; "session_id"] ["item_in_session"])
  ∧ parse_create_table ddl_user_song
    = Some (Schema "user_song"
              [("song", CqlText); ("user_id", CqlInt); ("first_name", CqlText);
               ("last_name", CqlText)]
              ["song"] ["user_id"])
  ∧ (run.1 = Ok tt →
     ∀ sc, sc ∈ [schema_artist_song_session; schema_song_playlist_session;
                 schema_user_song] →
       ks_catalog (w_ks run.2) !! sc_name sc
       = Some (default sc (ks_catalog ks !! sc_name sc))).
Proof.
  intros run three. subst run. unfold transform.
  rewrite bind_unfold,
    (create_table_cell_eq _ _ _ _ _ _ _ parse_ddl_artist_song_session).
  set (wa := World fs (create_table schema_artist_song_session ks) full rs _).
  destruct (load_cell_sends_inserts _ _ wa inserts_into_artist_song_session)
    as (seg1 & T1 & I1).
  pose proof (load_cell_catalog _ _ wa inserts_into_artist_song_session) as C1.
  rewrite bind_unfold.
  destruct (load_cell insert_artist_song_session wa) as [[[]|e1] wb];
    subst wa; cbn [fst snd w_trace w_ks] in *.
  2:{ split_and!; [|reflexivity..|done].
      exists ([Execute (CreateTable ddl_artist_song_session)] ++ seg1).
      rewrite T1, <- app_assoc. split; [done|]. split; [|done].
      rewrite executed_app, filter_app, filter_create_singleton,
        filter_create_inserts by done.
      by eexists. }
  destruct wb as [fsb ksb fullb rsb trb]. cbn [w_trace w_ks] in *.
  rewrite bind_unfold,
    (create_table_cell_eq _ _ _ _ _ _ _ parse_ddl_song_playlist_session).
  set (wc := World fsb (create_table schema_song_playlist_session ksb) fullb rsb _).
  destruct (load_cell_sends_inserts _ _ wc inserts_into_song_playlist_session)
    as (seg2 & T2 & I2).
  pose proof (load_cell_catalog _ _ wc inserts_into_song_playlist_session) as C2.
  rewrite bind_unfold.
  destruct (load_cell insert_song_playlist_session wc) as [[[]|e2] wd];
    subst wc; cbn [fst snd w_trace w_ks] in *.
  2:{ split_and!; [|reflexivity..|done].
      eexists. rewrite T2, T1, <- !app_assoc. split; [reflexivity|].
      split; [|done].
      rewrite !executed_app, !filter_app, !filter_create_singleton,
        !filter_create_inserts by done.
      by eexists. }
  destruct wd as [fsd ksd fulld rsd trd]. cbn [w_trace w_ks] in *.
  rewrite bind_unfold, (create_table_cell_eq _ _ _ _ _ _ _ parse_ddl_user_song).
  set (we := World fsd (create_table schema_user_song ksd) fulld rsd _).
  destruct (load_cell_sends_inserts _ _ we inserts_into_user_song)
    as (seg3 & T3 & I3).
  pose proof (load_cell_catalog _ _ we inserts_into_user_song) as C3.
  destruct (load_cell insert_user_song we) as [r3 wf];
    subst we; cbn [fst snd w_trace w_ks] in *.
  split_and!; [|reflexivity..|].
  - eexists. rewrite T3, T2, T1, <- !app_assoc. split; [reflexivity|].
    rewrite !executed_app, !filter_app, !filter_create_singleton,
      !filter_create_inserts by done.
    by split.
  - intros _.
    rewrite C3, ks_catalog_create_table, C2, ks_catalog_create_table, C1,
      ks_catalog_create_table.
    intros sc. rewrite !elem_of_cons, elem_of_nil.
    intros [->|[->|[->|[]]]]; rewrite !lookup_create_catalog; reflexivity.
Qed.

(** ** Running the insert loops again *)

Lemma insert_row_absorb q q' t :
  primary_key_of q = primary_key_of q' →
  insert_row q (insert_row q' t) = insert_row q t.
Proof.
  destruct q, q'; cbn; intros [=]; subst; try done;
    f_equal; apply table_insert_absorb.
Qed.

Lemma insert_row_comm q q' t :
  primary_key_of q ≠ primary_key_of q' →
  insert_row q (insert_row q' t) = insert_row q' (insert_row q t).
Proof.
  destruct q, q'; cbn; intros Hne; try done;
    f_equal; apply table_insert_comm; congruence.
Qed.

(** Replaying a list of accepted INSERTs over its own result changes
    nothing: every primary key ends up with the values of its last INSERT
    both times. *)
Lemma replay_inserts qs t :
  foldl (flip insert_row) (foldl (flip insert_row) t qs) qs
  = foldl (flip insert_row) t qs.
Proof.
  apply (replay_idempotent insert_row primary_key_of).
  - intros x y s. apply insert_row_absorb.
  - intros x y s. apply insert_row_comm.
Qed.

(** What an insert cell does depends on the file and on whether its table
    exists, and on nothing else: the same records are accepted, and the
    cell ends the same way. *)
Lemma load_cell_run insert table w :
  inserts_into insert table →
  ∃ accepted,
    ∀ w', w_fs w' = w_fs w →
      table_exists table (w_ks w') = table_exists table (w_ks w) →
      (load_cell insert w').1 = (load_cell insert w).1
      ∧ w_fs (load_cell insert w').2 = w_fs w
      ∧ ks_catalog (w_ks (load_cell insert w').2) = ks_catalog (w_ks w')
      ∧ ks_tables (w_ks (load_cell insert w').2)
        = foldl (flip insert_row) (ks_tables (w_ks w')) accepted.
Proof.
  intros Hins.
  destruct (w_fs w !! new_datafile) as [[|hdr lines]|] eqn:Efile.
  - exists []. intros w' Hfs Hex.
    rewrite !(load_cell_outcome insert table) by done.
    unfold load_outcome. rewrite Hfs, Efile. done.
  - exists (plan insert (table_exists table (w_ks w)) lines).1.2.
    intros w' Hfs Hex.
    rewrite !(load_cell_outcome insert table) by done.
    unfold load_outcome. rewrite Hfs, Efile, Hex. done.
  - exists []. intros w' Hfs Hex.
    rewrite !(load_cell_outcome insert table) by done.
    unfold load_outcome. rewrite Hfs, Efile. done.
Qed.

Lemma keyspace_eq ks ks' :
  ks_catalog ks = ks_catalog ks' → ks_tables ks = ks_tables ks' → ks = ks'.
Proof. destruct ks, ks'. cbn. by intros -> ->. Qed.

(** C9. After the transform phase has run on any file and any keyspace,
    however it ended, running the three insert loops again over the same
    file leaves the keyspace, and so the contents of all three tables,
    as it was: the same records are accepted, every one writes the same
    primary key as before, and an INSERT on an existing primary key
    replaces the row. *)
Theorem load_phase_idempotent w0 :
  w_ks (load_phase (transform w0).2).2 = w_ks (transform w0).2.
Proof.
  destruct w0 as [fs ks full rs tr]. unfold transform.
  rewrite bind_unfold,
    (create_table_cell_eq _ _ _ _ _ _ _ parse_ddl_artist_song_session).
  set (wa := World fs (create_table schema_artist_song_session ks) full rs _).
  destruct (load_cell_run _ _ wa inserts_into_artist_song_session)
    as (acc1 & R1).
  destruct (R1 wa eq_refl eq_refl) as (_ & F1 & C1 & T1).
  assert (table_exists "artist_song_session" (w_ks wa) = true) as X1
    by apply (table_exists_create_table schema_artist_song_session).
  rewrite bind_unfold.
  destruct (load_cell insert_artist_song_session wa) as [[[]|e1] wb] eqn:E1;
    cbn [fst snd] in *.
  2:{ (* the first loop raised *)
    unfold load_phase. rewrite bind_unfold.
    destruct (R1 wb) as (Hr & _ & C1' & T1'); [done|..].
    { unfold table_exists. by rewrite C1. }
    destruct (load_cell insert_artist_song_session wb) as [[[]|e1'] wb'];
      cbn in *; [done|].
    apply keyspace_eq; [done|]. by rewrite T1', T1, replay_inserts. }
  destruct wb as [fsb ksb fullb rsb trb]. cbn in F1, C1, T1. subst fsb.
  rewrite bind_unfold,
    (create_table_cell_eq _ _ _ _ _ _ _ parse_ddl_song_playlist_session).
  set (wc := World fs (create_table schema_song_playlist_session ksb) fullb rsb _).
  destruct (load_cell_run _ _ wc inserts_into_song_playlist_session)
    as (acc2 & R2).
  destruct (R2 wc eq_refl eq_refl) as (_ & F2 & C2 & T2).
  assert (table_exists "artist_song_session" (w_ks wc) = true) as Y1.
  { apply table_exists_create_table_mono. unfold table_exists. by rewrite C1. }
  assert (table_exists "song_playlist_session" (w_ks wc) = true) as Y2
    by apply (table_exists_create_table schema_song_playlist_session).
  rewrite bind_unfold.
  destruct (load_cell insert_song_playlist_session wc) as [[[]|e2] wd] eqn:E2;
    cbn [fst snd] in *.
  2:{ (* the second loop raised *)
    unfold load_phase. rewrite bind_unfold.
    destruct (R1 wd) as (Hr1 & F1' & C1' & T1'); [done|..].
    { rewrite X1. unfold table_exists. by rewrite C2. }
    destruct (load_cell insert_artist_song_session wd) as [[[]|?] wd1];
      cbn in *; [|done].
    rewrite bind_unfold.
    destruct (R2 wd1) as (Hr2 & _ & C2' & T2'); [done|..].
    { rewrite Y2. unfold table_exists. by rewrite C1', C2. }
    destruct (load_cell insert_song_playlist_session wd1) as [[[]|?] wd2];
      cbn in *; [done|].
    apply keyspace_eq; [congruence|].
    rewrite T2', T1', T2, ks_tables_create_table, T1.
    rewrite <- !(foldl_app _ acc1 acc2). apply replay_inserts. }
  destruct wd as [fsd ksd fulld rsd trd]. cbn in F2, C2, T2. subst fsd.
  rewrite bind_unfold,
    (create_table_cell_eq _ _ _ _ _ _ _ parse_ddl_user_song).
  set (we := World fs (create_table schema_user_song ksd) fulld rsd _).
  destruct (load_cell_run _ _ we inserts_into_user_song) as (acc3 & R3).
  destruct (R3 we eq_refl eq_refl) as (_ & F3 & C3 & T3).
  assert (table_exists "artist_song_session" (w_ks we) = true) as Z1.
  { apply table_exists_create_table_mono. unfold table_exists. by rewrite C2. }
  assert (table_exists "song_playlist_session" (w_ks we) = true) as Z2.
  { apply table_exists_create_table_mono. unfold table_exists. by rewrite C2. }
  assert (table_exists "user_song" (w_ks we) = true) as Z3
    by apply (table_exists_create_table schema_user_song).
  destruct (load_cell insert_user_song we) as [r3 wf] eqn:E3. cbn [fst snd] in *.
  unfold load_phase. rewrite bind_unfold.
  destruct (R1 wf) as (Hr1 & F1' & C1' & T1'); [done|..].
  { rewrite X1. unfold table_exists. by rewrite C3. }
  destruct (load_cell insert_artist_song_session wf) as [[[]|?] wf1];
    cbn in *; [|done].
  rewrite bind_unfold.
  destruct (R2 wf1) as (Hr2 & F2' & C2' & T2'); [done|..].
  { rewrite Y2. unfold table_exists. by rewrite C1', C3. }
  destruct (load_cell insert_song_playlist_session wf1) as [[[]|?] wf2];
    cbn in *; [|done].
  destruct (R3 wf2) as (_ & _ & C3' & T3'); [done|..].
  { rewrite Z3. unfold table_exists. by rewrite C2', C1', C3. }
  apply keyspace_eq; [congruence|].
  rewrite T3', T2', T1', T3, ks_tables_create_table, T2,
    ks_tables_create_table, T1.
  rewrite <- !(foldl_app _ acc1 acc2), <- !(foldl_app _ (acc1 ++ acc2) acc3).
  apply replay_inserts.
Qed.

(** ** The two designs of the second table *)



Lemma Z_compare_ck (a b : Z) : ck_compare a b = (a ?= b).
Proof. reflexivity. Qed.

Lemma session_slice_above {V} s (p : list ((Z * Z) * V)) :
  Forall (λ r, s < r.1.1) p → session_slice s p = [].
Proof.
  unfold session_slice. induction 1 as [|r p Hr _ IH]; [done|].
  rewrite filter_cons, decide_False by lia. done.
Qed.

Lemma session_slice_cons {V} s (r : (Z * Z) * V) p :
  session_slice s (r :: p)
  = if decide (r.1.1 = s) then by_session r :: session_slice s p
    else session_slice s p.
Proof. unfold session_slice. rewrite filter_cons. by case_decide. Qed.

(** An INSERT into a partition of [question_2] is an INSERT into the slice
    of its session and leaves the other slices alone. *)
Lemma session_slice_upsert {V} s0 i0 (v0 : V) s p :
  ascending p →
  session_slice s (upsert (s0, i0) v0 p)
  = if decide (s0 = s) then upsert i0 v0 (session_slice s p)
    else session_slice s p.
Proof.
  unfold ascending. induction 1 as [|[[s' i'] v'] p Hp IH Hall].
  - cbn [upsert]. rewrite session_slice_cons. cbn. by case_decide.
  - cbn [upsert]. rewrite pair_compare. cbn [fst snd].
    rewrite Z_compare_ck.
    destruct (Z.compare_spec s0 s') as [->|Hlt|Hgt]; cbv iota.
    + rewrite Z_compare_ck.
      destruct (Z.compare_spec i0 i') as [->|Hlt|Hgt]; cbv iota.
      * rewrite !session_slice_cons. cbn [fst snd].
        destruct (decide (s' = s)) as [<-|Hne]; [|done].
        unfold by_session. cbn [fst snd upsert].
        rewrite ?Z_compare_ck. by rewrite Z.compare_refl.
      * rewrite !session_slice_cons. cbn [fst snd].
        destruct (decide (s' = s)) as [<-|Hne]; [|done].
        unfold by_session. cbn [fst snd upsert].
        rewrite ?Z_compare_ck.
        by rewrite (proj2 (Z.compare_lt_iff i0 i')).
      * rewrite !session_slice_cons, IH. cbn [fst snd].
        destruct (decide (s' = s)) as [<-|Hne]; [|done].
        unfold by_session. cbn [fst snd upsert].
        rewrite ?Z_compare_ck.
        by rewrite (proj2 (Z.compare_gt_iff i0 i')) by lia.
    + rewrite !session_slice_cons. cbn [fst snd by_session].
      assert (session_slice s0 p = []) as Hempty.
      { apply session_slice_above. eapply Forall_impl; [exact Hall|].
        intros [[s'' i''] v'']. cbn. rewrite pair_compare. cbn.
        rewrite ?Z_compare_ck.
        destruct (Z.compare_spec s' s''); (done || lia). }
      destruct (decide (s0 = s)) as [<-|Hne].
      * rewrite decide_False by lia. by rewrite Hempty.
      * done.
    + rewrite !session_slice_cons, IH. cbn [fst snd by_session].
      destruct (decide (s0 = s)) as [<-|Hne]; [|done].
      by rewrite !decide_False by lia.
Qed.



Lemma same_rows_insert t tq q :
  tables_wf tq → same_rows t tq →
  match q with InsertQuestion2 _ _ _ _ _ _ _ => True | _ => False end →
  same_rows (insert_row (as_song_playlist_session q) t) (insert_row q tq).
Proof.
  intros (_ & _ & _ & Hwf) Hsame.
  destruct q as [| | | | |artist song sid item uid first last| | | | | |];
    try done.
  intros _ u s. cbn. rewrite !table_partition_insert.
  destruct (decide (uid = u)) as [<-|Hu].
  - rewrite session_slice_upsert by apply Hwf. rewrite Hsame.
    destruct (decide (sid = s)) as [<-|Hs].
    + by rewrite decide_True.
    + rewrite decide_False by congruence. done.
  - rewrite decide_False by congruence. apply Hsame.
Qed.


(** The two insert loops read the same seven fields of a record, in a
    different order: they build corresponding statements, or both fail. *)
Lemma insert_question_2_corresponds line :
  match insert_question_2 line with
  | Ok q =>
      is_insert_question_2 q
      ∧ insert_song_playlist_session line = Ok (as_song_playlist_session q)
  | Raise _ => ∃ e, insert_song_playlist_session line = Raise e
  end.
Proof.
  unfold insert_question_2, insert_song_playlist_session, mbind, result_bind,
    mret, result_ret.
  destruct (index line 0); destruct (index line 9);
    destruct (index line 8) as [x8|]; try destruct (to_int x8);
    destruct (index line 3) as [x3|]; try destruct (to_int x3);
    destruct (index line 10) as [x10|]; try destruct (to_int x10);
    destruct (index line 1); destruct (index line 4); cbn; eauto.
Qed.

Lemma valid_as_song_playlist_session q :
  is_insert_question_2 q → valid (as_song_playlist_session q) = valid q.
Proof.
  destruct q; try done. intros _. cbn.
  by destruct (int32 session_id), (int32 item_in_session), (int32 user_id).
Qed.

Lemma plan_corresponds lines :
  (plan insert_song_playlist_session true lines).1.2
  = as_song_playlist_session <$> (plan insert_question_2 true lines).1.2
  ∧ Forall is_insert_question_2 (plan insert_question_2 true lines).1.2.
Proof.
  induction lines as [|line lines [IH1 IH2]]; cbn [plan]; [by split|].
  pose proof (insert_question_2_corresponds line) as Hc.
  destruct (insert_question_2 line) as [q|e].
  - destruct Hc as [Hq ->]. rewrite valid_as_song_playlist_session by done.
    cbn [andb]. destruct (valid q); [|by split].
    destruct (plan insert_question_2 true lines) as [[r acc] sent].
    destruct (plan insert_song_playlist_session true lines) as [[r' acc'] sent'].
    cbn in *. subst acc'. split; [done|]. by constructor.
  - destruct Hc as [e' ->]. by split.
Qed.

Lemma same_rows_replay t tq qs :
  tables_wf tq → same_rows t tq → Forall is_insert_question_2 qs →
  same_rows (foldl (flip insert_row) t (as_song_playlist_session <$> qs))
    (foldl (flip insert_row) tq qs).
Proof.
  intros Hwf Hsame Hqs. revert t tq Hwf Hsame.
  induction Hqs as [|q qs Hq _ IH]; intros t tq Hwf Hsame; [done|].
  cbn. apply IH; [by apply tables_wf_insert_row|]. by apply same_rows_insert.
Qed.

Lemma same_rows_answers t tq :
  same_rows t tq → answer_2 t = answer_question_2 tq.
Proof.
  intros Hsame. unfold answer_2, answer_question_2.
  rewrite <- (Hsame 10 182). unfold session_slice.
  rewrite <- list_fmap_compose. apply list_fmap_ext.
  by intros _ [[sid item] [[[artist song] first] last]] _.
Qed.


Lemma create_then_load ddl sc insert fs ks :
  parse_create_table ddl = Some sc →
  inserts_into insert (sc_name sc) →
  let w := ((create_table_cell ddl ;; load_cell insert)
              (initial_world fs ks)).2 in
  table_exists (sc_name sc) (w_ks w) = true
  ∧ ks_tables (w_ks w)
    = foldl (flip insert_row) (ks_tables ks) (accepted_from insert fs).
Proof.
  intros Hddl Hins. unfold initial_world. cbn zeta.
  rewrite bind_unfold, (create_table_cell_eq _ _ _ _ _ _ _ Hddl).
  rewrite (load_cell_outcome insert (sc_name sc)) by done.
  unfold load_outcome, accepted_from.
  cbn [w_fs w_ks w_full_data_rows_list w_rows w_trace].
  rewrite table_exists_create_table.
  destruct (fs !! new_datafile) as [[|hdr lines]|]; cbn;
    rewrite ?ks_tables_create_table; (split; [|done]).
  - apply table_exists_create_table.
  - unfold table_exists. cbn. apply table_exists_create_table.
  - apply table_exists_create_table.
Qed.

(** C8. For every file system, hence every [event_datafile_new.csv]:
    creating and loading [question_2] on a fresh keyspace and running the
    first version's query 2 prints the same lines, in the same order, as
    creating and loading [song_playlist_session] and running the final
    version's query 2; and the lines come in strictly ascending order of
    item_in_session. *)
Theorem question_2_equivalent (fs : gmap string (list row)) :
  let w1 := (transform_question_2 (initial_world fs empty_keyspace)).2 in
  let w2 :=
    (transform_song_playlist_session (initial_world fs empty_keyspace)).2 in
  ∃ data items,
    (query_question_2 w1).1 = Ok data
    ∧ (query_2 w2).1 = Ok data
    ∧ item_in_session_column data = (λ i, Some (VInt i)) <$> items
    ∧ StronglySorted Z.lt items.
Proof.
  intros w1 w2.
  destruct (create_then_load _ _ insert_question_2 fs empty_keyspace
              parse_ddl_question_2 inserts_into_question_2) as [X1 T1].
  destruct (create_then_load _ _ insert_song_playlist_session fs empty_keyspace
              parse_ddl_song_playlist_session
              inserts_into_song_playlist_session) as [X2 T2].
  fold transform_question_2 in X1, T1. fold w1 in X1, T1.
  fold transform_song_playlist_session in X2, T2. fold w2 in X2, T2.
  destruct w1 as [fs1 ks1 full1 rs1 tr1], w2 as [fs2 ks2 full2 rs2 tr2].
  cbn [w_ks sc_name schema_question_2 schema_song_playlist_session] in *.
  assert (same_rows (ks_tables ks2) (ks_tables ks1)) as Hsame.
  { rewrite T1, T2. unfold accepted_from.
    destruct (fs !! new_datafile) as [[|hdr lines]|]; try done.
    destruct (plan_corresponds lines) as [-> Hq2].
    apply same_rows_replay; [apply tables_wf_empty|done|done]. }
  assert (tables_wf (ks_tables ks2)) as (_ & Hwf & _).
  { rewrite T2. apply tables_wf_replay, tables_wf_empty. }
  exists (answer_2 (ks_tables ks2)),
    (table_partition (10, 182) (song_playlist_session (ks_tables ks2))).*1.
  split_and!.
  - rewrite query_question_2_answer by done. cbn [fst].
    by rewrite (same_rows_answers _ _ Hsame).
  - by rewrite query_2_answer.
  - unfold item_in_session_column, answer_2. rewrite <- !list_fmap_compose.
    apply list_fmap_ext. by intros _ [item [[[artist song] first] last]] _.
  - apply ascending_keys_lt. apply Hwf.
Qed.

(** ** Files and connections *)

Lemma resources_after_snoc tr e :
  resources_after (tr ++ [e]) = observe (resources_after tr) e.
Proof. unfold resources_after. by rewrite foldl_app. Qed.

Lemma safe_nil : safe [].
Proof. intros p Hp. apply prefix_nil_inv in Hp as ->. split; cbn; lia. Qed.

Lemma safe_snoc tr e :
  safe tr → within_bounds (resources_after (tr ++ [e])) → safe (tr ++ [e]).
Proof.
  intros Hs Hb p [k Hk]. destruct k as [|x k _] using rev_ind.
  - rewrite app_nil_r in Hk. by subst p.
  - rewrite app_assoc in Hk. apply app_inj_tail in Hk as [-> _].
    apply Hs. by eexists.
Qed.

Lemma holding_bounds r w : holding r w → within_bounds r.
Proof. intros [Hs <-]. by apply Hs. Qed.

(** A step that adds nothing to the trace holds what was held. *)
Lemma holding_silent {A} (m : M A) r :
  (∀ w, w_trace (m w).2 = w_trace w) →
  triple (holding r) m (λ _, holding r) (holding r).
Proof.
  intros Hm w Hw. specialize (Hm w). unfold holding in *.
  destruct (m w) as [[a|e] w']; cbn in Hm; by rewrite Hm.
Qed.

Lemma holding_emit e r :
  within_bounds (observe r e) →
  triple (holding r) (emit e) (λ _, holding (observe r e)) (holding r).
Proof.
  intros Hb w [Hs Hr]. unfold emit, holding. cbn.
  rewrite resources_after_snoc, Hr. split; [|done].
  apply safe_snoc; [done|]. by rewrite resources_after_snoc, Hr.
Qed.

Lemma holding_session_execute {A} q r (k : list named_row → M A) Q E :
  (∀ rs, triple (holding r) (k rs) Q E) →
  (∀ w, holding r w → E w) →
  triple (holding r) (session_execute q ≫= k) Q E.
Proof.
  intros Hk HE. eapply triple_bind; [|exact Hk].
  intros w Hw. pose proof (holding_bounds _ _ Hw) as Hb.
  destruct Hw as [Hs Hr]. unfold session_execute.
  assert (holding r (World (w_fs w) (exec q (w_ks w)).2
            (w_full_data_rows_list w) (w_rows w) (w_trace w ++ [Execute q])))
    as Hw'.
  { split; cbn; [|by rewrite resources_after_snoc, Hr].
    apply safe_snoc; [done|]. by rewrite resources_after_snoc, Hr. }
  destruct (exec q (w_ks w)) as [[rows|e] ks']; cbn in *; [done|by apply HE].
Qed.


(** A with-block that starts with no file open runs its body with one file
    open and ends with none, whether the body raises or not. *)
Lemma holding_with_open_read {A} path (body : list row → M A) c n m :
  (c ≤ 1)%nat →
  (∀ rs, triple (holding (reading c n m)) (body rs)
           (λ _, holding (reading c n m)) (holding (reading c n m))) →
  triple (holding (idle c n m)) (with_open_read path body)
    (λ _, holding (idle c n m)) (holding (idle c n m)).
Proof.
  intros Hc Hbody. unfold with_open_read.
  eapply triple_bind with (R := λ _, holding (reading c n m)).
  - intros w Hw. unfold open_read. destruct (w_fs w !! path); [|done].
    pose proof (holding_emit (FileOpen path) (idle c n m)) as He.
    specialize (He ltac:(split; cbn; lia) w Hw). exact He.
  - intros rs. eapply triple_finally; [apply Hbody|intros a|].
    + apply (holding_emit (FileClose path) (reading c n m)). split; cbn; lia.
    + apply (holding_emit (FileClose path) (reading c n m)). split; cbn; lia.
Qed.

Lemma holding_with_open_write {A} path (body : M A) c n m :
  (c ≤ 1)%nat →
  triple (holding (reading c n m)) body
    (λ _, holding (reading c n m)) (holding (reading c n m)) →
  triple (holding (idle c n m)) (with_open_write path body)
    (λ _, holding (idle c n m)) (holding (idle c n m)).
Proof.
  intros Hc Hbody. unfold with_open_write.
  eapply triple_bind with (R := λ _, holding (reading c n m)).
  - intros w [Hs Hr]. unfold open_write, emit, holding. cbn.
    rewrite resources_after_snoc, Hr. split; [|done].
    apply safe_snoc; [done|]. rewrite resources_after_snoc, Hr.
    split; cbn; lia.
  - intros _. eapply triple_finally; [apply Hbody|intros a|].
    + apply (holding_emit (FileClose path) (reading c n m)). split; cbn; lia.
    + apply (holding_emit (FileClose path) (reading c n m)). split; cbn; lia.
Qed.

Lemma calm_silent {A} (m : M A) :
  (∀ w, w_trace (m w).2 = w_trace w) → calm m.
Proof. intros Hm r. by apply holding_silent. Qed.

Lemma calm_bind {A B} (m : M A) (k : A → M B) :
  calm m → (∀ a, calm (k a)) → calm (m ≫= k).
Proof. intros Hm Hk r. eapply triple_bind; [apply Hm|intros a; apply Hk]. Qed.

Lemma calm_for_each {A} (xs : list A) body :
  (∀ x, calm (body x)) → calm (for_each xs body).
Proof. intros Hb r. apply triple_for_each. intros x. apply Hb. Qed.

Lemma calm_try_print m : calm m → calm (try_print m).
Proof. intros Hm r. apply triple_try_print, Hm. Qed.

Lemma calm_ret {A} (a : A) : calm (mret a).
Proof. by apply calm_silent. Qed.

Lemma calm_lift {A} (r : result A) : calm (lift r).
Proof. by apply calm_silent. Qed.

Lemma calm_session_execute q : calm (session_execute q).
Proof.
  intros r w Hw.
  pose proof (holding_session_execute q r mret (λ _, holding r) (holding r)
                (λ rs, calm_ret rs r) (λ _ H, H) w Hw) as H.
  rewrite bind_unfold in H. by destruct (session_execute q w) as [[rs|e] w'].
Qed.

(** An event that opens and closes nothing. *)
Lemma calm_emit e : (∀ r, observe r e = r) → calm (emit e).
Proof.
  intros He r w Hw. pose proof (holding_bounds _ _ Hw) as Hb.
  pose proof (holding_emit e r) as H. rewrite He in H. by apply H.
Qed.

Lemma calm_write_event r : calm (write_event r).
Proof.
  apply calm_bind; [apply calm_lift|]. intros artist.
  destruct (String.eqb artist ""); [apply calm_ret|].
  apply calm_bind; [apply calm_lift|]. intros fields. by apply calm_silent.
Qed.

Lemma calm_send (insert : row → result statement) line :
  calm (q ← lift (insert line); session_execute q ;; mret tt).
Proof.
  apply calm_bind; [apply calm_lift|]. intros q.
  apply calm_bind; [apply calm_session_execute|]. intros _. apply calm_ret.
Qed.

Lemma calm_create_table_cell ddl : calm (create_table_cell ddl).
Proof.
  apply calm_try_print, calm_bind; [apply calm_session_execute|].
  intros _. apply calm_ret.
Qed.

Lemma calm_query_cell q columns : calm (query_cell q columns).
Proof.
  apply calm_bind.
  - apply calm_try_print, calm_bind; [apply calm_session_execute|].
    intros rs. by apply calm_silent.
  - intros _. apply calm_bind.
    + apply calm_silent. intros w. unfold get_rows. by case_match.
    + intros rs. apply calm_lift.
Qed.

Lemma calm_drop_cell : calm drop_cell.
Proof.
  apply calm_for_each. intros table.
  apply calm_try_print, calm_bind; [apply calm_session_execute|].
  intros _. apply calm_ret.
Qed.

Lemma tidy_calm {A} (m : M A) : calm m → tidy m.
Proof. intros Hm c n m' _. apply Hm. Qed.

Lemma tidy_bind {A B} (m : M A) (k : A → M B) :
  tidy m → (∀ a, tidy (k a)) → tidy (m ≫= k).
Proof.
  intros Hm Hk c n m' Hc.
  eapply triple_bind; [by apply Hm|intros a; by apply Hk].
Qed.

Lemma tidy_for_each {A} (xs : list A) body :
  (∀ x, tidy (body x)) → tidy (for_each xs body).
Proof. intros Hb c n m' Hc. apply triple_for_each. intros x. by apply Hb. Qed.

Lemma tidy_with_open_read {A} path (body : list row → M A) :
  (∀ rs, calm (body rs)) → tidy (with_open_read path body).
Proof.
  intros Hb c n m' Hc. apply holding_with_open_read; [done|].
  intros rs. apply Hb.
Qed.

Lemma tidy_load_cell insert : tidy (load_cell insert).
Proof.
  apply tidy_with_open_read. intros rs.
  apply calm_bind; [apply calm_lift|]. intros [_ lines].
  apply calm_for_each. intros line. apply calm_send.
Qed.

Lemma tidy_extract_cell file_path_list : tidy (extract_cell file_path_list).
Proof.
  apply tidy_bind.
  - apply tidy_bind; [by apply tidy_calm, calm_silent|]. intros _.
    apply tidy_for_each. intros f. apply tidy_with_open_read. intros rs.
    apply calm_bind; [apply calm_lift|]. intros [_ lines].
    apply calm_for_each. intros line. by apply calm_silent.
  - intros _ c n m' Hc. apply holding_with_open_write; [done|].
    apply calm_bind; [by apply calm_silent|]. intros _.
    apply calm_bind; [by apply calm_silent|]. intros rows.
    apply calm_for_each. intros r. apply calm_write_event.
Qed.

Lemma tidy_transform : tidy transform.
Proof.
  unfold transform.
  repeat (apply tidy_bind;
          [apply tidy_calm, calm_create_table_cell || apply tidy_load_cell
          |intros _]).
  apply tidy_load_cell.
Qed.

Lemma tidy_then {A B} (m : M A) (k : A → M B) c n m' Q (E : world → Prop) :
  (c ≤ 1)%nat →
  tidy m →
  (∀ w, holding (idle c n m') w → E w) →
  (∀ a, triple (holding (idle c n m')) (k a) Q E) →
  triple (holding (idle c n m')) (m ≫= k) Q E.
Proof.
  intros Hc Hm HE Hk. eapply triple_bind; [|exact Hk].
  eapply triple_weaken; [by apply Hm|done|done|exact HE].
Qed.

Lemma run_all_holding file_path_list :
  triple (holding (idle 0 0 0)) (run_all file_path_list)
    (λ _, holding (idle 0 1 1)) stopped.
Proof.
  unfold run_all.
  apply tidy_then; [lia|apply tidy_extract_cell|by left|intros _].
  apply tidy_then; [lia| |by left|intros _].
  { apply tidy_with_open_read. intros rs. apply calm_ret. }
  eapply triple_bind with (R := λ _, holding (idle 1 1 0)).
  { apply (holding_emit ClusterConnect (idle 0 0 0)). split; cbn; lia. }
  intros _.
  apply tidy_then; [lia| |by right|intros _].
  { apply tidy_calm, calm_try_print, calm_bind; [apply calm_session_execute|].
    intros _. apply calm_ret. }
  apply tidy_then; [lia| |by right|intros _].
  { by apply tidy_calm, calm_try_print, calm_emit. }
  apply tidy_then; [lia|apply tidy_transform|by right|intros _].
  apply tidy_then; [lia|apply tidy_calm, calm_query_cell|by right|intros _].
  apply tidy_then; [lia|apply tidy_calm, calm_query_cell|by right|intros _].
  apply tidy_then; [lia|apply tidy_calm, calm_query_cell|by right|intros _].
  apply tidy_then; [lia|apply tidy_calm, calm_drop_cell|by right|intros _].
  unfold shutdown_cell.
  eapply triple_bind with (R := λ _, holding (idle 1 1 0)).
  { eapply triple_weaken;
      [apply (holding_emit SessionShutdown (idle 1 1 0)); split; cbn; lia
      |done|done|by right]. }
  intros _. eapply triple_weaken;
    [apply (holding_emit ClusterShutdown (idle 1 1 0)); split; cbn; lia
    |done|done|by right].
Qed.

(** C7. In a run of the whole notebook, on any files and any keyspace, at
    no point are more than one file or more than one cluster connection
    open.  Every with-block closes its file before the next is opened: an
    insert cell opens the new file once, around its INSERTs, and whatever
    way the run ends no file is left open.  The connection is opened at
    most once, after the extract phase, and a run that completes has opened
    it once and shut it down once, at the end. *)
Theorem one_file_one_connection file_path_list fs ks :
  let run := run_all file_path_list (initial_world fs ks) in
  (∀ p, p `prefix_of` w_trace run.2 → within_bounds (resources_after p))
  ∧ open_files (resources_after (w_trace run.2)) = 0%nat
  ∧ (connects (resources_after (w_trace run.2)) ≤ 1)%nat
  ∧ (run.1 = Ok tt →
     resources_after (w_trace run.2) = Resources 0 0 1 1)
  ∧ (∀ insert w,
       (∃ table, inserts_into insert table) →
       ∃ qs, w_trace (load_cell insert w).2 = w_trace w
             ∨ w_trace (load_cell insert w).2
               = w_trace w ++ FileOpen new_datafile :: (Execute <$> qs)
                   ++ [FileClose new_datafile]).
Proof.
  intros run.
  pose proof (run_all_holding file_path_list (initial_world fs ks)) as H.
  fold run in H. specialize (H (conj safe_nil eq_refl)).
  split_and!.
  - destruct run as [[[]|e] w]; [by destruct H|]. by destruct H as [[? _]|[? _]].
  - destruct run as [[[]|e] w]; cbn; [by destruct H as [_ ->]|].
    by destruct H as [[_ ->]|[_ ->]].
  - destruct run as [[[]|e] w]; cbn; [by destruct H as [_ ->]|].
    destruct H as [[_ ->]|[_ ->]]; cbn; lia.
  - destruct run as [[[]|e] w]; cbn; [|done]. by destruct H as [_ ->].
  - intros insert w [table Hins].
    rewrite (load_cell_outcome insert table) by done. unfold load_outcome.
    destruct (w_fs w !! new_datafile) as [[|hdr lines]|]; cbn.
    + exists []. by right.
    + eexists. by right.
    + exists []. by left.
Qed.

(** ** The listing of the event files *)

Lemma entry_ind_nested (P : entry → Prop) :
  (∀ name, P (File name)) →
  (∀ name entries, Forall P entries → P (Folder name entries)) →
  ∀ e, P e.
Proof.
  intros HF HD. fix IH 1. intros [name|name entries]; [apply HF|].
  apply HD. induction entries as [|c cs IHcs]; constructor; [apply IH|exact IHcs].
Qed.

Lemma foldl_rebind {A B} (g : A → B) (l : list A) (o : option B) :
  foldl (λ _ d, Some (g d)) o l
  = match last l with Some d => Some (g d) | None => o end.
Proof.
  revert o. induction l as [|d l IH]; intros o; [done|].
  cbn [foldl]. rewrite IH, last_cons. by destruct (last l).
Qed.

Lemma walk_files top (entries : list entry) :
  forallb is_file entries = true →
  flat_map (λ c, walk (path_join top (entry_name c)) c) entries = [].
Proof.
  induction entries as [|[name|name sub] cs IH]; cbn; [done| |done].
  intros Hcs. by apply IH.
Qed.

(** The walk of a folder ends with the walk of its last sub-folder. *)
Lemma walk_last_folder top name es1 n sub es2 :
  forallb is_file es2 = true →
  last (walk top (Folder name (es1 ++ Folder n sub :: es2)))
  = last (walk (path_join top n) (Folder n sub)).
Proof.
  intros Hes2.
  assert (∃ d ds, walk (path_join top n) (Folder n sub) = d :: ds)
    as (d & ds & Hw) by (cbn; eauto).
  change (walk top (Folder name (es1 ++ Folder n sub :: es2)))
    with ((top, es1 ++ Folder n sub :: es2)
          :: flat_map (λ c, walk (path_join top (entry_name c)) c)
               (es1 ++ Folder n sub :: es2)).
  rewrite flat_map_app. cbn [flat_map entry_name].
  rewrite (walk_files top es2), app_nil_r by done.
  rewrite Hw, app_comm_cons, last_app, last_cons. by destruct (last ds).
Qed.

(** Every listing is all files, or has a last sub-folder. *)
Lemma last_folder_split (entries : list entry) :
  forallb is_file entries = true
  ∨ ∃ es1 n sub es2,
      entries = es1 ++ Folder n sub :: es2 ∧ forallb is_file es2 = true.
Proof.
  induction entries as [|c cs [Hcs|(es1 & n & sub & es2 & -> & Hes2)]].
  - by left.
  - destruct c as [name|name sub]; [by left|].
    right. by exists [], name, sub, cs.
  - right. by exists (c :: es1), n, sub, es2.
Qed.

(** The last directory of a walk has no sub-directory. *)
Lemma walk_last_flat e : ∀ top d,
  last (walk top e) = Some d →
  d ∈ walk top e ∧ forallb is_file d.2 = true.
Proof.
  induction e as [name|name entries IH] using entry_ind_nested;
    intros top d; [done|].
  destruct (last_folder_split entries)
    as [Hflat|(es1 & n & sub & es2 & -> & Hes2)].
  - cbn [walk]. rewrite walk_files by done. intros [= <-].
    split; [apply list_elem_of_here|done].
  - rewrite walk_last_folder by done. intros Hlast.
    rewrite Forall_app, Forall_cons in IH. destruct IH as (_ & IHsub & _).
    destruct (IHsub _ _ Hlast) as [Hin Hd]. split; [|done].
    cbn [walk]. rewrite flat_map_app. cbn [flat_map entry_name].
    rewrite elem_of_cons, !elem_of_app. right. right. by left.
Qed.

(** *** Paths that [glob] takes literally *)

Lemma append_cons c a b : String c a +:+ b = String c (a +:+ b).
Proof. done. Qed.

Lemma has_magic_app a b : has_magic (a +:+ b) = has_magic a || has_magic b.
Proof.
  induction a as [|c a IH]; [done|].
  rewrite append_cons. cbn [has_magic]. by rewrite IH, orb_assoc.
Qed.

Lemma ends_plain_app a b : ends_plain b = true → ends_plain (a +:+ b) = true.
Proof.
  intros Hb. induction a as [|c a IH]; [done|].
  rewrite append_cons. destruct (a +:+ b) eqn:E; [done|]. exact IH.
Qed.

Lemma ends_plain_rev_app s : ∀ acc,
  ends_plain s = true →
  ∃ c r, String.rev_app s acc = String c r ∧ Ascii.eqb c "/" = false.
Proof.
  induction s as [|c s IH]; intros acc Hs; [done|].
  destruct s as [|c' s'].
  - exists c, acc. split; [done|]. cbn in Hs. by destruct (Ascii.eqb c "/").
  - apply (IH (String c acc)). exact Hs.
Qed.

Lemma ends_plain_ends_with s :
  ends_plain s = true → ends_with "/" s = false.
Proof.
  intros Hs. unfold ends_with, String.rev.
  destruct (ends_plain_rev_app s "" Hs) as (c & r & -> & Hc).
  by rewrite Ascii.eqb_sym.
Qed.

Lemma ends_plain_not_empty s : ends_plain s = true → String.eqb s "" = false.
Proof. by destruct s. Qed.

Lemma path_join_plain a b :
  ends_plain a = true → String.prefix "/" b = false →
  path_join a b = a +:+ "/" +:+ b.
Proof.
  intros Ha Hb. unfold path_join.
  by rewrite Hb, ends_plain_not_empty, ends_plain_ends_with.
Qed.

Lemma split_after_last_sep_star root :
  split_after_last_sep (root +:+ "/*") = (root +:+ "/", "*").
Proof.
  induction root as [|c root IH]; [done|].
  rewrite append_cons. cbn [split_after_last_sep]. rewrite IH. by destruct root.
Qed.

Lemma all_seps_plain root :
  ends_plain root = true → all_seps (root +:+ "/") = false.
Proof.
  induction root as [|c root IH]; [done|]. intros Hroot.
  rewrite append_cons. cbn [all_seps]. destruct root as [|c' root'].
  - cbn in Hroot |- *. by destruct (Ascii.eqb c "/").
  - rewrite IH by exact Hroot. apply andb_false_r.
Qed.

Lemma rstrip_sep_plain root :
  ends_plain root = true → rstrip_sep (root +:+ "/") = root.
Proof.
  induction root as [|c root IH]; [done|]. intros Hroot.
  rewrite append_cons. cbn [rstrip_sep]. destruct root as [|c' root'].
  - cbn in Hroot |- *. by destruct (Ascii.eqb c "/").
  - by rewrite IH by exact Hroot.
Qed.

(** The directory part of the pattern made from a plain path is the path. *)
Lemma path_split_star root :
  ends_plain root = true →
  path_split (path_join root "*") = (root, "*").
Proof.
  intros Hroot. rewrite path_join_plain by done.
  unfold path_split. rewrite split_after_last_sep_star.
  rewrite all_seps_plain, rstrip_sep_plain by done.
  by destruct root.
Qed.

(** For a plain path without metacharacter, [glob] lists the directory of
    the path itself. *)
Lemma glob_star_plain root entries :
  ends_plain root = true → has_magic root = false →
  glob_star root entries = listed root entries.
Proof.
  intros Hroot Hmagic. unfold glob_star.
  rewrite path_split_star by done. cbn [fst].
  by rewrite ends_plain_not_empty, Hmagic.
Qed.

Lemma filepath_plain cwd :
  has_magic cwd = false →
  ends_plain (filepath cwd) = true ∧ has_magic (filepath cwd) = false.
Proof.
  intros Hcwd. unfold filepath. split.
  - by apply ends_plain_app.
  - by rewrite has_magic_app, Hcwd.
Qed.

Lemma path_join_keeps_plain top n :
  ends_plain top = true → has_magic top = false → plain_name n = true →
  ends_plain (path_join top n) = true ∧ has_magic (path_join top n) = false.
Proof.
  unfold plain_name. rewrite andb_true_iff, negb_true_iff.
  intros Htop Hmagic [Hn Hmn]. unfold path_join.
  destruct (String.prefix "/" n); [done|].
  destruct (String.eqb top "" || ends_with "/" top).
  - split; [by apply ends_plain_app|]. by rewrite has_magic_app, Hmagic.
  - split; [by apply ends_plain_app, ends_plain_app|].
    by rewrite !has_magic_app, Hmagic, Hmn.
Qed.

(** Below a plain path, through folders of plain name, every directory of
    the walk has a plain path. *)
Lemma walk_plain e : ∀ top d,
  ends_plain top = true → has_magic top = false →
  plain_folders e = true →
  d ∈ walk top e →
  ends_plain d.1 = true ∧ has_magic d.1 = false.
Proof.
  induction e as [name|name entries IH] using entry_ind_nested;
    intros top d Htop Hmagic Hplain; [by intros ?%elem_of_nil|].
  cbn [walk]. rewrite elem_of_cons. intros [->|Hd]; [done|].
  apply list_elem_of_In, in_flat_map in Hd. destruct Hd as (c & Hc & Hd).
  apply list_elem_of_In in Hc, Hd.
  cbn [plain_folders] in Hplain. rewrite forallb_forall in Hplain.
  specialize (Hplain c (proj1 (list_elem_of_In _ _) Hc)).
  apply andb_true_iff in Hplain. destruct Hplain as [Hname Hsub].
  rewrite Forall_forall in IH.
  destruct c as [n|n sub]; [by apply elem_of_nil in Hd|].
  cbn in Hname.
  destruct (path_join_keeps_plain top n Htop Hmagic Hname) as [H1 H2].
  exact (IH _ Hc _ d H1 H2 Hsub Hd).
Qed.

(** X1. The working directory holding none of the characters [* ? [] in
    its path, and no folder under [event_data] in its name: when the cell
    binds [file_path_list], the list holds the paths of the entries, not
    hidden, of one directory of the walk, the last one, and that directory
    has no sub-directory: every listed path is that of a file, none of a
    folder.  The name is bound only when [event_data] is a directory. *)
Theorem file_path_list_names_files cwd event_data l :
  has_magic cwd = false →
  (∀ e, event_data = Some e → plain_folders e = true) →
  file_path_list_cell (filepath cwd) event_data = Some l →
  ∃ e root entries,
    event_data = Some e
    ∧ is_file e = false
    ∧ last (walk (filepath cwd) e) = Some (root, entries)
    ∧ (root, entries) ∈ walk (filepath cwd) e
    ∧ forallb is_file entries = true
    ∧ l = path_join root
          <$> (entry_name
               <$> List.filter (λ c, negb (hidden (entry_name c))) entries).
Proof.
  intros Hcwd Hplain. unfold file_path_list_cell. rewrite foldl_rebind.
  destruct event_data as [e|]; [|done].
  destruct (last (walk (filepath cwd) e)) as [[root entries]|] eqn:Hlast;
    [|done].
  intros [= <-]. exists e, root, entries.
  destruct (walk_last_flat e _ _ Hlast) as [Hin Hflat].
  destruct (filepath_plain cwd Hcwd) as [H1 H2].
  destruct (walk_plain e _ _ H1 H2 (Hplain e eq_refl) Hin) as [H3 H4].
  split_and!; try done; [by destruct e|]. by apply glob_star_plain.
Qed.

(** X2. The working directory holding none of the characters [* ? [] in
    its path: when [event_data] is a directory without sub-directory, the
    cell binds [file_path_list] to the paths of all its entries whose name
    does not start with a dot, in listing order. *)
Theorem file_path_list_flat_directory cwd name entries :
  has_magic cwd = false →
  forallb is_file entries = true →
  file_path_list_cell (filepath cwd) (Some (Folder name entries))
  = Some (path_join (filepath cwd)
          <$> (entry_name
               <$> List.filter (λ c, negb (hidden (entry_name c))) entries)).
Proof.
  intros Hcwd Hflat. unfold file_path_list_cell. rewrite foldl_rebind.
  cbn [walk]. rewrite walk_files by done. cbn [last fst snd].
  destruct (filepath_plain cwd Hcwd) as [H1 H2].
  by rewrite glob_star_plain.
Qed.

(** X3. When [event_data] has sub-directories, the list bound at
    [event_data] itself is overwritten: the cell ends with the list it
    would bind for the last sub-directory alone, so the files directly
    under [event_data], and those of every other sub-directory, are left
    out. *)
Theorem file_path_list_last_sub_directory filepath name es1 n sub es2 :
  forallb is_file es2 = true →
  file_path_list_cell filepath (Some (Folder name (es1 ++ Folder n sub :: es2)))
  = file_path_list_cell (path_join filepath n) (Some (Folder n sub)).
Proof.
  intros Hes2. unfold file_path_list_cell. rewrite !foldl_rebind.
  by rewrite walk_last_folder.
Qed.

(** ** The extract cell on any files *)

Lemma project_short (r : row) :
  (length r < 17)%nat → project r = Raise IndexError.
Proof.
  intros Hr. unfold project, kept_columns.
  assert (∀ i, index r i = Raise IndexError ∨ ∃ x, index r i = Ok x) as Hi.
  { intros i. unfold index. destruct (r !! i); eauto. }
  assert (index r 16 = Raise IndexError) as H16.
  { unfold index. by rewrite lookup_ge_None_2 by lia. }
  cbn [mapM]. 
  repeat match goal with
  | |- context [index r ?i] =>
      lazymatch i with
      | 16%nat => rewrite H16
      | _ => destruct (Hi i) as [->|[? ->]]; [done|]
      end; cbn [mbind result_bind]
  end.
  done.
Qed.

(** One turn of the write loop. *)
Lemma write_event_outcome (r : row) fs ks full rs tr out :
  fs !! new_datafile = Some out →
  write_event r (World fs ks full rs tr)
  = if writable r
    then (Ok tt,
          World (<[new_datafile
                   := out ++ (if has_artist r then [keep r] else [])]> fs)
            ks full rs tr)
    else (Raise IndexError, World fs ks full rs tr).
Proof.
  intros Hout. destruct r as [|artist r]; [done|].
  unfold write_event, has_artist, writable. cbn [index lookup list_lookup default from_option id].
  rewrite lift_ok.
  destruct (String.eqb artist "") eqn:E; cbn [negb orb].
  - by rewrite app_nil_r, insert_id.
  - case_bool_decide as Hlen.
    + rewrite project_ok by done. rewrite lift_ok.
      unfold writerow. cbn [w_fs w_ks w_full_data_rows_list w_rows w_trace].
      do 2 f_equal. apply map_eq. intros p. rewrite lookup_alter.
      destruct (decide (new_datafile = p)) as [<-|Hne].
      * by rewrite lookup_insert_eq, Hout.
      * by rewrite lookup_insert_ne.
    + by rewrite project_short by lia.
Qed.

Lemma write_loop_outcome (rows : list row) fs ks full rs tr out :
  fs !! new_datafile = Some out →
  for_each rows write_event (World fs ks full rs tr)
  = ((written rows).1,
     World (<[new_datafile := out ++ (written rows).2]> fs) ks full rs tr).
Proof.
  revert fs out. induction rows as [|r rows IH]; intros fs out Hout.
  - cbn. by rewrite app_nil_r, insert_id.
  - cbn [for_each written]. rewrite bind_unfold, (write_event_outcome _ _ _ _ _ _ out) by done.
    destruct (writable r).
    + rewrite (IH _ (out ++ (if has_artist r then [keep r] else [])))
        by apply lookup_insert_eq.
      rewrite insert_insert_eq. destruct (written rows) as [res rest].
      cbn [fst snd]. by rewrite <- app_assoc.
    + cbn. by rewrite app_nil_r, insert_id.
Qed.

Lemma write_new_datafile_outcome (rows : list row) fs ks rs tr :
  write_new_datafile (World fs ks rows rs tr)
  = ((written rows).1,
     World (<[new_datafile := header :: (written rows).2]> fs) ks rows rs
       (tr ++ [FileOpen new_datafile; FileClose new_datafile])).
Proof.
  unfold write_new_datafile, with_open_write.
  unfold open_write, emit, mbind at 1, M_bind at 1.
  cbn [w_fs w_ks w_full_data_rows_list w_rows w_trace].
  unfold finally.
  unfold writerow at 1, mbind at 1, M_bind at 1, get_full_data_rows_list,
    mbind at 1, M_bind at 1.
  cbn [w_fs w_ks w_full_data_rows_list w_rows w_trace].
  rewrite (write_loop_outcome rows _ _ _ _ _ [header]) by
    (rewrite lookup_alter, decide_True, lookup_insert_eq; done).
  unfold close, emit. cbn. do 2 f_equal.
  - apply map_eq. intros p.
    destruct (decide (new_datafile = p)) as [<-|Hne].
    + by rewrite !lookup_insert_eq.
    + rewrite !lookup_insert_ne, lookup_alter, decide_False by done.
      by rewrite lookup_insert_ne.
  - by rewrite <- app_assoc.
Qed.

Lemma read_loop_outcome paths fs ks acc rs tr :
  for_each paths (λ f,
    with_open_read f (λ csvreader,
      '(_, csvreader) ← lift (next csvreader);
      for_each csvreader append_line)) (World fs ks acc rs tr)
  = ((gathered fs paths).1.1,
     World fs ks (acc ++ (gathered fs paths).1.2) rs
       (tr ++ (gathered fs paths).2)).
Proof.
  revert acc tr. induction paths as [|f paths IH]; intros acc tr.
  - cbn. by rewrite !app_nil_r.
  - cbn [for_each gathered]. rewrite bind_unfold. unfold with_open_read at 1.
    rewrite bind_unfold. unfold open_read at 1.
    cbn [w_fs w_ks w_full_data_rows_list w_rows w_trace].
    destruct (fs !! f) as [[|hdr lines]|] eqn:Hf.
    + unfold finally, emit, close, emit. cbn [next]. rewrite lift_raise. cbn.
      by rewrite app_nil_r, <- app_assoc.
    + unfold finally, emit.
      cbn [snd next w_fs w_ks w_full_data_rows_list w_rows w_trace].
      rewrite bind_unfold. unfold lift at 1. rewrite append_lines.
      unfold close, emit.
      cbn [fst snd w_fs w_ks w_full_data_rows_list w_rows w_trace].
      rewrite IH. destruct (gathered fs paths) as [[res rows] events].
      cbn [fst snd]. by rewrite <- !app_assoc.
    + cbn. by rewrite !app_nil_r.
Qed.

(** The extract cell does what [extract_outcome] says. *)
Lemma extract_cell_outcome paths w :
  extract_cell paths w = extract_outcome paths w.
Proof.
  destruct w as [fs ks full rs tr].
  unfold extract_cell, extract_outcome, read_event_files.
  rewrite !bind_unfold. unfold set_full_data_rows_list at 1.
  cbn [w_fs w_ks w_full_data_rows_list w_rows w_trace].
  rewrite read_loop_outcome.
  destruct (gathered fs paths) as [[[[]|e] rows] events]; cbn [fst snd app].
  - rewrite write_new_datafile_outcome. by rewrite <- app_assoc.
  - done.
Qed.

Lemma gathered_ok paths (contents : list (list row)) fs :
  Forall2 (λ f c, fs !! f = Some c ∧ c ≠ []) paths contents →
  gathered fs paths
  = (Ok tt, concat (tail <$> contents),
     concat ((λ f, [FileOpen f; FileClose f]) <$> paths)).
Proof.
  induction 1 as [|f c paths contents [Hf Hc] _ IH]; [done|].
  cbn [gathered]. rewrite Hf, IH. by destruct c.
Qed.

Lemma gathered_app fs paths1 paths2 :
  (gathered fs paths1).1.1 = Ok tt →
  gathered fs (paths1 ++ paths2)
  = ((gathered fs paths2).1.1,
     (gathered fs paths1).1.2 ++ (gathered fs paths2).1.2,
     (gathered fs paths1).2 ++ (gathered fs paths2).2).
Proof.
  induction paths1 as [|f paths1 IH]; cbn [app gathered].
  - intros _. by destruct (gathered fs paths2) as [[? ?] ?].
  - destruct (fs !! f) as [[|hdr lines]|]; try done.
    destruct (gathered fs paths1) as [[res rows] events] eqn:E1.
    cbn [fst snd]. intros ->. rewrite IH by done.
    cbn [fst snd]. by rewrite <- app_assoc.
Qed.

Lemma written_ok rows :
  forallb writable rows = true →
  written rows = (Ok tt, keep <$> List.filter has_artist rows).
Proof.
  induction rows as [|r rows IH]; [done|].
  cbn [forallb written List.filter]. intros [Hr Hrows]%andb_true_iff.
  rewrite Hr, IH by done. by destruct (has_artist r).
Qed.

Lemma written_app good rows :
  forallb writable good = true →
  written (good ++ rows)
  = ((written rows).1, (keep <$> List.filter has_artist good) ++ (written rows).2).
Proof.
  induction good as [|r good IH]; cbn [forallb app written List.filter].
  - intros _. by destruct (written rows).
  - intros [Hr Hgood]%andb_true_iff. rewrite Hr, IH by done.
    cbn [fst snd]. destruct (has_artist r); by rewrite ?fmap_cons.
Qed.

(** X4. The extract cell end to end: when every listed file is there and
    has a first line, and every record past the first lines has its first
    field and, if that field is not empty, at least 17 fields, the cell
    completes; [event_datafile_new.csv] then holds the header row followed
    by the 11 kept columns of the records with an artist, file after file
    in the order of [file_path_list] and record after record in file
    order.  A record with an empty artist is skipped whatever its length.
    Each file is opened once and closed before the next is opened, and no
    other file is changed. *)
Theorem extract_cell_merges_files paths (contents : list (list row))
    fs ks full rs tr :
  Forall2 (λ f c, fs !! f = Some c ∧ c ≠ []) paths contents →
  forallb writable (concat (tail <$> contents)) = true →
  extract_cell paths (World fs ks full rs tr)
  = (Ok tt,
     World
       (<[new_datafile := filter_and_project (concat (tail <$> contents))]> fs)
       ks (concat (tail <$> contents)) rs
       (tr ++ concat ((λ f, [FileOpen f; FileClose f]) <$> paths)
          ++ [FileOpen new_datafile; FileClose new_datafile])).
Proof.
  intros Hpaths Hrows. rewrite extract_cell_outcome. unfold extract_outcome.
  cbn [w_fs w_ks w_full_data_rows_list w_rows w_trace].
  rewrite (gathered_ok _ _ _ Hpaths). by rewrite written_ok.
Qed.

(** X5. A listed file that is missing or empty ends the extract cell before
    anything is written: with the files before it readable, the cell raises
    FileNotFoundError for a missing file and StopIteration for a file
    without a first line, [event_datafile_new.csv] is neither created nor
    truncated (the file system is as it was), and [full_data_rows_list]
    holds the records of the files before. *)
Theorem extract_cell_stops_at_unreadable_file paths (contents : list (list row))
    f rest fs ks full rs tr :
  Forall2 (λ f c, fs !! f = Some c ∧ c ≠ []) paths contents →
  fs !! f = None ∨ fs !! f = Some [] →
  let run := extract_cell (paths ++ f :: rest) (World fs ks full rs tr) in
  run.1 = Raise (match fs !! f with
                 | Some _ => StopIteration
                 | None => FileNotFoundError
                 end)
  ∧ w_fs run.2 = fs
  ∧ w_full_data_rows_list run.2 = concat (tail <$> contents)
  ∧ w_ks run.2 = ks.
Proof.
  intros Hpaths Hf run. subst run. rewrite extract_cell_outcome.
  unfold extract_outcome. cbn [w_fs w_ks w_full_data_rows_list w_rows w_trace].
  rewrite gathered_app by (by rewrite (gathered_ok _ _ _ Hpaths)).
  rewrite (gathered_ok _ _ _ Hpaths). cbn [fst snd gathered].
  destruct Hf as [Hf|Hf]; rewrite Hf; cbn [fst snd w_fs w_ks w_full_data_rows_list w_rows w_trace];
    by rewrite ?app_nil_r.
Qed.

(** X6. The write loop stops at the first record it cannot index, a record
    without any field or one with an artist and fewer than 17 fields: it
    raises IndexError, the with-block closes the file, and the new file is
    left on disk with the header and the records written so far. *)
Theorem write_stops_at_short_record (good : list row) (r : row)
    (rest : list row) fs ks rs tr :
  forallb writable good = true →
  writable r = false →
  write_new_datafile (World fs ks (good ++ r :: rest) rs tr)
  = (Raise IndexError,
     World (<[new_datafile := filter_and_project good]> fs) ks
       (good ++ r :: rest) rs
       (tr ++ [FileOpen new_datafile; FileClose new_datafile])).
Proof.
  intros Hgood Hr. rewrite write_new_datafile_outcome.
  rewrite written_app by done. cbn [written]. rewrite Hr. cbn [fst snd].
  by rewrite app_nil_r.
Qed.

Lemma gathered_agree fs fs' paths :
  (∀ f, f ∈ paths → fs' !! f = fs !! f) →
  gathered fs' paths = gathered fs paths.
Proof.
  induction paths as [|f paths IH]; intros Hagree; [done|].
  cbn [gathered]. rewrite Hagree by apply list_elem_of_here.
  rewrite IH; [done|]. intros g Hg. apply Hagree. by apply list_elem_of_further.
Qed.

(** X7. Running the extract cell again gives the same new file: when
    [event_datafile_new.csv] is not itself one of the listed files, a
    second run ends as the first did and leaves the file system and
    [full_data_rows_list] as the first left them.  The list is reset and
    the file truncated, so nothing is appended twice. *)
Theorem extract_cell_rerun paths w :
  new_datafile ∉ paths →
  let once := extract_cell paths w in
  let twice := extract_cell paths once.2 in
  twice.1 = once.1
  ∧ w_fs twice.2 = w_fs once.2
  ∧ w_full_data_rows_list twice.2 = w_full_data_rows_list once.2
  ∧ w_ks twice.2 = w_ks w.
Proof.
  intros Hnew once twice. subst once twice. rewrite !extract_cell_outcome.
  destruct w as [fs ks full rs tr].
  assert (∀ out, gathered (<[new_datafile := out]> fs) paths
                 = gathered fs paths) as Hagree.
  { intros out. apply gathered_agree. intros f Hf.
    rewrite lookup_insert_ne; [done|]. by intros <-. }
  unfold extract_outcome.
  cbn [w_fs w_ks w_full_data_rows_list w_rows w_trace].
  destruct (gathered fs paths) as [[[[]|e] rows] events] eqn:E;
    cbn [fst snd w_fs w_ks w_full_data_rows_list w_rows w_trace];
    rewrite ?Hagree, ?E;
    cbn [fst snd w_fs w_ks w_full_data_rows_list w_rows w_trace];
    by rewrite ?insert_insert_eq.
Qed.

(** Every record the write loop writes has the 11 kept columns. *)
Lemma written_width rows :
  Forall (λ line : row, length line = 11%nat) (written rows).2.
Proof.
  induction rows as [|r rows IH]; cbn [written]; [constructor|].
  destruct (writable r); [|constructor].
  destruct (written rows) as [res out]. cbn [snd] in *.
  destruct (has_artist r); [|done]. constructor; [|done].
  unfold keep. by rewrite length_fmap.
Qed.

Lemma index_width (line : row) (i : nat) :
  length line = 11%nat → (i < 11)%nat → ∃ x, index line i = Ok x.
Proof.
  intros Hlen Hi. unfold index.
  destruct (line !! i) eqn:E; [eauto|].
  apply lookup_ge_None in E. lia.
Qed.

Lemma to_int_cases s : (∃ z, to_int s = Ok z) ∨ to_int s = Raise ValueError.
Proof. unfold to_int. destruct (int s); eauto. Qed.

Lemma to_float_cases s :
  (∃ d, to_float s = Ok d) ∨ to_float s = Raise ValueError.
Proof. unfold to_float. destruct (float s); eauto. Qed.

(** On a record of 11 fields the tuple of an insert loop is built, or
    int() or float() raises ValueError. *)
Lemma insert_width insert table (line : row) :
  (insert, table) ∈ loaders →
  length line = 11%nat →
  (∃ q, insert line = Ok q) ∨ insert line = Raise ValueError.
Proof.
  intros Hin Hlen.
  pose proof (λ i, index_width line i Hlen) as Hi.
  unfold loaders in Hin. rewrite !elem_of_cons, elem_of_nil in Hin.
  destruct Hin as [[= -> ->]|[[= -> ->]|[[= -> ->]|[]]]].
  - unfold insert_artist_song_session.
    destruct (Hi 8%nat) as [x8 ->]; [lia|]. cbn [mbind result_bind].
    destruct (to_int_cases x8) as [[z8 ->]| ->]; [|by right].
    cbn [mbind result_bind].
    destruct (Hi 3%nat) as [x3 ->]; [lia|]. cbn [mbind result_bind].
    destruct (to_int_cases x3) as [[z3 ->]| ->]; [|by right].
    cbn [mbind result_bind].
    destruct (Hi 0%nat) as [x0 ->]; [lia|]. cbn [mbind result_bind].
    destruct (Hi 9%nat) as [x9 ->]; [lia|]. cbn [mbind result_bind].
    destruct (Hi 5%nat) as [x5 ->]; [lia|]. cbn [mbind result_bind].
    destruct (to_float_cases x5) as [[d5 ->]| ->]; [|by right].
    left. eauto.
  - unfold insert_song_playlist_session.
    destruct (Hi 10%nat) as [x10 ->]; [lia|]. cbn [mbind result_bind].
    destruct (to_int_cases x10) as [[z10 ->]| ->]; [|by right].
    cbn [mbind result_bind].
    destruct (Hi 8%nat) as [x8 ->]; [lia|]. cbn [mbind result_bind].
    destruct (to_int_cases x8) as [[z8 ->]| ->]; [|by right].
    cbn [mbind result_bind].
    destruct (Hi 3%nat) as [x3 ->]; [lia|]. cbn [mbind result_bind].
    destruct (to_int_cases x3) as [[z3 ->]| ->]; [|by right].
    cbn [mbind result_bind].
    destruct (Hi 0%nat) as [x0 ->]; [lia|]. cbn [mbind result_bind].
    destruct (Hi 9%nat) as [x9 ->]; [lia|]. cbn [mbind result_bind].
    destruct (Hi 1%nat) as [x1 ->]; [lia|]. cbn [mbind result_bind].
    destruct (Hi 4%nat) as [x4 ->]; [lia|]. cbn [mbind result_bind].
    left. eauto.
  - unfold insert_user_song.
    destruct (Hi 9%nat) as [x9 ->]; [lia|]. cbn [mbind result_bind].
    destruct (Hi 10%nat) as [x10 ->]; [lia|]. cbn [mbind result_bind].
    destruct (to_int_cases x10) as [[z10 ->]| ->]; [|by right].
    cbn [mbind result_bind].
    destruct (Hi 1%nat) as [x1 ->]; [lia|]. cbn [mbind result_bind].
    destruct (Hi 4%nat) as [x4 ->]; [lia|]. cbn [mbind result_bind].
    left. eauto.
Qed.

Lemma plan_width insert table b (lines : list row) :
  (insert, table) ∈ loaders →
  Forall (λ line : row, length line = 11%nat) lines →
  (plan insert b lines).1.1 = Ok tt
  ∨ (plan insert b lines).1.1 = Raise ValueError
  ∨ (plan insert b lines).1.1 = Raise InvalidRequest.
Proof.
  intros Hin. induction 1 as [|line lines Hlen _ IH]; [by left|].
  cbn [plan].
  destruct (insert_width insert table line Hin Hlen) as [[q ->]| ->];
    [|right; by left].
  destruct (b && valid q); [|right; by right].
  destruct (plan insert b lines) as [[res acc] sent]. exact IH.
Qed.

(** X8. The extract and insert cells fit together: once the extract cell
    has completed, the cell that counts the lines finds the new file, and
    each of the three insert loops, run on that file with the keyspace in
    any state, finds the header line and 11 fields in every record.  It
    ends normally, or with ValueError from int() or float(), or with the
    error of the store; never with IndexError, FileNotFoundError or
    StopIteration. *)
Theorem load_after_extract paths w0 insert table w :
  (extract_cell paths w0).1 = Ok tt →
  (insert, table) ∈ loaders →
  w_fs w = w_fs (extract_cell paths w0).2 →
  (count_cell w).1 = Ok tt
  ∧ ((load_cell insert w).1 = Ok tt
     ∨ (load_cell insert w).1 = Raise ValueError
     ∨ (load_cell insert w).1 = Raise InvalidRequest).
Proof.
  rewrite extract_cell_outcome. unfold extract_outcome.
  destruct (gathered (w_fs w0) paths) as [[[[]|e] rows] events]; [|done].
  cbn [fst snd w_fs]. intros Hok Hin Hfs.
  assert (w_fs w !! new_datafile = Some (header :: (written rows).2)) as Hfile.
  { by rewrite Hfs, lookup_insert_eq. }
  split.
  - destruct w as [fs ks full rs tr]. cbn [w_fs] in Hfile.
    unfold count_cell, with_open_read, open_read. rewrite bind_unfold.
    cbn [w_fs]. by rewrite Hfile.
  - rewrite (load_cell_outcome insert table) by by apply inserts_into_loaders.
    unfold load_outcome. rewrite Hfile. cbn [fst].
    apply (plan_width insert table); [done|apply written_width].
Qed.

(** ** The insert loops on any file *)

(** X9. An insert loop has no rollback: when the table exists and the loop
    gets through the records before a record it does not get through, it
    raises at that record (the exception of the tuple, IndexError or
    ValueError, or the error of the store when the tuple was built and
    sent), the with-block closes the file, and the rows of the records
    before stay in the table.  One INSERT was sent per record before, one
    more if the store refused the record, none for the records after. *)
Theorem load_stops_without_rollback insert table (hdr : row)
    (good : list row) (bad : row) (rest : list row) w :
  (insert, table) ∈ loaders →
  w_fs w !! new_datafile = Some (hdr :: good ++ bad :: rest) →
  table_exists table (w_ks w) = true →
  forallb (row_ok insert) good = true →
  row_ok insert bad = false →
  ∃ qs,
    Forall2 (λ line q, insert line = Ok q) good qs
    ∧ (load_cell insert w).1
      = Raise (match insert bad with
               | Raise e => e
               | Ok _ => InvalidRequest
               end)
    ∧ ks_tables (w_ks (load_cell insert w).2)
      = foldl (flip insert_row) (ks_tables (w_ks w)) qs
    ∧ w_trace (load_cell insert w).2
      = w_trace w
        ++ FileOpen new_datafile
           :: (Execute <$> qs ++ match insert bad with
                                 | Ok q => [q]
                                 | Raise _ => []
                                 end)
        ++ [FileClose new_datafile].
Proof.
  intros Hin Hfile Htable Hgood Hbad.
  destruct (plan_app insert good Hgood) as (qs & Hall & Hplan).
  exists qs. split; [done|].
  rewrite (load_cell_outcome insert table) by by apply inserts_into_loaders.
  unfold load_outcome. rewrite Hfile, Htable, Hplan. cbn [plan].
  unfold row_ok in Hbad. destruct (insert bad) as [q|e].
  - rewrite Hbad. cbn. by rewrite !app_nil_r.
  - cbn. by rewrite !app_nil_r.
Qed.

(** X10. The try/except of a CREATE TABLE cell does not protect the insert
    cell after it: when the table does not exist, the first record whose
    tuple is built is sent and refused, the loop raises the error of the
    store, nothing is stored and no further record is read. *)
Theorem load_without_table insert table (hdr line : row) (rest : list row)
    q w :
  inserts_into insert table →
  w_fs w !! new_datafile = Some (hdr :: line :: rest) →
  table_exists table (w_ks w) = false →
  insert line = Ok q →
  load_cell insert w
  = (Raise InvalidRequest,
     World (w_fs w) (w_ks w) (w_full_data_rows_list w) (w_rows w)
       (w_trace w
          ++ [FileOpen new_datafile; Execute q; FileClose new_datafile])).
Proof.
  intros Hins Hfile Htable Hq. rewrite (load_cell_outcome insert table) by done.
  unfold load_outcome. rewrite Hfile, Htable. cbn [plan]. rewrite Hq.
  cbn. by destruct (w_ks w).
Qed.

Lemma same_but_refl table t : same_but table t t.
Proof. by repeat split. Qed.

Lemma same_but_insert_row table q t t' :
  is_insert q = true → table_of q = table →
  same_but table t t' → same_but table t (insert_row q t').
Proof.
  intros Hq Ht (H1 & H2 & H3 & H4).
  destruct q; try done; cbn in Ht; subst table; repeat split; cbn; auto;
    intros; done.
Qed.

Lemma plan_accepted_into insert table b lines :
  inserts_into insert table →
  Forall (λ q, is_insert q = true ∧ table_of q = table)
    (plan insert b lines).1.2.
Proof.
  intros Hins. induction lines as [|line lines IH]; cbn; [constructor|].
  destruct (insert line) as [q|e] eqn:Eq; [|constructor].
  destruct (b && valid q); [|constructor].
  destruct (plan insert b lines) as [[r acc] sent]. cbn in *.
  constructor; [by apply (Hins line)|done].
Qed.

Lemma same_but_replay table qs t t' :
  Forall (λ q, is_insert q = true ∧ table_of q = table) qs →
  same_but table t t' → same_but table t (foldl (flip insert_row) t' qs).
Proof.
  intros Hqs. revert t'. induction Hqs as [|q qs [Hq Ht] _ IH]; intros t' H;
    [done|].
  cbn [foldl]. apply IH. by apply same_but_insert_row.
Qed.

(** X11. An insert cell writes to its own table and to nothing else: however
    it ends, the rows of the other tables, the catalog, the files and the
    notebook's variables are as they were. *)
Theorem load_cell_touches_only_its_table insert table w :
  inserts_into insert table →
  same_but table (ks_tables (w_ks w)) (ks_tables (w_ks (load_cell insert w).2))
  ∧ ks_catalog (w_ks (load_cell insert w).2) = ks_catalog (w_ks w)
  ∧ w_fs (load_cell insert w).2 = w_fs w
  ∧ w_full_data_rows_list (load_cell insert w).2 = w_full_data_rows_list w
  ∧ w_rows (load_cell insert w).2 = w_rows w.
Proof.
  intros Hins. rewrite (load_cell_outcome insert table) by done.
  unfold load_outcome.
  destruct (w_fs w !! new_datafile) as [[|hdr lines]|];
    cbn [snd w_fs w_ks w_full_data_rows_list w_rows ks_catalog ks_tables];
    split_and!; try done; try apply same_but_refl.
  apply same_but_replay; [by apply plan_accepted_into|apply same_but_refl].
Qed.

(** ** Cells that only read the files *)

Lemma reads_only_bind {A B} (m : M A) (k : A → M B) :
  reads_only m → (∀ a, reads_only (k a)) → reads_only (m ≫= k).
Proof.
  intros Hm Hk w. rewrite bind_unfold. specialize (Hm w).
  destruct (m w) as [[a|e] w']; cbn in *; [|done]. by rewrite Hk.
Qed.

Lemma reads_only_for_each {A} (xs : list A) body :
  (∀ x, reads_only (body x)) → reads_only (for_each xs body).
Proof.
  intros Hbody. induction xs as [|x xs IH]; [done|].
  cbn [for_each]. apply reads_only_bind; [done|by intros _].
Qed.

Lemma reads_only_try_print m : reads_only m → reads_only (try_print m).
Proof. intros Hm w. apply Hm. Qed.

Lemma reads_only_finally {A} (m : M A) fin :
  reads_only m → reads_only fin → reads_only (finally m fin).
Proof.
  intros Hm Hfin w. unfold finally. specialize (Hm w).
  destruct (m w) as [r w']. cbn in *. by rewrite Hfin.
Qed.

Lemma reads_only_emit e : reads_only (emit e).
Proof. done. Qed.

Lemma reads_only_session_execute q : reads_only (session_execute q).
Proof. intros w. unfold session_execute. by destruct (exec q (w_ks w)). Qed.

Lemma reads_only_with_open_read {A} path (body : list row → M A) :
  (∀ rs, reads_only (body rs)) → reads_only (with_open_read path body).
Proof.
  intros Hbody. apply reads_only_bind.
  - intros w. unfold open_read. by destruct (w_fs w !! path).
  - intros rs. apply reads_only_finally; [done|apply reads_only_emit].
Qed.

Lemma reads_only_load_cell insert : reads_only (load_cell insert).
Proof.
  apply reads_only_with_open_read. intros rs.
  apply reads_only_bind; [done|]. intros [_ lines].
  apply reads_only_for_each. intros line.
  apply reads_only_bind; [done|]. intros q.
  apply reads_only_bind; [apply reads_only_session_execute|done].
Qed.

Lemma reads_only_create_table_cell ddl : reads_only (create_table_cell ddl).
Proof.
  apply reads_only_try_print, reads_only_bind;
    [apply reads_only_session_execute|done].
Qed.

Lemma reads_only_query_cell q columns : reads_only (query_cell q columns).
Proof.
  apply reads_only_bind.
  - apply reads_only_try_print, reads_only_bind;
      [apply reads_only_session_execute|done].
  - intros _. apply reads_only_bind; [|done].
    intros w. unfold get_rows. by destruct (w_rows w).
Qed.

Lemma reads_only_transform : reads_only transform.
Proof.
  unfold transform.
  repeat (apply reads_only_bind;
          [apply reads_only_create_table_cell || apply reads_only_load_cell
          |intros _]).
  apply reads_only_load_cell.
Qed.

Lemma reads_only_drop_cell : reads_only drop_cell.
Proof.
  apply reads_only_for_each. intros table.
  apply reads_only_try_print, reads_only_bind;
    [apply reads_only_session_execute|done].
Qed.

Lemma reads_only_database_cells :
  reads_only
    (count_cell ;; connect_cell ;; keyspace_cell ;; set_keyspace_cell ;;
     transform ;; query_1 ;; query_2 ;; query_3 ;; drop_cell ;;
     shutdown_cell).
Proof.
  apply reads_only_bind; [by apply reads_only_with_open_read|intros _].
  apply reads_only_bind; [apply reads_only_emit|intros _].
  apply reads_only_bind; [|intros _].
  { apply reads_only_try_print, reads_only_bind;
      [apply reads_only_session_execute|done]. }
  apply reads_only_bind;
    [apply reads_only_try_print, reads_only_emit|intros _].
  apply reads_only_bind; [apply reads_only_transform|intros _].
  apply reads_only_bind; [apply reads_only_query_cell|intros _].
  apply reads_only_bind; [apply reads_only_query_cell|intros _].
  apply reads_only_bind; [apply reads_only_query_cell|intros _].
  apply reads_only_bind; [apply reads_only_drop_cell|intros _].
  apply reads_only_bind; apply reads_only_emit || (intros _; apply reads_only_emit).
Qed.

(** Nothing after the extract cell writes to a file. *)
Lemma run_all_fs file_path_list w :
  w_fs (run_all file_path_list w).2 = w_fs (extract_cell file_path_list w).2.
Proof.
  unfold run_all. rewrite bind_unfold.
  destruct (extract_cell file_path_list w) as [[[]|e] w1]; [|done].
  cbn [snd]. apply reads_only_database_cells.
Qed.

(** X12. The only file the notebook writes is [event_datafile_new.csv]:
    whatever the listed files and however the run ends, every other file is
    as it was, and the new file is as the extract cell left it, nothing
    after the extract cell writes to a file. *)
Theorem notebook_writes_only_new_datafile file_path_list w :
  delete new_datafile (w_fs (run_all file_path_list w).2)
  = delete new_datafile (w_fs w)
  ∧ w_fs (run_all file_path_list w).2
    = w_fs (extract_cell file_path_list w).2.
Proof.
  split; [|apply run_all_fs].
  rewrite run_all_fs, extract_cell_outcome. unfold extract_outcome.
  destruct (gathered (w_fs w) file_path_list) as [[[[]|e] rows] events];
    cbn [snd w_fs]; [|done].
  by rewrite delete_insert_eq.
Qed.

(** ** The order of the records *)

Lemma replay_permutation qs qs' t :
  qs ≡ₚ qs' →
  (∀ q q', q ∈ qs → q' ∈ qs →
     primary_key_of q = primary_key_of q' → q = q') →
  foldl (flip insert_row) t qs = foldl (flip insert_row) t qs'.
Proof.
  intros Hp. revert t.
  induction Hp as [|x l l' Hl IH|x y l|l1 l2 l3 H12 IH12 H23 IH23];
    intros t Hkey.
  - done.
  - cbn [foldl]. apply IH. intros q q' Hq Hq'.
    apply Hkey; by apply list_elem_of_further.
  - cbn [foldl]. unfold flip at 2 3 5 6.
    destruct (decide (primary_key_of x = primary_key_of y)) as [E|E].
    + rewrite (Hkey x y); [done| | |done].
      * apply list_elem_of_further, list_elem_of_here.
      * apply list_elem_of_here.
    + by rewrite insert_row_comm.
  - rewrite IH12 by done. apply IH23. intros q q' Hq Hq'.
    apply Hkey; by rewrite H12.
Qed.

Lemma built_all insert (lines : list row) qs :
  Forall2 (λ line q, insert line = Ok q) lines qs →
  qs = omap (built insert) lines.
Proof.
  induction 1 as [|line q lines qs Hq _ IH]; [done|].
  assert (built insert line = Some q) as Hb by (unfold built; by rewrite Hq).
  change (omap (built insert) (line :: lines))
    with (match built insert line with
          | Some y => y :: omap (built insert) lines
          | None => omap (built insert) lines
          end).
  by rewrite Hb, IH.
Qed.

(** X13. The order of the records does not matter to what an insert loop
    stores, as long as records with the same primary key carry the same
    values: two files with the same records in another order, every record
    one the loop gets through, leave the keyspace the same. *)
Theorem load_order_irrelevant insert table (hdr hdr' : row)
    (lines lines' : list row) w w' :
  (insert, table) ∈ loaders →
  w_fs w !! new_datafile = Some (hdr :: lines) →
  w_fs w' !! new_datafile = Some (hdr' :: lines') →
  lines ≡ₚ lines' →
  w_ks w' = w_ks w →
  table_exists table (w_ks w) = true →
  forallb (row_ok insert) lines = true →
  (∀ l1 l2 q1 q2,
     l1 ∈ lines → l2 ∈ lines → insert l1 = Ok q1 → insert l2 = Ok q2 →
     primary_key_of q1 = primary_key_of q2 → q1 = q2) →
  (load_cell insert w).1 = Ok tt
  ∧ (load_cell insert w').1 = Ok tt
  ∧ w_ks (load_cell insert w').2 = w_ks (load_cell insert w).2.
Proof.
  intros Hin Hfile Hfile' Hperm Hks Htable Hrows Hkey.
  assert (forallb (row_ok insert) lines' = true) as Hrows'.
  { rewrite forallb_forall in Hrows |- *. intros x Hx%list_elem_of_In.
    apply Hrows, list_elem_of_In. by rewrite Hperm. }
  destruct (plan_all_ok insert lines Hrows) as (qs & Hplan & Hall).
  destruct (plan_all_ok insert lines' Hrows') as (qs' & Hplan' & Hall').
  rewrite !(load_cell_outcome insert table) by by apply inserts_into_loaders.
  unfold load_outcome. rewrite Hfile, Hfile', Hks, Htable, Hplan, Hplan'.
  cbn [fst snd w_ks]. split_and!; [done..|]. f_equal. symmetry.
  apply built_all in Hall, Hall'. subst qs qs'.
  apply replay_permutation; [by rewrite Hperm|].
  intros q q' (l1 & H1 & E1)%list_elem_of_omap (l2 & H2 & E2)%list_elem_of_omap.
  unfold built in E1, E2.
  destruct (insert l1) as [q1|] eqn:I1; [|done].
  destruct (insert l2) as [q2|] eqn:I2; [|done].
  injection E1 as <-. injection E2 as <-. by apply (Hkey l1 l2).
Qed.

(** ** The first version's insert into [question_1] *)

(** X14. The first version's insert into [question_1] reads the same five
    fields as the final insert into [artist_song_session], in another
    order: it builds its tuple for exactly the records the final one builds
    its tuple for, with the same values. *)
Theorem question_1_same_records (line : row) artist song len sid item :
  params_question_1 line = Ok (artist, song, len, sid, item)
  ↔ insert_artist_song_session line
    = Ok (InsertArtistSongSession sid item artist song len).
Proof.
  unfold params_question_1, insert_artist_song_session.
  destruct (index line 0), (index line 9), (index line 5), (index line 8),
    (index line 3); cbn [mbind result_bind];
    repeat match goal with
    | |- context [to_int ?s] => destruct (to_int s); cbn [mbind result_bind]
    | |- context [to_float ?s] => destruct (to_float s); cbn [mbind result_bind]
    end;
    split; intros [=]; by subst.
Qed.

(** ** The query cells on any keyspace *)

(** X15. The try/except of a query cell only prints the error: when the
    table of the SELECT does not exist the cell goes on to its for loop
    over [rows], and if no earlier cell has bound [rows] the loop raises
    NameError.  The SELECT was sent once and the keyspace is as it was. *)
Theorem query_cell_failed_select q columns fs ks full tr :
  is_select q = true →
  table_exists (table_of q) ks = false →
  query_cell q columns (World fs ks full None tr)
  = (Raise NameError, World fs ks full None (tr ++ [Execute q])).
Proof.
  intros Hq Ht. unfold query_cell, try_print. rewrite !bind_unfold.
  unfold session_execute at 1.
  cbn [w_fs w_ks w_full_data_rows_list w_rows w_trace].
  assert (exec q ks = (Raise InvalidRequest, ks)) as ->.
  { destruct q; try done; cbn in *; by rewrite Ht. }
  reflexivity.
Qed.

Lemma filter_key_above {V} (k : Z) (p : list (Z * V)) :
  Forall (λ y, ck_compare k y.1 = Lt) p → filter (λ r, r.1 = k) p = [].
Proof.
  induction 1 as [|[k1 v1] p H1 _ IH]; [done|].
  rewrite filter_cons. cbn [fst] in *.
  destruct (decide (k1 = k)) as [->|Hne]; [|done].
  by rewrite ck_refl in H1.
Qed.

(** A partition holds at most one row per clustering key. *)
Lemma filter_key_ascending {V} (k : Z) (p : list (Z * V)) :
  ascending p → (length (filter (λ r, r.1 = k) p) ≤ 1)%nat.
Proof.
  unfold ascending. induction 1 as [|[k0 v0] p Hp IH Hall]; [cbn; lia|].
  rewrite filter_cons. cbn [fst]. destruct (decide (k0 = k)) as [->|Hne];
    [|done].
  rewrite filter_key_above by done. cbn. lia.
Qed.

(** The row an INSERT wrote is the one row under its clustering key. *)
Lemma filter_key_upsert {V} (k : Z) (v : V) (p : list (Z * V)) :
  ascending p → filter (λ r, r.1 = k) (upsert k v p) = [(k, v)].
Proof.
  unfold ascending. induction 1 as [|[k0 v0] p Hp IH Hall]; cbn [upsert].
  - rewrite filter_cons. cbn [fst]. by rewrite decide_True.
  - destruct (ck_compare k k0) eqn:E.
    + apply ck_eq in E as ->. rewrite filter_cons. cbn [fst].
      rewrite decide_True by done. by rewrite filter_key_above.
    + rewrite filter_cons. cbn [fst]. rewrite decide_True by done.
      rewrite filter_key_above; [done|]. constructor; [done|].
      eapply Forall_impl; [exact Hall|]. intros [k1 v1] H1. cbn in *.
      by eapply ck_trans.
    + rewrite filter_cons. cbn [fst]. rewrite decide_False, IH; [done|].
      intros ->. by rewrite ck_refl in E.
Qed.

(** X16. Query 1 names a full primary key, so it prints at most one line:
    on every keyspace whose partitions are in clustering order and where
    [artist_song_session] exists, the cell completes with no line or one. *)
Theorem query_1_at_most_one_line fs ks full rs tr :
  tables_wf (ks_tables ks) →
  table_exists "artist_song_session" ks = true →
  ∃ data,
    (query_1 (World fs ks full rs tr)).1 = Ok data ∧ (length data ≤ 1)%nat.
Proof.
  intros (Hwf & _) Ht. rewrite query_1_answer by done.
  eexists. split; [reflexivity|]. unfold answer_1.
  rewrite length_fmap. apply filter_key_ascending, Hwf.
Qed.

(** X17. What an INSERT wrote is what the query on its key reads back.
    After an INSERT into [artist_song_session] for session 338, item 4,
    query 1 prints that artist, song and length and nothing else, whatever
    the table held before.  After an INSERT into [song_playlist_session]
    for user 10, session 182, query 2 prints the line of that item; after
    an INSERT into [user_song] for the song of query 3, query 3 prints the
    names of that user. *)
Theorem inserted_row_is_read_back fs ks full rs tr :
  tables_wf (ks_tables ks) →
  (∀ artist song len,
     table_exists "artist_song_session" ks = true →
     ((session_execute (InsertArtistSongSession 338 4 artist song len) ;;
       query_1) (World fs ks full rs tr)).1
     = Ok [[VText artist; VText song; VDouble len]])
  ∧ (∀ item artist song first last,
       table_exists "song_playlist_session" ks = true →
       int32 item = true →
       ∃ data,
         ((session_execute
             (InsertSongPlaylistSession 10 182 item artist song first last) ;;
           query_2) (World fs ks full rs tr)).1 = Ok data
         ∧ [VText artist; VText song; VInt item; VText first; VText last]
           ∈ data)
  ∧ (∀ uid first last,
       table_exists "user_song" ks = true →
       int32 uid = true →
       ∃ data,
         ((session_execute
             (InsertUserSong "All Hands Against His Own" uid first last) ;;
           query_3) (World fs ks full rs tr)).1 = Ok data
         ∧ [VText first; VText last] ∈ data).
Proof.
  intros (Hwf1 & Hwf2 & Hwf3 & _). split_and!.
  - intros artist song len Ht. rewrite bind_unfold. unfold session_execute.
    cbn [w_fs w_ks w_full_data_rows_list w_rows w_trace].
    rewrite exec_insert by done. unfold accepts. cbn [table_of valid].
    rewrite Ht. change (true && (int32 338 && int32 4)) with true.
    cbn iota. rewrite query_1_answer by done. cbn [fst]. f_equal.
    unfold answer_1. cbn [ks_tables insert_row artist_song_session].
    rewrite table_partition_insert, decide_True by done.
    by rewrite filter_key_upsert by apply Hwf1.
  - intros item artist song first last Ht Hitem. rewrite bind_unfold.
    unfold session_execute.
    cbn [w_fs w_ks w_full_data_rows_list w_rows w_trace].
    rewrite exec_insert by done. unfold accepts. cbn [table_of valid].
    rewrite Ht, Hitem.
    change (true && (int32 10 && int32 182 && true)) with true.
    cbn iota. rewrite query_2_answer by done. cbn [fst].
    eexists. split; [reflexivity|]. unfold answer_2.
    cbn [ks_tables insert_row song_playlist_session].
    rewrite table_partition_insert, decide_True by done.
    apply (list_elem_of_fmap_2'
             (λ '(item, (artist, song, first, last)),
                [VText artist; VText song; VInt item; VText first; VText last])
             _ (item, (artist, song, first, last))); [|done].
    rewrite elem_of_upsert by apply Hwf2. by left.
  - intros uid first last Ht Huid. rewrite bind_unfold.
    unfold session_execute.
    cbn [w_fs w_ks w_full_data_rows_list w_rows w_trace].
    rewrite exec_insert by done. unfold accepts. cbn [table_of valid].
    rewrite Ht, Huid.
    change (true && (negb ("All Hands Against His Own" =? "")%string && true))
      with true.
    cbn iota. rewrite query_3_answer by done. cbn [fst].
    eexists. split; [reflexivity|]. unfold answer_3.
    cbn [ks_tables insert_row user_song].
    rewrite table_partition_insert, decide_True by done.
    apply (list_elem_of_fmap_2' (λ '(uid, (first, last)),
                              [VText first; VText last])
             _ (uid, (first, last))); [|done].
    rewrite elem_of_upsert by apply Hwf3. by left.
Qed.

(** ** The drop cell *)

Lemma drop_step table fs ks full rs tr :
  try_print (session_execute (DropTable table) ;; mret tt)
    (World fs ks full rs tr)
  = (Ok tt,
     World fs (drop_table table ks) full rs (tr ++ [Execute (DropTable table)])).
Proof.
  unfold try_print, drop_table. rewrite bind_unfold. unfold session_execute.
  cbn [w_fs w_ks w_full_data_rows_list w_rows w_trace exec].
  by destruct (table_exists table ks).
Qed.

Lemma drop_cell_outcome fs ks full rs tr :
  drop_cell (World fs ks full rs tr)
  = (Ok tt,
     World fs
       (drop_table "user_song"
          (drop_table "song_playlist_session"
             (drop_table "artist_song_session" ks)))
       full rs
       (tr ++ [Execute (DropTable "artist_song_session");
               Execute (DropTable "song_playlist_session");
               Execute (DropTable "user_song")])).
Proof.
  unfold drop_cell. cbn [for_each].
  rewrite bind_unfold, drop_step, bind_unfold, drop_step, bind_unfold, drop_step.
  cbn. by rewrite <- !app_assoc.
Qed.

Lemma ks_catalog_drop_table name ks :
  ks_catalog (drop_table name ks) = delete name (ks_catalog ks).
Proof.
  unfold drop_table, table_exists. case_bool_decide as Hex; [done|].
  symmetry. apply delete_id. by apply eq_None_not_Some.
Qed.

Lemma table_exists_drop_table name name' ks :
  name' ≠ name →
  table_exists name' (drop_table name ks) = table_exists name' ks.
Proof.
  intros Hne. unfold table_exists. rewrite ks_catalog_drop_table.
  by rewrite lookup_delete_ne.
Qed.

(** X18. The drop cell never raises: each of the three DROP TABLE
    statements is sent, in order, whether the one before was refused or
    not.  After the cell none of the three tables is in the catalog, the
    rows of a table that was dropped are gone with it, and nothing else of
    the keyspace, the catalog entries and rows of any other table, is
    touched. *)
Theorem drop_cell_removes_the_tables fs ks full rs tr :
  ∃ ks',
    drop_cell (World fs ks full rs tr)
    = (Ok tt,
       World fs ks' full rs
         (tr ++ [Execute (DropTable "artist_song_session");
                 Execute (DropTable "song_playlist_session");
                 Execute (DropTable "user_song")]))
    ∧ ks_catalog ks'
      = delete "user_song"
          (delete "song_playlist_session"
             (delete "artist_song_session" (ks_catalog ks)))
    ∧ artist_song_session (ks_tables ks')
      = (if table_exists "artist_song_session" ks then ∅
         else artist_song_session (ks_tables ks))
    ∧ song_playlist_session (ks_tables ks')
      = (if table_exists "song_playlist_session" ks then ∅
         else song_playlist_session (ks_tables ks))
    ∧ user_song (ks_tables ks')
      = (if table_exists "user_song" ks then ∅ else user_song (ks_tables ks))
    ∧ question_2 (ks_tables ks') = question_2 (ks_tables ks).
Proof.
  eexists. split; [apply drop_cell_outcome|].
  rewrite !ks_catalog_drop_table. split; [done|].
  assert (∀ name k,
    ks_tables (drop_table name k)
    = if table_exists name k then drop_rows name (ks_tables k)
      else ks_tables k) as Hrows.
  { intros name k. unfold drop_table. by destruct (table_exists name k). }
  rewrite !Hrows.
  rewrite (table_exists_drop_table "song_playlist_session" "user_song")
    by done.
  rewrite !(table_exists_drop_table "artist_song_session") by done.
  destruct (table_exists "artist_song_session" ks),
    (table_exists "song_playlist_session" ks),
    (table_exists "user_song" ks); done.
Qed.

(** ** The notebook from top to bottom *)

Lemma count_cell_eq fs ks full rs tr :
  count_cell (World fs ks full rs tr)
  = match fs !! new_datafile with
    | Some _ =>
        (Ok tt,
         World fs ks full rs
           (tr ++ [FileOpen new_datafile; FileClose new_datafile]))
    | None => (Raise FileNotFoundError, World fs ks full rs tr)
    end.
Proof.
  unfold count_cell, with_open_read, open_read. rewrite bind_unfold.
  cbn [w_fs]. destruct (fs !! new_datafile); [|done].
  unfold finally, close, emit. cbn. by rewrite <- app_assoc.
Qed.

Lemma keyspace_cell_eq fs ks full rs tr :
  keyspace_cell (World fs ks full rs tr)
  = (Ok tt, World fs ks full rs (tr ++ [Execute CreateKeyspace])).
Proof. reflexivity. Qed.

Lemma set_keyspace_cell_eq fs ks full rs tr :
  set_keyspace_cell (World fs ks full rs tr)
  = (Ok tt, World fs ks full rs (tr ++ [SetKeyspace "sparkify"])).
Proof. reflexivity. Qed.

Lemma query_cell_ks q columns w :
  is_select q = true → w_ks (query_cell q columns w).2 = w_ks w.
Proof.
  intros Hq. destruct w as [fs ks full rs tr].
  unfold query_cell, try_print. rewrite !bind_unfold.
  unfold session_execute at 1.
  cbn [w_fs w_ks w_full_data_rows_list w_rows w_trace].
  assert ((exec q ks).2 = ks) as Hks.
  { destruct q; try done; cbn; by case_match. }
  destruct (exec q ks) as [[rows|e] ks']; cbn in Hks; subst ks';
    cbn [snd mret M_ret set_rows w_fs w_ks w_full_data_rows_list w_rows
         w_trace];
    unfold get_rows; cbn [w_rows].
  - unfold lift. by destruct (mapM _ rows).
  - destruct rs as [rows|]; [|done]. unfold lift. by destruct (mapM _ rows).
Qed.

Lemma load_cell_question_2 insert table w :
  inserts_into insert table → table ≠ "question_2" →
  question_2 (ks_tables (w_ks (load_cell insert w).2))
  = question_2 (ks_tables (w_ks w)).
Proof.
  intros Hins Hne. rewrite (load_cell_outcome insert table) by done.
  unfold load_outcome.
  destruct (w_fs w !! new_datafile) as [[|hdr lines]|]; try done.
  cbn [snd w_ks ks_tables].
  by apply (same_but_replay table);
    [apply plan_accepted_into|apply same_but_refl|].
Qed.

(** A completed transform phase: the catalog and what it leaves alone. *)
Lemma transform_ok_inv w0 w :
  transform w0 = (Ok tt, w) →
  ks_catalog (w_ks w)
  = create_catalog schema_user_song
      (create_catalog schema_song_playlist_session
         (create_catalog schema_artist_song_session (ks_catalog (w_ks w0))))
  ∧ question_2 (ks_tables (w_ks w)) = question_2 (ks_tables (w_ks w0)).
Proof.
  unfold transform. intros H.
  apply bind_ok_inv in H as ([] & w1 & H1 & H).
  apply bind_ok_inv in H as ([] & w2 & H2 & H).
  apply bind_ok_inv in H as ([] & w3 & H3 & H).
  apply bind_ok_inv in H as ([] & w4 & H4 & H).
  apply bind_ok_inv in H as ([] & w5 & H5 & H6).
  destruct w0 as [fs0 ks0 full0 rs0 tr0]. destruct w2 as [fs2 ks2 full2 rs2 tr2].
  destruct w4 as [fs4 ks4 full4 rs4 tr4].
  rewrite (create_table_cell_eq _ _ _ _ _ _ _ parse_ddl_artist_song_session) in H1.
  rewrite (create_table_cell_eq _ _ _ _ _ _ _ parse_ddl_song_playlist_session) in H3.
  rewrite (create_table_cell_eq _ _ _ _ _ _ _ parse_ddl_user_song) in H5.
  injection H1 as <-. injection H3 as <-. injection H5 as <-.
  pose proof (f_equal (λ x, w_ks x.2) H2) as E2.
  pose proof (f_equal (λ x, w_ks x.2) H4) as E4.
  pose proof (f_equal (λ x, w_ks x.2) H6) as E6.
  cbn [snd w_ks] in E2, E4, E6. split.
  - rewrite <- E6, (load_cell_catalog _ "user_song")
      by apply inserts_into_user_song.
    cbn [w_ks]. rewrite ks_catalog_create_table.
    rewrite <- E4, (load_cell_catalog _ "song_playlist_session")
      by apply inserts_into_song_playlist_session.
    cbn [w_ks]. rewrite ks_catalog_create_table.
    rewrite <- E2, (load_cell_catalog _ "artist_song_session")
      by apply inserts_into_artist_song_session.
    cbn [w_ks]. by rewrite ks_catalog_create_table.
  - rewrite <- E6, (load_cell_question_2 _ "user_song")
      by (apply inserts_into_user_song || done).
    cbn [w_ks]. rewrite ks_tables_create_table.
    rewrite <- E4, (load_cell_question_2 _ "song_playlist_session")
      by (apply inserts_into_song_playlist_session || done).
    cbn [w_ks]. rewrite ks_tables_create_table.
    rewrite <- E2, (load_cell_question_2 _ "artist_song_session")
      by (apply inserts_into_artist_song_session || done).
    cbn [w_ks]. by rewrite ks_tables_create_table.
Qed.

Lemma extract_cell_ks paths w : w_ks (extract_cell paths w).2 = w_ks w.
Proof.
  rewrite extract_cell_outcome. unfold extract_outcome.
  by destruct (gathered (w_fs w) paths) as [[[[]|e] rows] events].
Qed.

Lemma count_cell_ks w : w_ks (count_cell w).2 = w_ks w.
Proof.
  destruct w as [fs ks full rs tr]. rewrite count_cell_eq.
  by destruct (fs !! new_datafile).
Qed.

Lemma shutdown_cell_ks w : w_ks (shutdown_cell w).2 = w_ks w.
Proof. by destruct w. Qed.

(** A completed run, cell by cell: the world in which the transform phase
    started, the world it left, and the keyspace after the drop cell. *)
Lemma run_all_ok_inv file_path_list w w' :
  run_all file_path_list w = (Ok tt, w') →
  ∃ w5 w6,
    (extract_cell file_path_list w).1 = Ok tt
    ∧ w_fs w5 = w_fs (extract_cell file_path_list w).2
    ∧ w_ks w5 = w_ks w
    ∧ transform w5 = (Ok tt, w6)
    ∧ w_ks w'
      = drop_table "user_song"
          (drop_table "song_playlist_session"
             (drop_table "artist_song_session" (w_ks w6))).
Proof.
  unfold run_all. intros H.
  apply bind_ok_inv in H as ([] & w1 & H1 & H).
  apply bind_ok_inv in H as ([] & w2 & H2 & H).
  apply bind_ok_inv in H as ([] & w3 & H3 & H).
  apply bind_ok_inv in H as ([] & w4 & H4 & H).
  apply bind_ok_inv in H as ([] & w5 & H5 & H).
  apply bind_ok_inv in H as ([] & w6 & H6 & H).
  apply bind_ok_inv in H as (d1 & w7 & H7 & H).
  apply bind_ok_inv in H as (d2 & w8 & H8 & H).
  apply bind_ok_inv in H as (d3 & w9 & H9 & H).
  apply bind_ok_inv in H as ([] & w10 & H10 & H11).
  exists w5, w6. rewrite H1. split; [done|]. cbn [snd].
  assert (w_fs w5 = w_fs w1 ∧ w_ks w5 = w_ks w1) as [F5 E5].
  { apply (f_equal snd) in H2, H3, H4, H5. cbn [snd] in *.
    subst w5 w4 w3 w2. destruct w1 as [fs1 ks1 full1 rs1 tr1].
    rewrite count_cell_eq. by destruct (fs1 !! new_datafile). }
  split; [done|]. split.
  { rewrite E5. apply (f_equal (λ x, w_ks x.2)) in H1. cbn [snd] in H1.
    rewrite <- H1. apply extract_cell_ks. }
  split; [done|].
  assert (w_ks w9 = w_ks w6) as E9.
  { apply (f_equal (λ x, w_ks x.2)) in H7, H8, H9. cbn [snd] in *.
    rewrite <- H9. unfold query_3. rewrite query_cell_ks by done.
    rewrite <- H8. unfold query_2. rewrite query_cell_ks by done.
    rewrite <- H7. unfold query_1. by rewrite query_cell_ks. }
  destruct w9 as [fs9 ks9 full9 rs9 tr9]. rewrite drop_cell_outcome in H10.
  injection H10 as <-. cbn [w_ks] in E9. subst ks9.
  apply (f_equal (λ x, w_ks x.2)) in H11. cbn [snd] in H11.
  by rewrite <- H11, shutdown_cell_ks.
Qed.

(** The keyspace after the three DROP TABLE statements, the three tables
    being there. *)
Lemma dropped_all ks :
  table_exists "artist_song_session" ks = true →
  table_exists "song_playlist_session" ks = true →
  table_exists "user_song" ks = true →
  let ks' :=
    drop_table "user_song"
      (drop_table "song_playlist_session"
         (drop_table "artist_song_session" ks)) in
  ks_catalog ks'
  = delete "user_song"
      (delete "song_playlist_session"
         (delete "artist_song_session" (ks_catalog ks)))
  ∧ ks_tables ks'
    = Tables ∅ ∅ ∅ (question_2 (ks_tables ks)).
Proof.
  intros T1 T2 T3 ks'. subst ks'. rewrite !ks_catalog_drop_table.
  split; [done|].
  set (k1 := drop_table "artist_song_session" ks).
  set (k2 := drop_table "song_playlist_session" k1).
  assert (table_exists "song_playlist_session" k1 = true) as T2'.
  { unfold k1. by rewrite table_exists_drop_table. }
  assert (table_exists "user_song" k2 = true) as T3'.
  { unfold k2, k1. by rewrite !table_exists_drop_table. }
  unfold drop_table at 1. rewrite T3'. cbn [ks_tables].
  unfold k2, drop_table at 1. rewrite T2'. cbn [ks_tables].
  unfold k1, drop_table. by rewrite T1.
Qed.

(** Dropping the three tables undoes their creation. *)
Lemma delete_created (c : gmap string schema) :
  delete "user_song"
    (delete "song_playlist_session"
       (delete "artist_song_session"
          (create_catalog schema_user_song
             (create_catalog schema_song_playlist_session
                (create_catalog schema_artist_song_session c)))))
  = delete "user_song"
      (delete "song_playlist_session" (delete "artist_song_session" c)).
Proof.
  apply map_eq. intros name.
  rewrite !lookup_delete, !lookup_create_catalog.
  repeat case_decide; subst; done.
Qed.

(** X19. A run of the whole notebook that completes leaves none of its
    three tables behind: the catalog is the one the run started from
    without [artist_song_session], [song_playlist_session] and
    [user_song], even if they were there before the run, their rows are
    gone, and the rows of [question_2] are as they were. *)
Theorem notebook_leaves_no_table file_path_list w w' :
  run_all file_path_list w = (Ok tt, w') →
  ks_catalog (w_ks w')
  = delete "user_song"
      (delete "song_playlist_session"
         (delete "artist_song_session" (ks_catalog (w_ks w))))
  ∧ artist_song_session (ks_tables (w_ks w')) = ∅
  ∧ song_playlist_session (ks_tables (w_ks w')) = ∅
  ∧ user_song (ks_tables (w_ks w')) = ∅
  ∧ question_2 (ks_tables (w_ks w')) = question_2 (ks_tables (w_ks w)).
Proof.
  intros H.
  destruct (run_all_ok_inv _ _ _ H) as (w5 & w6 & _ & _ & K5 & Ht & ->).
  destruct (transform_ok_tables _ _ Ht) as (T1 & T2 & T3).
  destruct (transform_ok_inv _ _ Ht) as (C6 & Q6).
  destruct (dropped_all (w_ks w6) T1 T2 T3) as [-> ->].
  rewrite C6, K5, delete_created. cbn [artist_song_session
    song_playlist_session user_song question_2].
  by rewrite Q6, K5.
Qed.

(** ** How a run of the notebook can end *)

Lemma gathered_errors fs paths e :
  (gathered fs paths).1.1 = Raise e →
  e = FileNotFoundError ∨ e = StopIteration.
Proof.
  induction paths as [|f paths IH]; cbn [gathered]; [done|].
  destruct (fs !! f) as [[|hdr lines]|].
  - intros [= <-]. by right.
  - destruct (gathered fs paths) as [[res rows] events]. exact IH.
  - intros [= <-]. by left.
Qed.

Lemma written_errors rows e : (written rows).1 = Raise e → e = IndexError.
Proof.
  induction rows as [|r rows IH]; cbn [written]; [done|].
  destruct (writable r); [|by intros [= <-]].
  destruct (written rows) as [res out]. exact IH.
Qed.

Lemma extract_cell_errors paths w e :
  (extract_cell paths w).1 = Raise e →
  e = FileNotFoundError ∨ e = StopIteration ∨ e = IndexError.
Proof.
  rewrite extract_cell_outcome. unfold extract_outcome.
  pose proof (gathered_errors (w_fs w) paths) as Hg.
  destruct (gathered (w_fs w) paths) as [[[[]|e'] rows] events]; cbn [fst] in *.
  - intros ->%written_errors. by right; right.
  - intros [= <-]. destruct (Hg e' eq_refl) as [->| ->]; [by left|by right; left].
Qed.

Lemma extract_cell_new_file paths w :
  (extract_cell paths w).1 = Ok tt →
  has_new_file (w_fs (extract_cell paths w).2).
Proof.
  rewrite extract_cell_outcome. unfold extract_outcome.
  destruct (gathered (w_fs w) paths) as [[[[]|e'] rows] events]; [|done].
  cbn [fst snd w_fs]. intros _. exists header, (written rows).2.
  split; [apply lookup_insert_eq|apply written_width].
Qed.

Lemma load_cell_errors insert table w :
  (insert, table) ∈ loaders →
  has_new_file (w_fs w) →
  ((load_cell insert w).1 = Ok tt
   ∨ (load_cell insert w).1 = Raise ValueError
   ∨ (load_cell insert w).1 = Raise InvalidRequest)
  ∧ has_new_file (w_fs (load_cell insert w).2).
Proof.
  intros Hin (hdr & lines & Hfile & Hlines). split.
  - rewrite (load_cell_outcome insert table) by by apply inserts_into_loaders.
    unfold load_outcome. rewrite Hfile. cbn [fst].
    by apply (plan_width insert table).
  - rewrite reads_only_load_cell. by exists hdr, lines.
Qed.

Lemma transform_errors w :
  has_new_file (w_fs w) →
  (transform w).1 = Ok tt
  ∨ (transform w).1 = Raise ValueError
  ∨ (transform w).1 = Raise InvalidRequest.
Proof.
  intros Hfile. destruct w as [fs ks full rs tr]. unfold transform.
  rewrite bind_unfold,
    (create_table_cell_eq _ _ _ _ _ _ _ parse_ddl_artist_song_session).
  rewrite bind_unfold.
  match goal with |- context [load_cell _ ?w] =>
    destruct (load_cell_errors insert_artist_song_session
                "artist_song_session" w) as [Hr Hf];
      [unfold loaders; set_solver|exact Hfile|];
      destruct (load_cell insert_artist_song_session w) as [[[]|e] w2]
  end; cbn [fst snd] in *; [|by destruct Hr as [|[|]]; auto].
  clear Hr. destruct w2 as [fs2 ks2 full2 rs2 tr2].
  rewrite bind_unfold,
    (create_table_cell_eq _ _ _ _ _ _ _ parse_ddl_song_playlist_session).
  rewrite bind_unfold.
  match goal with |- context [load_cell _ ?w] =>
    destruct (load_cell_errors insert_song_playlist_session
                "song_playlist_session" w) as [Hr Hf'];
      [unfold loaders; set_solver|exact Hf|];
      destruct (load_cell insert_song_playlist_session w) as [[[]|e] w4]
  end; cbn [fst snd] in *; [|by destruct Hr as [|[|]]; auto].
  clear Hr. destruct w4 as [fs4 ks4 full4 rs4 tr4].
  rewrite bind_unfold,
    (create_table_cell_eq _ _ _ _ _ _ _ parse_ddl_user_song).
  match goal with |- context [load_cell _ ?w] =>
    destruct (load_cell_errors insert_user_song "user_song" w) as [Hr _];
      [unfold loaders; set_solver|exact Hf'|]
  end.
  exact Hr.
Qed.

Lemma database_phase_result w :
  has_new_file (w_fs w) →
  (database_phase w).1 = Ok tt
  ∨ (database_phase w).1 = Raise ValueError
  ∨ (database_phase w).1 = Raise InvalidRequest.
Proof.
  intros Hfile. destruct w as [fs ks full rs tr]. unfold database_phase.
  rewrite bind_unfold, keyspace_cell_eq, bind_unfold, set_keyspace_cell_eq,
    bind_unfold.
  match goal with |- context [transform ?w] =>
    pose proof (transform_errors w Hfile) as Hr;
    pose proof (transform_ok_tables w) as Ht;
    destruct (transform w) as [[[]|e] w6]
  end; cbn [fst] in *; [|exact Hr].
  destruct (Ht w6 eq_refl) as (T1 & T2 & T3).
  destruct w6 as [fs6 ks6 full6 rs6 tr6]. cbn [w_ks] in *.
  rewrite bind_unfold, query_1_answer by done.
  rewrite bind_unfold, query_2_answer by done.
  rewrite bind_unfold, query_3_answer by done.
  rewrite bind_unfold, drop_cell_outcome. by left.
Qed.

Lemma database_phase_holding :
  triple (holding (idle 1 1 0)) database_phase
    (λ _, holding (idle 0 1 1)) (holding (idle 1 1 0)).
Proof.
  unfold database_phase.
  apply tidy_then; [lia| |done|intros _].
  { apply tidy_calm, calm_try_print, calm_bind; [apply calm_session_execute|].
    intros _. apply calm_ret. }
  apply tidy_then; [lia| |done|intros _].
  { by apply tidy_calm, calm_try_print, calm_emit. }
  apply tidy_then; [lia|apply tidy_transform|done|intros _].
  apply tidy_then; [lia|apply tidy_calm, calm_query_cell|done|intros _].
  apply tidy_then; [lia|apply tidy_calm, calm_query_cell|done|intros _].
  apply tidy_then; [lia|apply tidy_calm, calm_query_cell|done|intros _].
  apply tidy_then; [lia|apply tidy_calm, calm_drop_cell|done|intros _].
  unfold shutdown_cell.
  eapply triple_bind with (R := λ _, holding (idle 1 1 0)).
  { apply (holding_emit SessionShutdown (idle 1 1 0)); split; cbn; lia. }
  intros _. eapply triple_weaken;
    [apply (holding_emit ClusterShutdown (idle 1 1 0)); split; cbn; lia
    |done|done|done].
Qed.

(** The ways a run of the cells after the listing cell can end, the list
    of files being any. *)
Lemma run_all_outcomes file_path_list fs ks :
  let run := run_all file_path_list (initial_world fs ks) in
  let held := resources_after (w_trace run.2) in
  (run.1 = Ok tt ∧ held = Resources 0 0 1 1)
  ∨ ((run.1 = Raise FileNotFoundError ∨ run.1 = Raise StopIteration
      ∨ run.1 = Raise IndexError)
     ∧ held = Resources 0 0 0 0)
  ∨ ((run.1 = Raise ValueError ∨ run.1 = Raise InvalidRequest)
     ∧ held = Resources 0 1 1 0).
Proof.
  intros run held. subst held run.
  change (run_all file_path_list)
    with (extract_cell file_path_list ;; count_cell ;; connect_cell ;;
          database_phase).
  rewrite bind_unfold.
  pose proof (tidy_extract_cell file_path_list 0%nat 0%nat 0%nat ltac:(lia)
                (initial_world fs ks) (conj safe_nil eq_refl)) as Hh.
  pose proof (extract_cell_errors file_path_list (initial_world fs ks)) as He.
  pose proof (extract_cell_new_file file_path_list (initial_world fs ks))
    as Hfile.
  destruct (extract_cell file_path_list (initial_world fs ks))
    as [[[]|e] w1]; cbn [fst snd] in *.
  - specialize (Hfile eq_refl). rewrite bind_unfold.
    pose proof (tidy_with_open_read new_datafile (λ _ : list row, mret tt)
                  (λ _, calm_ret tt) 0%nat 0%nat 0%nat ltac:(lia) w1 Hh) as Hc.
    fold count_cell in Hc.
    destruct w1 as [fs1 ks1 full1 rs1 tr1]. rewrite count_cell_eq in *.
    destruct Hfile as (hdr & lines & Hnew & Hlines). cbn [w_fs] in Hnew.
    rewrite Hnew in *. rewrite bind_unfold.
    pose proof (holding_emit ClusterConnect (idle 0 0 0)%nat
                  ltac:(split; cbn; lia) _ Hc) as H3.
    unfold connect_cell.
    destruct (emit ClusterConnect _) as [[[]|e] w3] eqn:E3; [|done].
    assert (has_new_file (w_fs w3)) as Hfile3.
    { unfold emit in E3. injection E3 as <-. by exists hdr, lines. }
    pose proof (database_phase_result w3 Hfile3) as Hr.
    pose proof (database_phase_holding w3 H3) as Hd.
    destruct (database_phase w3) as [[[]|e] w']; cbn [fst snd] in *.
    + left. split; [done|]. by destruct Hd as [_ ->].
    + right; right. destruct Hd as [_ ->]. split; [|done].
      destruct Hr as [?|[?|?]]; [done|by left|by right].
  - right; left. destruct Hh as [_ ->]. split; [|done].
    destruct (He e eq_refl) as [->|[->| ->]]; auto.
Qed.

(** The listing cell leaves [file_path_list] unbound exactly when
    [event_data] is not a directory. *)
Lemma file_path_list_unbound path event_data :
  file_path_list_cell path event_data = None
  ↔ ∀ name entries, event_data ≠ Some (Folder name entries).
Proof.
  unfold file_path_list_cell. rewrite foldl_rebind.
  destruct event_data as [[name|name entries]|]; cbn [walk last]; [done| |done].
  split; [|intros H; by destruct (H name entries)].
  by destruct (last (_ :: _)) eqn:E; [|apply last_None in E].
Qed.

(** X20. The ways a run of the whole notebook, from the listing cell on,
    can end.  It completes, having connected once and shut the connection
    down.  Or the extract cell raises NameError, FileNotFoundError,
    StopIteration or IndexError, before any connection is made; NameError
    exactly when the listing cell has bound no list, which is when
    [event_data] is not a directory.  Or an insert loop raises ValueError
    or the error of the store: the run stops there, the shutdown cell is
    not reached and the connection stays open.  None of the other
    exceptions of [exn] ends a run, and in every case no file is left
    open. *)
Theorem notebook_outcomes cwd event_data fs ks :
  let run := notebook cwd event_data (initial_world fs ks) in
  let held := resources_after (w_trace run.2) in
  ((run.1 = Ok tt ∧ held = Resources 0 0 1 1)
   ∨ ((run.1 = Raise NameError ∨ run.1 = Raise FileNotFoundError
       ∨ run.1 = Raise StopIteration ∨ run.1 = Raise IndexError)
      ∧ held = Resources 0 0 0 0)
   ∨ ((run.1 = Raise ValueError ∨ run.1 = Raise InvalidRequest)
      ∧ held = Resources 0 1 1 0))
  ∧ (run.1 = Raise NameError
     ↔ file_path_list_cell (filepath cwd) event_data = None)
  ∧ (run.1 = Raise NameError
     ↔ ∀ name entries, event_data ≠ Some (Folder name entries)).
Proof.
  intros run held. subst held run.
  rewrite <- (file_path_list_unbound (filepath cwd)).
  unfold notebook.
  destruct (file_path_list_cell (filepath cwd) event_data)
    as [file_path_list|].
  - pose proof (run_all_outcomes file_path_list fs ks) as H. cbn zeta in H.
    split; [|split; split; try done; intros Hn; rewrite Hn in H;
               by destruct H as [[? _]|[[[?|[?|?]] _]|[[?|?] _]]]].
    destruct H as [H|[[H Hheld]|H]]; [by left| |by right; right].
    right; left. split; [by right|done].
  - split; [|done]. right; left. split; [by left|done].
Qed.

(** ** Running the notebook again *)

Lemma bind_assoc_unit (m1 m2 m3 : M unit) w :
  (m1 ;; m2 ;; m3) w = ((m1 ;; m2) ;; m3) w.
Proof.
  rewrite !bind_unfold. destruct (m1 w) as [[[]|e] w1]; [|done].
  rewrite bind_unfold. by destruct (m2 w1) as [[[]|e] w2].
Qed.

Lemma fs_determined_bind (m k : M unit) :
  fs_determined m → fs_determined k → fs_determined (m ;; k).
Proof.
  intros Hm Hk w w' Hfs. rewrite !bind_unfold.
  destruct (Hm w w' Hfs) as [Hr Hf].
  destruct (m w) as [[[]|e] w1], (m w') as [[[]|e'] w1']; cbn in Hr, Hf;
    try done.
  by apply Hk.
Qed.

(** A CREATE TABLE cell and its insert cell: how they end depends on the
    new file alone, the table being there when the loop runs. *)
Lemma fs_determined_create_load ddl sc insert :
  parse_create_table ddl = Some sc →
  inserts_into insert (sc_name sc) →
  fs_determined (create_table_cell ddl ;; load_cell insert).
Proof.
  intros Hddl Hins [fs ks full rs tr] [fs' ks' full' rs' tr'].
  cbn [w_fs]. intros <-.
  rewrite !bind_unfold, !(create_table_cell_eq _ _ _ _ _ _ _ Hddl).
  rewrite !(load_cell_outcome insert (sc_name sc)) by done.
  unfold load_outcome.
  cbn [w_fs w_ks w_full_data_rows_list w_rows w_trace].
  rewrite !table_exists_create_table.
  by destruct (fs !! new_datafile) as [[|hdr lines]|].
Qed.

Lemma fs_determined_transform : fs_determined transform.
Proof.
  intros w w' Hfs. unfold transform.
  rewrite !(bind_assoc_unit (create_table_cell ddl_artist_song_session)).
  revert w w' Hfs. apply fs_determined_bind.
  { apply (fs_determined_create_load _ schema_artist_song_session);
      [apply parse_ddl_artist_song_session
      |apply inserts_into_artist_song_session]. }
  intros w w' Hfs.
  rewrite !(bind_assoc_unit (create_table_cell ddl_song_playlist_session)).
  revert w w' Hfs. apply fs_determined_bind.
  { apply (fs_determined_create_load _ schema_song_playlist_session);
      [apply parse_ddl_song_playlist_session
      |apply inserts_into_song_playlist_session]. }
  apply (fs_determined_create_load _ schema_user_song);
    [apply parse_ddl_user_song|apply inserts_into_user_song].
Qed.

Lemma database_phase_completes w :
  (∀ w5, w_fs w5 = w_fs w → (transform w5).1 = Ok tt) →
  (database_phase w).1 = Ok tt.
Proof.
  intros Hfs. destruct w as [fs ks full rs tr]. unfold database_phase.
  rewrite bind_unfold, keyspace_cell_eq, bind_unfold, set_keyspace_cell_eq,
    bind_unfold.
  match goal with |- context [transform ?w] =>
    pose proof (Hfs w eq_refl) as Hr;
    pose proof (transform_ok_tables w) as Ht;
    destruct (transform w) as [[[]|e] w6]
  end; cbn [fst] in *; [|done].
  destruct (Ht w6 eq_refl) as (T1 & T2 & T3).
  destruct w6 as [fs6 ks6 full6 rs6 tr6]. cbn [w_ks] in *.
  rewrite bind_unfold, query_1_answer by done.
  rewrite bind_unfold, query_2_answer by done.
  rewrite bind_unfold, query_3_answer by done.
  by rewrite bind_unfold, drop_cell_outcome.
Qed.

Lemma run_all_completes file_path_list w :
  (extract_cell file_path_list w).1 = Ok tt →
  (∀ w5, w_fs w5 = w_fs (extract_cell file_path_list w).2 →
         (transform w5).1 = Ok tt) →
  (run_all file_path_list w).1 = Ok tt.
Proof.
  intros He Ht.
  change (run_all file_path_list)
    with (extract_cell file_path_list ;; count_cell ;; connect_cell ;;
          database_phase).
  rewrite bind_unfold.
  pose proof (extract_cell_new_file file_path_list w He)
    as (hdr & lines & Hnew & _).
  destruct (extract_cell file_path_list w) as [[[]|e] [fs1 ks1 full1 rs1 tr1]];
    [|done].
  cbn [fst snd w_fs] in *.
  rewrite bind_unfold, count_cell_eq, Hnew, bind_unfold.
  unfold connect_cell, emit at 1.
  cbn [w_fs w_ks w_full_data_rows_list w_rows w_trace].
  apply database_phase_completes. exact Ht.
Qed.

(** X21. A completed run of the notebook can be repeated: when
    [event_datafile_new.csv] is not itself one of the listed files, a
    second run from where the first ended completes as well, and leaves the
    files and the keyspace as the first run left them. *)
Theorem notebook_rerun file_path_list w w1 :
  run_all file_path_list w = (Ok tt, w1) →
  new_datafile ∉ file_path_list →
  (run_all file_path_list w1).1 = Ok tt
  ∧ w_ks (run_all file_path_list w1).2 = w_ks w1
  ∧ w_fs (run_all file_path_list w1).2 = w_fs w1.
Proof.
  intros H Hnew.
  destruct (run_all_ok_inv _ _ _ H) as (w5 & w6 & E1 & F5 & K5 & Ht & Kw1).
  pose proof (run_all_fs file_path_list w) as Ffs.
  rewrite H in Ffs. cbn [snd] in Ffs.
  assert ((extract_cell file_path_list w1).1 = Ok tt
          ∧ w_fs (extract_cell file_path_list w1).2 = w_fs w1) as [E1' F1'].
  { rewrite extract_cell_outcome in E1, Ffs. rewrite extract_cell_outcome.
    unfold extract_outcome in *.
    destruct (gathered (w_fs w) file_path_list) as [[[[]|e] rows] events] eqn:G;
      [|done].
    cbn [fst snd w_fs] in E1, Ffs.
    rewrite (gathered_agree (w_fs w)), G.
    - cbn [fst snd w_fs]. split; [done|]. rewrite Ffs.
      by rewrite insert_insert_eq.
    - intros f Hf. rewrite Ffs, lookup_insert_ne; [done|]. by intros <-. }
  assert ((run_all file_path_list w1).1 = Ok tt) as Hrun.
  { apply run_all_completes; [done|]. intros w5' F5'.
    rewrite (proj1 (fs_determined_transform w5' w5 ltac:(congruence))).
    by rewrite Ht. }
  split; [done|]. split; [|by rewrite run_all_fs].
  destruct (run_all file_path_list w1) as [r w2] eqn:H2.
  cbn [fst snd] in *. subst r.
  destruct (run_all_ok_inv _ _ _ H2) as (w5' & w6' & _ & _ & K5' & Ht' & ->).
  destruct (transform_ok_tables _ _ Ht) as (T1 & T2 & T3).
  destruct (transform_ok_tables _ _ Ht') as (T1' & T2' & T3').
  destruct (transform_ok_inv _ _ Ht) as (C6 & Q6).
  destruct (transform_ok_inv _ _ Ht') as (C6' & Q6').
  destruct (dropped_all (w_ks w6) T1 T2 T3) as [Dc Dt].
  destruct (dropped_all (w_ks w6') T1' T2' T3') as [Dc' Dt'].
  rewrite Kw1. apply keyspace_eq.
  - rewrite Dc', Dc, C6', C6, K5', Kw1, Dc, C6, !delete_created.
    apply map_eq. intros name. rewrite !lookup_delete.
    repeat case_decide; done.
  - rewrite Dt', Dt, Q6', K5', Kw1, Dt. done.
Qed.
End Pipeline.

(** * The notebook on a small log *)

(** The decimal fragment of the two conversions, enough to run the notebook
    on the sample below: an optional minus sign and digits for [int()], and
    digits, a point and digits for [float()], read as a number of units of
    the last decimal place. *)
Definition digit (c : ascii) : option Z :=
  let n := Z.of_nat (nat_of_ascii c) in
  if (48 <=? n) && (n <=? 57) then Some (n - 48) else None.

Fixpoint digits (s : string) (acc : Z) : option Z :=
  match s with
  | EmptyString => Some acc
  | String c s' =>
      match digit c with
      | Some d => digits s' (10 * acc + d)
      | None => None
      end
  end.

Definition decimal_int (s : string) : option Z :=
  match s with
  | EmptyString => None
  | String "-" EmptyString => None
  | String "-" s' => Z.opp <$> digits s' 0
  | _ => digits s 0
  end.

Fixpoint split_point (s : string) (before : string) : string * option string :=
  match s with
  | EmptyString => (before, None)
  | String "." s' => (before, Some s')
  | String c s' => split_point s' (before +:+ String c "")
  end.

Definition decimal_float (s : string) : option (Z * nat) :=
  match split_point s "" with
  | ("", _) => None
  | (whole, None) => (λ z, (z, 0%nat)) <$> digits whole 0
  | (whole, Some frac) =>
      (λ z, (z, String.length frac)) <$> digits (whole +:+ frac) 0
  end.

(** An event record of the log: the 17 columns of the event files. *)
Definition sample_event
    (artist first_name item_in_session last_name length session_id song
       user_id : string) : row :=
  [artist; "Logged In"; first_name; "F"; item_in_session; last_name; length;
   "free"; "Lansing-East Lansing, MI"; "PUT"; "NextSong"; "1.54101E+12";
   session_id; song; "200"; "1.54224E+12"; user_id].

Definition event_header : row :=
  ["artist"; "auth"; "firstName"; "gender"; "itemInSession"; "lastName";
   "length"; "level"; "location"; "method"; "page"; "registration";
   "sessionId"; "song"; "status"; "ts"; "userId"].

Definition events_08 : list row :=
  [sample_event "Lonnie Gordon" "Sylvie" "3" "Cruz" "181.21"
     "182" "Catch You Baby (Steve Pitron & Max Sanna Radio Edit)" "10";
   sample_event "" "Sylvie" "4" "Cruz" "" "182" "" "10";
   sample_event "Down To The Bone" "Sylvie" "0" "Cruz" "333.76608"
     "182" "Keep On Keepin' On" "10";
   sample_event "The Black Keys" "Jacqueline" "50" "Lynch" "196.91057"
     "559" "All Hands Against His Own" "29";
   sample_event "Faithless" "Ava" "4" "Robinson" "495.3073"
     "338" "Music Matters (Mark Knight Dub)" "50"].

Definition events_09 : list row :=
  [sample_event "Three Drives" "Sylvie" "1" "Cruz" "411.6371"
     "182" "Greece 2000" "10";
   sample_event "The Black Keys" "Tegan" "25" "Levine" "196.91057"
     "611" "All Hands Against His Own" "80";
   sample_event "Sebastien Tellier" "Sylvie" "2" "Cruz" "377.73016"
     "182" "Kilometer" "10";
   sample_event "The Black Keys" "Sara" "31" "Johnson" "196.91057"
     "152" "All Hands Against His Own" "95";
   sample_event "The Black Keys" "Jacqueline" "7" "Lynch" "196.91057"
     "700" "All Hands Against His Own" "29"].

Definition sample_paths : list string :=
  ["event_data/2018-11-08-events.csv"; "event_data/2018-11-09-events.csv"].

Definition sample_fs : gmap string (list row) :=
  {[ "event_data/2018-11-08-events.csv" := event_header :: events_08;
     "event_data/2018-11-09-events.csv" := event_header :: events_09 ]}.

(** The world after the extract cell, and after the transform phase. *)
Definition extracted : world (double := Z * nat) :=
  (extract_cell sample_paths (initial_world sample_fs empty_keyspace)).2.

Definition loaded : world (double := Z * nat) :=
  (transform decimal_int decimal_float extracted).2.

Example extract_sample :
  w_fs extracted !! new_datafile
  = Some (filter_and_project (events_08 ++ events_09)).
Proof. vm_compute. reflexivity. Qed.

Example extract_sample_rows :
  length <$> w_fs extracted !! new_datafile = Some 10%nat.
Proof. vm_compute. reflexivity. Qed.

Example transform_sample :
  (transform decimal_int decimal_float extracted).1 = Ok tt.
Proof. vm_compute. reflexivity. Qed.

Example query_1_sample :
  (query_1 loaded).1
  = Ok [[VText "Faithless"; VText "Music Matters (Mark Knight Dub)";
         VDouble (4953073, 4%nat)]].
Proof. vm_compute. reflexivity. Qed.

Example query_2_sample :
  (query_2 loaded).1
  = Ok [[VText "Down To The Bone"; VText "Keep On Keepin' On"; VInt 0;
         VText "Sylvie"; VText "Cruz"];
        [VText "Three Drives"; VText "Greece 2000"; VInt 1;
         VText "Sylvie"; VText "Cruz"];
        [VText "Sebastien Tellier"; VText "Kilometer"; VInt 2;
         VText "Sylvie"; VText "Cruz"];
        [VText "Lonnie Gordon";
         VText "Catch You Baby (Steve Pitron & Max Sanna Radio Edit)"; VInt 3;
         VText "Sylvie"; VText "Cruz"]].
Proof. vm_compute. reflexivity. Qed.

Example query_3_sample :
  (query_3 loaded).1
  = Ok [[VText "Jacqueline"; VText "Lynch"]; [VText "Tegan"; VText "Levine"];
        [VText "Sara"; VText "Johnson"]].
Proof. vm_compute. reflexivity. Qed.

Example query_3_readme_sample :
  (query_3_readme loaded).1
  = Ok [[VInt 29; VText "Jacqueline"; VText "Lynch"];
        [VInt 80; VText "Tegan"; VText "Levine"];
        [VInt 95; VText "Sara"; VText "Johnson"]].
Proof. vm_compute. reflexivity. Qed.

Example run_all_sample :
  (run_all decimal_int decimal_float sample_paths
     (initial_world sample_fs (empty_keyspace (double := Z * nat)))).1
  = Ok tt.
Proof. vm_compute. reflexivity. Qed.

(** * The theorems on the sample log *)

Lemma extract_filter_and_project_witness :
  Forall (λ r : row, (17 ≤ length r)%nat) (events_08 ++ events_09)
  ∧ write_new_datafile
      (World sample_fs (empty_keyspace (double := Z * nat))
         (events_08 ++ events_09) None [])
    = (Ok tt,
       World (<[new_datafile := filter_and_project (events_08 ++ events_09)]>
                sample_fs)
         empty_keyspace (events_08 ++ events_09) None
         ([] ++ [FileOpen new_datafile; FileClose new_datafile])).
Proof.
  assert (Forall (λ r : row, (17 ≤ length r)%nat) (events_08 ++ events_09)) as H
    by (repeat constructor; cbn; lia).
  split; [exact H|]. apply (extract_filter_and_project _ _ _ _ _ H).
Defined.

Lemma queries_are_equality_lookups_witness :
  transform decimal_int decimal_float extracted = (Ok tt, loaded)
  ∧ let t := ks_tables (w_ks loaded) in
    let w' := World sample_fs (w_ks loaded) [] None [] in
    (∃ data w1, query_1 w' = (Ok data, w1) ∧ w_ks w1 = w_ks loaded
       ∧ ∀ r, r ∈ data ↔
           ∃ artist song len,
             r = [VText artist; VText song; VDouble len]
             ∧ stored 338 4 (artist, song, len) (artist_song_session t))
    ∧ (∃ data w2, query_2 w' = (Ok data, w2) ∧ w_ks w2 = w_ks loaded
       ∧ ∀ r, r ∈ data ↔
           ∃ item artist song first last,
             r = [VText artist; VText song; VInt item; VText first; VText last]
             ∧ stored (10, 182) item (artist, song, first, last)
                 (song_playlist_session t))
    ∧ (∃ data w3, query_3 w' = (Ok data, w3) ∧ w_ks w3 = w_ks loaded
       ∧ ∀ r, r ∈ data ↔
           ∃ uid first last,
             r = [VText first; VText last]
             ∧ stored "All Hands Against His Own" uid (first, last)
                 (user_song t)).
Proof.
  assert (transform decimal_int decimal_float extracted = (Ok tt, loaded)) as H
    by (vm_compute; reflexivity).
  split; [exact H|].
  apply (queries_are_equality_lookups decimal_int decimal_float
           extracted loaded sample_fs [] None [] H).
Defined.

(** The world in which the first insert cell runs: the new file written,
    the table created. *)
Definition created : world (double := Z * nat) :=
  (create_table_cell ddl_artist_song_session extracted).2.

(** A new file whose second record has no session id, and the world in
    which the first insert cell runs on it. *)
Definition events_partial : list row :=
  [sample_event "Three Drives" "Sylvie" "1" "Cruz" "411.6371"
     "182" "Greece 2000" "10";
   sample_event "Faithless" "Ava" "4" "Robinson" "495.3073"
     "" "Music Matters (Mark Knight Dub)" "50";
   sample_event "Sebastien Tellier" "Sylvie" "2" "Cruz" "377.73016"
     "182" "Kilometer" "10"].

Definition created_partial : world (double := Z * nat) :=
  (create_table_cell ddl_artist_song_session
     (extract_cell ["event_data/2018-11-10-events.csv"]
        (initial_world
           {[ "event_data/2018-11-10-events.csv"
              := event_header :: events_partial ]}
           empty_keyspace)).2).2.

Lemma load_one_insert_per_record_witness :
  let insert := insert_artist_song_session decimal_int decimal_float in
  let lines := keep <$> List.filter has_artist (events_08 ++ events_09) in
  let good :=
    [keep (sample_event "Three Drives" "Sylvie" "1" "Cruz" "411.6371"
             "182" "Greece 2000" "10")] in
  let bad :=
    keep (sample_event "Faithless" "Ava" "4" "Robinson" "495.3073"
            "" "Music Matters (Mark Knight Dub)" "50") in
  let rest :=
    [keep (sample_event "Sebastien Tellier" "Sylvie" "2" "Cruz" "377.73016"
             "182" "Kilometer" "10")] in
  (insert, "artist_song_session") ∈ loaders decimal_int decimal_float
  ∧ (w_fs created !! new_datafile = Some (header :: lines)
     ∧ table_exists "artist_song_session" (w_ks created) = true
     ∧ forallb (row_ok insert) lines = true
     ∧ ∃ qs w',
         load_cell insert created = (Ok tt, w')
         ∧ w_trace w'
           = w_trace created ++ FileOpen new_datafile :: (Execute <$> qs)
               ++ [FileClose new_datafile]
         ∧ Forall2 (λ line q, insert line = Ok q ∧ is_insert q = true) lines qs
         ∧ length qs = length lines)
  ∧ (w_fs created_partial !! new_datafile
     = Some (header :: good ++ bad :: rest)
     ∧ table_exists "artist_song_session" (w_ks created_partial) = true
     ∧ forallb (row_ok insert) good = true
     ∧ row_ok insert bad = false
     ∧ ∃ qs w',
         load_cell insert created_partial
         = (Raise (match insert bad with
                   | Raise e => e
                   | Ok _ => InvalidRequest
                   end), w')
         ∧ w_trace w'
           = w_trace created_partial
             ++ FileOpen new_datafile
                :: (Execute <$> qs ++ match insert bad with
                                      | Ok q => [q]
                                      | Raise _ => []
                                      end)
             ++ [FileClose new_datafile]
         ∧ Forall2 (λ line q, insert line = Ok q ∧ is_insert q = true) good qs
         ∧ length qs = length good).
Proof.
  intros insert lines good bad rest.
  assert ((insert, "artist_song_session") ∈ loaders decimal_int decimal_float)
    as H1 by apply list_elem_of_here.
  assert (w_fs created !! new_datafile = Some (header :: lines)) as H2
    by (vm_compute; reflexivity).
  assert (table_exists "artist_song_session" (w_ks created) = true) as H3
    by (vm_compute; reflexivity).
  assert (forallb (row_ok insert) lines = true) as H4
    by (vm_compute; reflexivity).
  assert (w_fs created_partial !! new_datafile
          = Some (header :: good ++ bad :: rest)) as H5
    by (vm_compute; reflexivity).
  assert (table_exists "artist_song_session" (w_ks created_partial) = true)
    as H6 by (vm_compute; reflexivity).
  assert (forallb (row_ok insert) good = true) as H7
    by (vm_compute; reflexivity).
  assert (row_ok insert bad = false) as H8 by (vm_compute; reflexivity).
  split; [exact H1|]. split.
  - split_and!; [exact H2|exact H3|exact H4|].
    exact (proj1 (load_one_insert_per_record decimal_int decimal_float insert
                    "artist_song_session" header lines created H1 H2 H3) H4).
  - split_and!; [exact H5|exact H6|exact H7|exact H8|].
    exact (proj1 (proj2 (load_one_insert_per_record decimal_int decimal_float
                           insert "artist_song_session" header
                           (good ++ bad :: rest) created_partial H1 H5 H6))
             good bad rest eq_refl H7 H8).
Defined.

Lemma query_2_sorted_witness :
  tables_wf (ks_tables (w_ks extracted))
  ∧ transform decimal_int decimal_float extracted = (Ok tt, loaded)
  ∧ ∃ data w' items,
      query_2 loaded = (Ok data, w')
      ∧ item_in_session_column data = (λ i, Some (VInt i)) <$> items
      ∧ StronglySorted Z.lt items.
Proof.
  assert (tables_wf (ks_tables (w_ks extracted))) as H1.
  { replace (ks_tables (w_ks extracted)) with (Tables (double := Z * nat) ∅ ∅ ∅ ∅)
      by (vm_compute; reflexivity).
    apply tables_wf_empty. }
  assert (transform decimal_int decimal_float extracted = (Ok tt, loaded)) as H2
    by (vm_compute; reflexivity).
  split_and!; [exact H1|exact H2|].
  apply (query_2_sorted_by_item_in_session decimal_int decimal_float
           extracted loaded H1 H2).
Defined.

Lemma user_song_one_row_per_user_witness :
  let t := Tables (double := Z * nat) ∅ ∅ ∅ ∅ in
  let qs :=
    [InsertUserSong "All Hands Against His Own" 29 "Jacqueline" "Lynch";
     InsertUserSong "All Hands Against His Own" 80 "Tegan" "Levine";
     InsertUserSong "All Hands Against His Own" 29 "Jackie" "Lynch"] in
  tables_wf t
  ∧ ∀ song, NoDup (table_partition song
                     (user_song (foldl (flip insert_row) t qs))).*1.
Proof.
  intros t qs. split; [apply tables_wf_empty|].
  apply (user_song_one_row_per_user t qs tables_wf_empty).
Defined.

(** * Where the code departs from the claims as stated *)

(** A log in which one song was played with no session id recorded. *)
Definition events_bad : list row :=
  [sample_event "Faithless" "Ava" "4" "Robinson" "495.3073"
     "" "Music Matters (Mark Knight Dub)" "50";
   sample_event "Three Drives" "Sylvie" "1" "Cruz" "411.6371"
     "182" "Greece 2000" "10"].

Definition created_bad : world (double := Z * nat) :=
  (create_table_cell ddl_artist_song_session
     (extract_cell ["event_data/2018-11-10-events.csv"]
        (initial_world
           {[ "event_data/2018-11-10-events.csv" := event_header :: events_bad ]}
           empty_keyspace)).2).2.

(** C3 as stated fails: on a new file of one header line and two records,
    the first with an empty sessionId, [int('')] raises ValueError in the
    first turn of the loop, which ends the cell with no INSERT sent. *)
Lemma load_stops_at_malformed_record :
  let run :=
    load_cell (insert_artist_song_session decimal_int decimal_float)
      created_bad in
  (length <$> w_fs created_bad !! new_datafile,
   run.1,
   List.filter is_insert (executed (w_trace run.2)))
  = (Some 3%nat, Raise ValueError, []).
Proof. vm_compute. reflexivity. Qed.

(** C6 as stated fails: the three query cells call [session.execute] with
    the query text alone, the constants written in it. *)
Lemma selects_pass_no_parameters :
  (last (executed (w_trace (query_1 loaded).2)),
   last (executed (w_trace (query_2 loaded).2)),
   last (executed (w_trace (query_3 loaded).2)))
  = (Some SelectArtistSongSession, Some SelectSongPlaylistSession,
     Some SelectUserSong)
  ∧ (query_text (double := Z * nat) SelectArtistSongSession,
     query_params (double := Z * nat) SelectArtistSongSession)
    = ("SELECT artist, song, length FROM artist_song_session WHERE session_id=338 and item_in_session=4",
       None)
  ∧ (query_text (double := Z * nat) SelectSongPlaylistSession,
     query_params (double := Z * nat) SelectSongPlaylistSession)
    = ("SELECT item_in_session, artist, song, first_name, last_name FROM song_playlist_session WHERE user_id=10 and session_id=182",
       None)
  ∧ (query_text (double := Z * nat) SelectUserSong,
     query_params (double := Z * nat) SelectUserSong)
    = ("SELECT first_name, last_name FROM user_song WHERE song='All Hands Against His Own'",
       None).
Proof. split_and!; vm_compute; reflexivity. Qed.

(** * The further theorems on samples *)

(** An [event_data] directory as a notebook server leaves it: the event
    files, and a hidden folder of checkpoints listed last. *)
Definition sample_tree : entry :=
  Folder "event_data"
    [File "2018-11-08-events.csv";
     File ".DS_Store";
     File "2018-11-09-events.csv";
     Folder ".ipynb_checkpoints" [File "2018-11-08-events-checkpoint.csv"]].

Definition sample_flat_tree : entry :=
  Folder "event_data"
    [File "2018-11-08-events.csv";
     File ".DS_Store";
     File "2018-11-09-events.csv"].

Lemma file_path_list_names_files_witness :
  has_magic "/home/workspace" = false
  ∧ plain_folders sample_tree = true
  ∧ file_path_list_cell (λ _, []) (filepath "/home/workspace")
      (Some sample_tree)
    = Some ["/home/workspace/event_data/.ipynb_checkpoints/2018-11-08-events-checkpoint.csv"]
  ∧ ∃ e root entries,
      Some sample_tree = Some e
      ∧ is_file e = false
      ∧ last (walk (filepath "/home/workspace") e) = Some (root, entries)
      ∧ (root, entries) ∈ walk (filepath "/home/workspace") e
      ∧ forallb is_file entries = true
      ∧ ["/home/workspace/event_data/.ipynb_checkpoints/2018-11-08-events-checkpoint.csv"]
        = path_join root
          <$> (entry_name
               <$> List.filter (λ c, negb (hidden (entry_name c))) entries).
Proof.
  assert (has_magic "/home/workspace" = false) as H1 by reflexivity.
  assert (plain_folders sample_tree = true) as H2 by reflexivity.
  assert (∀ e, Some sample_tree = Some e → plain_folders e = true) as H2'.
  { intros e He. injection He as <-. exact H2. }
  assert (file_path_list_cell (λ _, []) (filepath "/home/workspace")
            (Some sample_tree)
          = Some ["/home/workspace/event_data/.ipynb_checkpoints/2018-11-08-events-checkpoint.csv"])
    as H by (vm_compute; reflexivity).
  split_and!; [exact H1|exact H2|exact H|].
  apply (file_path_list_names_files (λ _, []) "/home/workspace"
           (Some sample_tree) _ H1 H2' H).
Defined.

Lemma file_path_list_flat_directory_witness :
  has_magic "/home/workspace" = false
  ∧ forallb is_file
      [File "2018-11-08-events.csv"; File ".DS_Store";
       File "2018-11-09-events.csv"] = true
  ∧ file_path_list_cell (λ _, []) (filepath "/home/workspace")
      (Some sample_flat_tree)
    = Some (path_join (filepath "/home/workspace")
            <$> (entry_name
                 <$> List.filter (λ c, negb (hidden (entry_name c)))
                       [File "2018-11-08-events.csv"; File ".DS_Store";
                        File "2018-11-09-events.csv"])).
Proof.
  split_and!; [reflexivity|reflexivity|].
  apply (file_path_list_flat_directory (λ _, []) "/home/workspace"
           "event_data"
           [File "2018-11-08-events.csv"; File ".DS_Store";
            File "2018-11-09-events.csv"] eq_refl eq_refl).
Defined.

Lemma file_path_list_last_sub_directory_witness :
  forallb is_file [] = true
  ∧ file_path_list_cell (λ _, []) "/home/workspace/event_data"
      (Some sample_tree)
    = file_path_list_cell (λ _, [])
        (path_join "/home/workspace/event_data" ".ipynb_checkpoints")
        (Some (Folder ".ipynb_checkpoints"
                 [File "2018-11-08-events-checkpoint.csv"])).
Proof.
  split; [reflexivity|].
  apply (file_path_list_last_sub_directory (λ _, [])
           "/home/workspace/event_data" "event_data"
           [File "2018-11-08-events.csv"; File ".DS_Store";
            File "2018-11-09-events.csv"]
           ".ipynb_checkpoints" [File "2018-11-08-events-checkpoint.csv"] []
           eq_refl).
Defined.

Definition sample_contents : list (list row) :=
  [event_header :: events_08; event_header :: events_09].

Lemma extract_cell_merges_files_witness :
  Forall2 (λ f c, sample_fs !! f = Some c ∧ c ≠ []) sample_paths
    sample_contents
  ∧ forallb writable (concat (tail <$> sample_contents)) = true
  ∧ extract_cell sample_paths
      (World sample_fs (empty_keyspace (double := Z * nat)) [] None [])
    = (Ok tt,
       World
         (<[new_datafile
            := filter_and_project (concat (tail <$> sample_contents))]>
            sample_fs)
         empty_keyspace (concat (tail <$> sample_contents)) None
         ([] ++ concat ((λ f, [FileOpen f; FileClose f]) <$> sample_paths)
             ++ [FileOpen new_datafile; FileClose new_datafile])).
Proof.
  assert (Forall2 (λ f c, sample_fs !! f = Some c ∧ c ≠ []) sample_paths
            sample_contents) as H1.
  { repeat constructor; done || (vm_compute; reflexivity). }
  assert (forallb writable (concat (tail <$> sample_contents)) = true) as H2
    by (vm_compute; reflexivity).
  split_and!; [exact H1|exact H2|].
  apply (extract_cell_merges_files _ _ _ _ _ _ _ H1 H2).
Defined.

Lemma extract_cell_stops_at_unreadable_file_witness :
  let fs : gmap string (list row) :=
    <["event_data/2018-11-10-events.csv" := []]> sample_fs in
  let run :=
    extract_cell
      (sample_paths
         ++ "event_data/2018-11-10-events.csv"
            :: ["event_data/2018-11-11-events.csv"])
      (World fs (empty_keyspace (double := Z * nat)) [] None []) in
  Forall2 (λ f c, fs !! f = Some c ∧ c ≠ []) sample_paths sample_contents
  ∧ (fs !! "event_data/2018-11-10-events.csv" = None
     ∨ fs !! "event_data/2018-11-10-events.csv" = Some [])
  ∧ run.1 = Raise (match fs !! "event_data/2018-11-10-events.csv" with
                   | Some _ => StopIteration
                   | None => FileNotFoundError
                   end)
  ∧ w_fs run.2 = fs
  ∧ w_full_data_rows_list run.2 = concat (tail <$> sample_contents)
  ∧ w_ks run.2 = empty_keyspace.
Proof.
  intros fs run.
  assert (Forall2 (λ f c, fs !! f = Some c ∧ c ≠ []) sample_paths
            sample_contents) as H1.
  { repeat constructor; done || (vm_compute; reflexivity). }
  assert (fs !! "event_data/2018-11-10-events.csv" = None
          ∨ fs !! "event_data/2018-11-10-events.csv" = Some []) as H2.
  { right. vm_compute. reflexivity. }
  split; [exact H1|]. split; [exact H2|].
  apply (extract_cell_stops_at_unreadable_file sample_paths sample_contents
           "event_data/2018-11-10-events.csv"
           ["event_data/2018-11-11-events.csv"] fs empty_keyspace [] None []
           H1 H2).
Defined.

Lemma write_stops_at_short_record_witness :
  forallb writable events_08 = true
  ∧ writable ["Faithless"; "Logged In"; "Ava"] = false
  ∧ write_new_datafile
      (World sample_fs (empty_keyspace (double := Z * nat))
         (events_08 ++ ["Faithless"; "Logged In"; "Ava"] :: events_09)
         None [])
    = (Raise IndexError,
       World (<[new_datafile := filter_and_project events_08]> sample_fs)
         empty_keyspace
         (events_08 ++ ["Faithless"; "Logged In"; "Ava"] :: events_09) None
         ([] ++ [FileOpen new_datafile; FileClose new_datafile])).
Proof.
  assert (forallb writable events_08 = true) as H1 by (vm_compute; reflexivity).
  assert (writable ["Faithless"; "Logged In"; "Ava"] = false) as H2
    by (vm_compute; reflexivity).
  split_and!; [exact H1|exact H2|].
  apply (write_stops_at_short_record _ _ _ _ _ _ _ H1 H2).
Defined.

Lemma extract_cell_rerun_witness :
  let w := initial_world sample_fs (empty_keyspace (double := Z * nat)) in
  let once := extract_cell sample_paths w in
  let twice := extract_cell sample_paths once.2 in
  (new_datafile ∉ sample_paths)
  ∧ twice.1 = once.1
  ∧ w_fs twice.2 = w_fs once.2
  ∧ w_full_data_rows_list twice.2 = w_full_data_rows_list once.2
  ∧ w_ks twice.2 = w_ks w.
Proof.
  intros w once twice.
  assert (new_datafile ∉ sample_paths) as H.
  { unfold sample_paths. rewrite !not_elem_of_cons. split_and!; try done.
    apply not_elem_of_nil. }
  split; [exact H|]. apply (extract_cell_rerun sample_paths w H).
Defined.

Lemma load_after_extract_witness :
  let w0 := initial_world sample_fs (empty_keyspace (double := Z * nat)) in
  let insert := insert_user_song (double := Z * nat) decimal_int in
  (extract_cell sample_paths w0).1 = Ok tt
  ∧ (insert, "user_song") ∈ loaders decimal_int decimal_float
  ∧ w_fs extracted = w_fs (extract_cell sample_paths w0).2
  ∧ (count_cell extracted).1 = Ok tt
  ∧ ((load_cell insert extracted).1 = Ok tt
     ∨ (load_cell insert extracted).1 = Raise ValueError
     ∨ (load_cell insert extracted).1 = Raise InvalidRequest).
Proof.
  intros w0 insert.
  assert ((extract_cell sample_paths w0).1 = Ok tt) as H1
    by (vm_compute; reflexivity).
  assert ((insert, "user_song") ∈ loaders decimal_int decimal_float) as H2.
  { unfold loaders. do 2 apply list_elem_of_further. apply list_elem_of_here. }
  split_and!; [exact H1|exact H2|reflexivity|..];
    apply (load_after_extract decimal_int decimal_float sample_paths w0 insert
             "user_song" extracted H1 H2 eq_refl).
Defined.

Lemma load_stops_without_rollback_witness :
  let insert := insert_artist_song_session decimal_int decimal_float in
  let good :=
    [keep (sample_event "Three Drives" "Sylvie" "1" "Cruz" "411.6371"
             "182" "Greece 2000" "10")] in
  let bad :=
    keep (sample_event "Faithless" "Ava" "4" "Robinson" "495.3073"
            "" "Music Matters (Mark Knight Dub)" "50") in
  let rest :=
    [keep (sample_event "Sebastien Tellier" "Sylvie" "2" "Cruz" "377.73016"
             "182" "Kilometer" "10")] in
  (insert, "artist_song_session") ∈ loaders decimal_int decimal_float
  ∧ w_fs created_partial !! new_datafile = Some (header :: good ++ bad :: rest)
  ∧ table_exists "artist_song_session" (w_ks created_partial) = true
  ∧ forallb (row_ok insert) good = true
  ∧ row_ok insert bad = false
  ∧ ∃ qs,
      Forall2 (λ line q, insert line = Ok q) good qs
      ∧ (load_cell insert created_partial).1
        = Raise (match insert bad with
                 | Raise e => e
                 | Ok _ => InvalidRequest
                 end)
      ∧ ks_tables (w_ks (load_cell insert created_partial).2)
        = foldl (flip insert_row) (ks_tables (w_ks created_partial)) qs
      ∧ w_trace (load_cell insert created_partial).2
        = w_trace created_partial
          ++ FileOpen new_datafile
             :: (Execute <$> qs ++ match insert bad with
                                   | Ok q => [q]
                                   | Raise _ => []
                                   end)
          ++ [FileClose new_datafile].
Proof.
  intros insert good bad rest.
  assert ((insert, "artist_song_session") ∈ loaders decimal_int decimal_float)
    as H1 by apply list_elem_of_here.
  assert (w_fs created_partial !! new_datafile
          = Some (header :: good ++ bad :: rest)) as H2
    by (vm_compute; reflexivity).
  assert (table_exists "artist_song_session" (w_ks created_partial) = true)
    as H3 by (vm_compute; reflexivity).
  assert (forallb (row_ok insert) good = true) as H4
    by (vm_compute; reflexivity).
  assert (row_ok insert bad = false) as H5 by (vm_compute; reflexivity).
  split_and!; [exact H1|exact H2|exact H3|exact H4|exact H5|].
  apply (load_stops_without_rollback decimal_int decimal_float insert
           "artist_song_session" header good bad rest created_partial
           H1 H2 H3 H4 H5).
Defined.

Lemma load_without_table_witness :
  let insert := insert_user_song (double := Z * nat) decimal_int in
  let line :=
    keep (sample_event "Three Drives" "Sylvie" "1" "Cruz" "411.6371"
            "182" "Greece 2000" "10") in
  let rest :=
    [keep (sample_event "Faithless" "Ava" "4" "Robinson" "495.3073"
             "" "Music Matters (Mark Knight Dub)" "50");
     keep (sample_event "Sebastien Tellier" "Sylvie" "2" "Cruz" "377.73016"
             "182" "Kilometer" "10")] in
  let q := InsertUserSong "Greece 2000" 10 "Sylvie" "Cruz" in
  inserts_into insert "user_song"
  ∧ w_fs created_partial !! new_datafile = Some (header :: line :: rest)
  ∧ table_exists "user_song" (w_ks created_partial) = false
  ∧ insert line = Ok q
  ∧ load_cell insert created_partial
    = (Raise InvalidRequest,
       World (w_fs created_partial) (w_ks created_partial)
         (w_full_data_rows_list created_partial) (w_rows created_partial)
         (w_trace created_partial
            ++ [FileOpen new_datafile; Execute q; FileClose new_datafile])).
Proof.
  intros insert line rest q.
  assert (inserts_into insert "user_song") as H1
    by apply inserts_into_user_song.
  assert (w_fs created_partial !! new_datafile = Some (header :: line :: rest))
    as H2 by (vm_compute; reflexivity).
  assert (table_exists "user_song" (w_ks created_partial) = false) as H3
    by (vm_compute; reflexivity).
  assert (insert line = Ok q) as H4 by (vm_compute; reflexivity).
  split_and!; [exact H1|exact H2|exact H3|exact H4|].
  apply (load_without_table insert "user_song" header line rest q
           created_partial H1 H2 H3 H4).
Defined.

Lemma load_cell_touches_only_its_table_witness :
  let insert := insert_user_song (double := Z * nat) decimal_int in
  inserts_into insert "user_song"
  ∧ same_but "user_song" (ks_tables (w_ks loaded))
      (ks_tables (w_ks (load_cell insert loaded).2))
  ∧ ks_catalog (w_ks (load_cell insert loaded).2) = ks_catalog (w_ks loaded)
  ∧ w_fs (load_cell insert loaded).2 = w_fs loaded
  ∧ w_full_data_rows_list (load_cell insert loaded).2
    = w_full_data_rows_list loaded
  ∧ w_rows (load_cell insert loaded).2 = w_rows loaded.
Proof.
  intros insert.
  assert (inserts_into insert "user_song") as H
    by apply inserts_into_user_song.
  split; [exact H|].
  apply (load_cell_touches_only_its_table insert "user_song" loaded H).
Defined.

(** Two new files with the same two records in the two orders. *)
Definition two_lines : list row :=
  [keep (sample_event "Three Drives" "Sylvie" "1" "Cruz" "411.6371"
           "182" "Greece 2000" "10");
   keep (sample_event "Sebastien Tellier" "Sylvie" "2" "Cruz" "377.73016"
           "182" "Kilometer" "10")].

Definition created_with (lines : list row) : world (double := Z * nat) :=
  World {[ new_datafile := header :: lines ]}
    (w_ks created_partial) [] None [].

Lemma load_order_irrelevant_witness :
  let insert := insert_artist_song_session decimal_int decimal_float in
  let w := created_with two_lines in
  let w' := created_with (reverse two_lines) in
  (insert, "artist_song_session") ∈ loaders decimal_int decimal_float
  ∧ w_fs w !! new_datafile = Some (header :: two_lines)
  ∧ w_fs w' !! new_datafile = Some (header :: reverse two_lines)
  ∧ two_lines ≡ₚ reverse two_lines
  ∧ w_ks w' = w_ks w
  ∧ table_exists "artist_song_session" (w_ks w) = true
  ∧ forallb (row_ok insert) two_lines = true
  ∧ (∀ l1 l2 q1 q2,
       l1 ∈ two_lines → l2 ∈ two_lines →
       insert l1 = Ok q1 → insert l2 = Ok q2 →
       primary_key_of q1 = primary_key_of q2 → q1 = q2)
  ∧ (load_cell insert w).1 = Ok tt
  ∧ (load_cell insert w').1 = Ok tt
  ∧ w_ks (load_cell insert w').2 = w_ks (load_cell insert w).2.
Proof.
  intros insert w w'.
  assert ((insert, "artist_song_session") ∈ loaders decimal_int decimal_float)
    as H1 by apply list_elem_of_here.
  assert (w_fs w !! new_datafile = Some (header :: two_lines)) as H2
    by apply lookup_singleton_eq.
  assert (w_fs w' !! new_datafile = Some (header :: reverse two_lines)) as H3
    by apply lookup_singleton_eq.
  assert (two_lines ≡ₚ reverse two_lines) as H4
    by (symmetry; apply reverse_Permutation).
  assert (w_ks w' = w_ks w) as H5 by reflexivity.
  assert (table_exists "artist_song_session" (w_ks w) = true) as H6
    by (vm_compute; reflexivity).
  assert (forallb (row_ok insert) two_lines = true) as H7
    by (vm_compute; reflexivity).
  assert (∀ l1 l2 q1 q2,
            l1 ∈ two_lines → l2 ∈ two_lines →
            insert l1 = Ok q1 → insert l2 = Ok q2 →
            primary_key_of q1 = primary_key_of q2 → q1 = q2) as H8.
  { intros l1 l2 q1 q2 E1 E2 I1 I2 Hk. unfold two_lines in E1, E2.
    rewrite !elem_of_cons, elem_of_nil in E1, E2.
    destruct E1 as [->|[->|[]]], E2 as [->|[->|[]]];
      vm_compute in I1, I2; injection I1 as <-; injection I2 as <-;
      first [reflexivity | discriminate Hk]. }
  split_and!;
    [exact H1|exact H2|exact H3|exact H4|exact H5|exact H6|exact H7|exact H8
    |..];
    apply (load_order_irrelevant decimal_int decimal_float insert
             "artist_song_session" header header two_lines
             (reverse two_lines) w w' H1 H2 H3 H4 H5 H6 H7 H8).
Defined.

Lemma query_cell_failed_select_witness :
  is_select (double := Z * nat) SelectSongPlaylistSession = true
  ∧ table_exists (table_of (double := Z * nat) SelectSongPlaylistSession)
      (empty_keyspace (double := Z * nat)) = false
  ∧ query_cell SelectSongPlaylistSession
      ["artist"; "song"; "item_in_session"; "first_name"; "last_name"]
      (World sample_fs (empty_keyspace (double := Z * nat)) [] None [])
    = (Raise NameError,
       World sample_fs empty_keyspace [] None
         ([] ++ [Execute SelectSongPlaylistSession])).
Proof.
  split_and!; [reflexivity|reflexivity|].
  apply (query_cell_failed_select SelectSongPlaylistSession
           ["artist"; "song"; "item_in_session"; "first_name"; "last_name"]
           sample_fs empty_keyspace [] [] eq_refl eq_refl).
Defined.

(** The keyspace after the first CREATE TABLE cell and its insert cell:
    [artist_song_session] is loaded, the other tables are not there. *)
Definition first_loaded : world (double := Z * nat) :=
  (load_cell (insert_artist_song_session decimal_int decimal_float) created).2.

Lemma sample_tables_wf : tables_wf (ks_tables (w_ks first_loaded)).
Proof.
  unfold first_loaded.
  pose proof (keeps_load_cell (λ ks, tables_wf (ks_tables ks))
                (exec_wf (double := Z * nat))
                (insert_artist_song_session decimal_int decimal_float)
                created) as H.
  destruct (load_cell _ created) as [[[]|e] w]; apply H;
    (replace (ks_tables (w_ks created))
       with (Tables (double := Z * nat) ∅ ∅ ∅ ∅) by (vm_compute; reflexivity));
    apply tables_wf_empty.
Qed.

Lemma query_1_at_most_one_line_witness :
  tables_wf (ks_tables (w_ks first_loaded))
  ∧ table_exists "artist_song_session" (w_ks first_loaded) = true
  ∧ ∃ data,
      (query_1 (World sample_fs (w_ks first_loaded) [] None [])).1 = Ok data
      ∧ (length data ≤ 1)%nat.
Proof.
  assert (table_exists "artist_song_session" (w_ks first_loaded) = true) as H
    by (vm_compute; reflexivity).
  split_and!; [exact sample_tables_wf|exact H|].
  apply (query_1_at_most_one_line sample_fs (w_ks first_loaded) [] None []
           sample_tables_wf H).
Defined.

Lemma inserted_row_is_read_back_witness :
  tables_wf (ks_tables (w_ks first_loaded))
  ∧ (M_bind _ _ (λ _, query_1)
       (session_execute
          (InsertArtistSongSession 338 4 "Faithless"
             "Music Matters (Mark Knight Dub)" (4953073, 4%nat)))
       (World sample_fs (w_ks first_loaded) [] None [])).1
    = Ok [[VText "Faithless"; VText "Music Matters (Mark Knight Dub)";
           VDouble (4953073, 4%nat)]].
Proof.
  split; [exact sample_tables_wf|].
  apply (inserted_row_is_read_back sample_fs (w_ks first_loaded) [] None []
           sample_tables_wf).
  vm_compute. reflexivity.
Defined.

Lemma notebook_leaves_no_table_witness :
  let run :=
    run_all decimal_int decimal_float sample_paths
      (initial_world sample_fs empty_keyspace) in
  run = (Ok tt, run.2)
  ∧ ks_catalog (w_ks run.2)
    = delete "user_song"
        (delete "song_playlist_session"
           (delete "artist_song_session"
              (ks_catalog (empty_keyspace (double := Z * nat)))))
  ∧ artist_song_session (ks_tables (w_ks run.2)) = ∅
  ∧ song_playlist_session (ks_tables (w_ks run.2)) = ∅
  ∧ user_song (ks_tables (w_ks run.2)) = ∅
  ∧ question_2 (ks_tables (w_ks run.2))
    = question_2 (ks_tables (empty_keyspace (double := Z * nat))).
Proof.
  intros run.
  assert (run = (Ok tt, run.2)) as H by (vm_compute; reflexivity).
  split; [exact H|].
  apply (notebook_leaves_no_table decimal_int decimal_float sample_paths
           (initial_world sample_fs empty_keyspace) run.2 H).
Defined.

Lemma notebook_rerun_witness :
  let run :=
    run_all decimal_int decimal_float sample_paths
      (initial_world sample_fs empty_keyspace) in
  run = (Ok tt, run.2)
  ∧ (new_datafile ∉ sample_paths)
  ∧ (run_all decimal_int decimal_float sample_paths run.2).1 = Ok tt
  ∧ w_ks (run_all decimal_int decimal_float sample_paths run.2).2
    = w_ks run.2
  ∧ w_fs (run_all decimal_int decimal_float sample_paths run.2).2
    = w_fs run.2.
Proof.
  assert (new_datafile ∉ sample_paths) as H2.
  { unfold sample_paths. rewrite !not_elem_of_cons. split_and!; try done.
    apply not_elem_of_nil. }
  intros run.
  assert (run = (Ok tt, run.2)) as H1 by (vm_compute; reflexivity).
  split; [exact H1|]. split; [exact H2|].
  apply (notebook_rerun decimal_int decimal_float sample_paths
           (initial_world sample_fs empty_keyspace) run.2 H1 H2).
Defined.
